(** * A shallow embedding of the segregated-free-list allocator [mm.c]

    The allocator manages one contiguous arena obtained from an sbrk-style
    provider.  Every block carries a header and a footer word packing its
    size with an allocated bit; free blocks embed the two links of a doubly
    linked list in their payload, and an array of eight list heads (one per
    size class) lives in a block of its own at the bottom of the heap.

    The embedding follows the C text function by function.  The heap is a
    finite map from byte addresses to machine words; every macro that reads
    memory ([GET_SIZE], [FTRP], [NEXT_BLKP], ...) is a computation in a small
    state-and-fault monad, so that an access outside the arena, or a read of
    a word nothing ever wrote, is visible as a result of its own. *)

From Stdlib Require Import ZArith Lia Bool.
From stdpp Require Import base gmap list.

Local Open Scope Z_scope.

(** ** Machine parameters *)

(** The code is written for both pointer widths ([WSIZE] is
    [sizeof(void * )]); the embedding is parametric in the width. *)
Inductive ptr_width := W32 | W64.
Existing Class ptr_width.

(** ** The allocator state *)

(** The three arena bounds belong to the memory provider; [cells] holds the
    words written so far; the last three fields are the C file's globals. *)
Record state := mkState {
  mem_start_brk : Z;
  mem_brk       : Z;
  mem_max_addr  : Z;
  cells         : gmap Z Z;
  free_listp    : Z;
  heap_listp    : Z;
  failedsize    : Z
}.

Definition set_brk (b : Z) (s : state) : state :=
  mkState (mem_start_brk s) b (mem_max_addr s) (cells s)
          (free_listp s) (heap_listp s) (failedsize s).

Definition set_cells (c : gmap Z Z) (s : state) : state :=
  mkState (mem_start_brk s) (mem_brk s) (mem_max_addr s) c
          (free_listp s) (heap_listp s) (failedsize s).

Definition set_free_listp (p : Z) (s : state) : state :=
  mkState (mem_start_brk s) (mem_brk s) (mem_max_addr s) (cells s)
          p (heap_listp s) (failedsize s).

Definition set_heap_listp (p : Z) (s : state) : state :=
  mkState (mem_start_brk s) (mem_brk s) (mem_max_addr s) (cells s)
          (free_listp s) p (failedsize s).

Definition set_failedsize (n : Z) (s : state) : state :=
  mkState (mem_start_brk s) (mem_brk s) (mem_max_addr s) (cells s)
          (free_listp s) (heap_listp s) n.

(** ** Results and the monad *)

Inductive fault :=
| SegFault (a : Z)   (* access outside the arena, or misaligned *)
| Uninit (a : Z)     (* read of a word that was never written *)
| OutOfFuel.         (* a list walk did not end within its budget *)

Inductive outcome (A : Type) :=
| Ok (x : A) (s : state)
| Err (e : fault).

Arguments Ok {A} x s.
Arguments Err {A} e.

Definition M (A : Type) : Type := state -> outcome A.

Definition ret {A} (x : A) : M A := fun s => Ok x s.

Definition bind {A B} (m : M A) (k : A -> M B) : M B :=
  fun s => match m s with
           | Ok x s' => k x s'
           | Err e => Err e
           end.

Notation "'do' x <- m ; k" := (bind m (fun x => k))
  (at level 10, x name, m at level 100, k at level 200).
Notation "m ;; k" := (bind m (fun _ => k))
  (at level 100, k at level 200, right associativity).

Definition gets {A} (f : state -> A) : M A := fun s => Ok (f s) s.
Definition modify (f : state -> state) : M unit := fun s => Ok tt (f s).

Definition NULL : Z := 0.

Section Allocator.

Context {pw : ptr_width}.

(** [#define WSIZE sizeof(void * )], [#define DSIZE (2 * WSIZE)]. *)
Definition WSIZE : Z := match pw with W32 => 4 | W64 => 8 end.
Definition DSIZE : Z := 2 * WSIZE.

(** [size_t] and [uintptr_t] arithmetic wraps modulo [2^(8*WSIZE)]. *)
Definition modulus : Z := 2 ^ (8 * WSIZE).
Definition wrap (x : Z) : Z := x mod modulus.

(** ** Memory accesses *)

(** A word access is served when the word lies inside the arena the provider
    reserved and is word-aligned relative to its start. *)
Definition valid_addr (s : state) (a : Z) : bool :=
  (mem_start_brk s <=? a) && (a + WSIZE <=? mem_max_addr s)
  && ((a - mem_start_brk s) mod WSIZE =? 0).

(** [#define GET(p) ( *(uintptr_t * )(p))] *)
Definition GET (p : Z) : M Z := fun s =>
  if valid_addr s p then
    match cells s !! p with
    | Some v => Ok v s
    | None => Err (Uninit p)
    end
  else Err (SegFault p).

(** [#define PUT(p, val) ( *(uintptr_t * )(p) = (val))] *)
Definition PUT (p val : Z) : M unit := fun s =>
  if valid_addr s p then Ok tt (set_cells (<[p := val]> (cells s)) s)
  else Err (SegFault p).

(** [#define PACK(size, alloc) ((size) | (alloc))] *)
Definition PACK (size alloc : Z) : Z := Z.lor size alloc.

(** The two field extractions of [GET_SIZE] and [GET_ALLOC], on a word
    already read: [w & ~(DSIZE - 1)] and [w & 0x1]. *)
Definition size_bits (w : Z) : Z := Z.land w (wrap (Z.lnot (DSIZE - 1))).
Definition alloc_bit (w : Z) : Z := Z.land w 1.

Definition GET_SIZE (p : Z) : M Z := do w <- GET p ; ret (size_bits w).
Definition GET_ALLOC (p : Z) : M Z := do w <- GET p ; ret (alloc_bit w).

(** [#define HDRP(bp) ((char * )(bp) - WSIZE)] and
    [#define FTRP(bp) ((char * )(bp) + GET_SIZE(HDRP(bp)) - DSIZE)]. *)
Definition HDRP (bp : Z) : Z := bp - WSIZE.
Definition FTRP (bp : Z) : M Z :=
  do sz <- GET_SIZE (HDRP bp) ; ret (bp + sz - DSIZE).

(** [NEXT_BLKP] reads the block's own header, [PREV_BLKP] the footer of the
    block below. *)
Definition NEXT_BLKP (bp : Z) : M Z :=
  do sz <- GET_SIZE (bp - WSIZE) ; ret (bp + sz).
Definition PREV_BLKP (bp : Z) : M Z :=
  do sz <- GET_SIZE (bp - DSIZE) ; ret (bp - sz).

(** [struct free_block { struct free_block *prev; struct free_block *next; }]:
    the addresses of the two fields of the block at [p]. *)
Definition prev_field (p : Z) : Z := p.
Definition next_field (p : Z) : Z := p + WSIZE.

(** The address of [free_listp[idx]]. *)
Definition slot (idx : Z) : M Z :=
  do base <- gets free_listp ; ret (base + idx * WSIZE).

(** ** The arena provider *)

(** Modelled from the spec: the arena provider ([memlib.h], [mem_sbrk]) is
    not among the sources.  The spec asks for
    [heap_extend(n_bytes) -> address | FAIL] which on success returns the
    address where the new bytes begin, equal to the old heap end, and which
    consumes nothing when it fails.  [None] stands for the failure sentinel
    [(void * )-1]. *)
Definition mem_sbrk (incr : Z) : M (option Z) := fun s =>
  if (incr <? 0) || (mem_max_addr s <? mem_brk s + incr) then Ok None s
  else Ok (Some (mem_brk s)) (set_brk (mem_brk s + incr) s).

(** The C library's [memcpy], on whole words.  The
    allocator only passes byte counts that are block sizes, hence multiples
    of [DSIZE]; the copy moves [n / WSIZE] words in ascending order and, like
    a byte copy, carries over a word nobody wrote as such. *)
Fixpoint memcpy_words (k : nat) (dst src : Z) : M unit :=
  match k with
  | O => ret tt
  | S k' => fun s =>
      if valid_addr s src && valid_addr s dst then
        memcpy_words k' (dst + WSIZE) (src + WSIZE)
          (set_cells (match cells s !! src with
                      | Some v => <[dst := v]> (cells s)
                      | None => delete dst (cells s)
                      end) s)
      else Err (SegFault (if valid_addr s src then dst else src))
  end.

Definition memcpy (dst src n : Z) : M unit :=
  memcpy_words (Z.to_nat (n / WSIZE)) dst src.

(** ** Team-defined helpers *)

Definition find_list (size : Z) : Z :=
  if size <=? 64 then 0
  else if size <=? 128 then 1
  else if size <=? 256 then 2
  else if size <=? 512 then 3
  else if size <=? 1024 then 4
  else if size <=? 2048 then 5
  else if size <=? 4096 then 6
  else 7.

(** Every mention of [free_listp[idx]] as a value is a fresh read of the
    array cell, as in the C text. *)
Definition insert_free (asize bp : Z) : M unit :=
  let idx := find_list asize in
  do sl <- slot idx ;
  do h <- GET sl ;
  if h =? NULL then
    PUT sl bp ;;
    do h1 <- GET sl ;
    PUT (next_field h1) NULL ;;
    do h2 <- GET sl ;
    PUT (prev_field h2) NULL
  else
    let first := bp in
    do h1 <- GET sl ;
    PUT (next_field first) h1 ;;
    PUT (prev_field first) NULL ;;
    do h2 <- GET sl ;
    PUT (prev_field h2) first ;;
    PUT sl first.

Definition remove_free (bp : Z) : M unit :=
  do size <- GET_SIZE (HDRP bp) ;
  let list := find_list size in
  let current := bp in
  do sl <- slot list ;
  do cp <- GET (prev_field current) ;
  if cp =? NULL then
    do cn <- GET (next_field current) ;
    if negb (cn =? NULL) then
      do cn1 <- GET (next_field current) ;
      PUT (prev_field cn1) NULL ;;
      do cn2 <- GET (next_field current) ;
      PUT sl cn2
    else
      PUT sl NULL
  else
    do cn <- GET (next_field current) ;
    if cn =? NULL then
      do cp1 <- GET (prev_field current) ;
      PUT (next_field cp1) NULL
    else
      do cp1 <- GET (prev_field current) ;
      do cn1 <- GET (next_field current) ;
      PUT (next_field cp1) cn1 ;;
      do cn2 <- GET (next_field current) ;
      do cp2 <- GET (prev_field current) ;
      PUT (prev_field cn2) cp2.

(** ** Initialisation *)

(** [free_listp[i] = NULL] for [i] from [i0], [n] times. *)
Fixpoint clear_heads (n : nat) (i : Z) : M unit :=
  match n with
  | O => ret tt
  | S n' => do sl <- slot i ; PUT sl NULL ;; clear_heads n' (i + 1)
  end.

Definition mm_init : M Z :=
  do r <- mem_sbrk (4 * WSIZE) ;
  modify (set_heap_listp (match r with Some p => p | None => wrap (-1) end)) ;;
  match r with
  | None => ret (-1)
  | Some _ =>
    do hl <- gets heap_listp ;
    PUT hl 0 ;;                                   (* Alignment padding *)
    PUT (hl + 1 * WSIZE) (PACK DSIZE 1) ;;        (* Prologue header *)
    PUT (hl + 2 * WSIZE) (PACK DSIZE 1) ;;        (* Prologue footer *)
    PUT (hl + 3 * WSIZE) (PACK 0 1) ;;            (* Epilogue header *)
    modify (fun s => set_heap_listp (heap_listp s + 2 * WSIZE) s) ;;
    do r2 <- mem_sbrk (10 * WSIZE) ;
    match r2 with
    | None => ret (-1)
    | Some startp =>
      PUT (HDRP startp) (PACK (10 * WSIZE) 1) ;;
      do f <- FTRP startp ;
      PUT f (PACK (10 * WSIZE) 1) ;;
      do n <- NEXT_BLKP startp ;
      PUT n (PACK 0 1) ;;                         (* Epilogue header *)
      modify (set_free_listp startp) ;;
      clear_heads 8 0 ;;
      ret 0
    end
  end.

(** ** Internal helper routines *)

Definition extend_heap (words : Z) : M Z :=
  let size := if negb (words mod 2 =? 0)
              then wrap (wrap (words + 1) * WSIZE)
              else wrap (words * WSIZE) in
  do r <- mem_sbrk size ;
  match r with
  | None => ret NULL
  | Some bp =>
    PUT (HDRP bp) (PACK size 0) ;;                (* Free block header *)
    do f <- FTRP bp ;
    PUT f (PACK size 0) ;;                        (* Free block footer *)
    do n <- NEXT_BLKP bp ;
    PUT (HDRP n) (PACK 0 1) ;;                    (* New epilogue header *)
    ret bp
  end.

Definition coalesce (bp : Z) : M Z :=
  do size <- GET_SIZE (HDRP bp) ;
  do pb <- PREV_BLKP bp ;
  do pa <- GET_ALLOC (HDRP pb) ;
  let prev_alloc := negb (pa =? 0) in
  do nb <- NEXT_BLKP bp ;
  do na <- GET_ALLOC (HDRP nb) ;
  let next_alloc := negb (na =? 0) in
  if prev_alloc && next_alloc then                 (* Case 1 *)
    insert_free size bp ;;
    ret bp
  else if prev_alloc && negb next_alloc then       (* Case 2 *)
    do nb1 <- NEXT_BLKP bp ;
    remove_free nb1 ;;
    do nb2 <- NEXT_BLKP bp ;
    do ns <- GET_SIZE (HDRP nb2) ;
    let size := wrap (size + ns) in
    PUT (HDRP bp) (PACK size 0) ;;
    do f <- FTRP bp ;
    PUT f (PACK size 0) ;;
    insert_free size bp ;;
    ret bp
  else if negb prev_alloc && next_alloc then       (* Case 3 *)
    do pb1 <- PREV_BLKP bp ;
    remove_free pb1 ;;
    do pb2 <- PREV_BLKP bp ;
    do ps <- GET_SIZE (HDRP pb2) ;
    let size := wrap (size + ps) in
    do f <- FTRP bp ;
    PUT f (PACK size 0) ;;
    do pb3 <- PREV_BLKP bp ;
    PUT (HDRP pb3) (PACK size 0) ;;
    do bp' <- PREV_BLKP bp ;
    insert_free size bp' ;;
    ret bp'
  else                                             (* Case 4 *)
    do nb1 <- NEXT_BLKP bp ;
    remove_free nb1 ;;
    do pb1 <- PREV_BLKP bp ;
    remove_free pb1 ;;
    do pb2 <- PREV_BLKP bp ;
    do ps <- GET_SIZE (HDRP pb2) ;
    do nb2 <- NEXT_BLKP bp ;
    do nf <- FTRP nb2 ;
    do ns <- GET_SIZE nf ;
    let size := wrap (size + wrap (ps + ns)) in
    do pb3 <- PREV_BLKP bp ;
    PUT (HDRP pb3) (PACK size 0) ;;
    do nb3 <- NEXT_BLKP bp ;
    do nf3 <- FTRP nb3 ;
    PUT nf3 (PACK size 0) ;;
    do bp' <- PREV_BLKP bp ;
    insert_free size bp' ;;
    ret bp'.

(** The [for] loop of [find_fit] over one list.  The C loop has no bound of
    its own; [fuel] bounds the number of nodes visited, and running out of
    it is reported as such.  [NULL] means the list ended without a fit. *)
Fixpoint scan_list (fuel : nat) (asize current : Z) : M Z :=
  match fuel with
  | O => fun _ => Err OutOfFuel
  | S fuel' =>
    if current =? NULL then ret NULL
    else
      do sz <- GET_SIZE (HDRP current) ;
      if sz >=? asize then ret current
      else do nx <- GET (next_field current) ; scan_list fuel' asize nx
  end.

(** The [while (idx < 8)] loop; [n] counts the iterations left. *)
Fixpoint scan_classes (fuel n : nat) (asize idx : Z) : M Z :=
  if idx <? 8 then
    match n with
    | O => fun _ => Err OutOfFuel
    | S n' =>
      do sl <- slot idx ;
      do h <- GET sl ;
      do r <- scan_list fuel asize h ;
      if negb (r =? NULL) then ret r
      else scan_classes fuel n' asize (idx + 1)
    end
  else ret NULL.

Definition find_fit (fuel : nat) (asize : Z) : M Z :=
  let idx := find_list asize in
  scan_classes fuel 8 asize idx.

Definition place (bp asize : Z) (remove_flag : bool) : M unit :=
  do csize <- GET_SIZE (HDRP bp) ;
  (if remove_flag then remove_free bp else ret tt) ;;
  if wrap (csize - asize) >=? 2 * DSIZE then
    PUT (HDRP bp) (PACK asize 1) ;;
    do f <- FTRP bp ;
    PUT f (PACK asize 1) ;;
    do bp' <- NEXT_BLKP bp ;
    PUT (HDRP bp') (PACK (wrap (csize - asize)) 0) ;;
    do f' <- FTRP bp' ;
    PUT f' (PACK (wrap (csize - asize)) 0) ;;
    insert_free (wrap (csize - asize)) bp'
  else
    PUT (HDRP bp) (PACK csize 1) ;;
    do f <- FTRP bp ;
    PUT f (PACK csize 1).

(** ** The public interface *)

(** The size adjustment written out in both [mm_malloc] and [mm_realloc]:
    [if (size <= DSIZE) asize = 2 * DSIZE; else
     asize = DSIZE * ((size + DSIZE + (DSIZE - 1)) / DSIZE);] *)
Definition adjust_size (size : Z) : Z :=
  if size <=? DSIZE then 2 * DSIZE
  else wrap (DSIZE * (wrap (size + DSIZE + (DSIZE - 1)) / DSIZE)).

Definition mm_malloc (fuel : nat) (size : Z) : M Z :=
  if size =? 0 then ret NULL
  else
    let asize := adjust_size size in
    do fs <- gets failedsize ;
    if asize =? fs then
      do bp <- extend_heap (asize / WSIZE) ;
      if bp =? NULL then ret NULL
      else place bp asize false ;; ret bp
    else
      do bp <- find_fit fuel asize ;
      if negb (bp =? NULL) then
        place bp asize true ;; ret bp
      else
        let extendsize := asize in
        modify (set_failedsize asize) ;;
        do bp <- extend_heap (extendsize / WSIZE) ;
        if bp =? NULL then ret NULL
        else place bp asize false ;; ret bp.

Definition mm_free (bp : Z) : M unit :=
  if bp =? NULL then ret tt
  else
    do size <- GET_SIZE (HDRP bp) ;
    do fs <- gets failedsize ;
    (if size =? fs then modify (set_failedsize 0) else ret tt) ;;
    PUT (HDRP bp) (PACK size 0) ;;
    do f <- FTRP bp ;
    PUT f (PACK size 0) ;;
    do _r <- coalesce bp ;
    ret tt.

Definition mm_realloc (fuel : nat) (ptr size : Z) : M Z :=
  do oldsize <- GET_SIZE (HDRP ptr) ;
  let asize := adjust_size size in
  if size =? 0 then
    mm_free ptr ;; ret NULL
  else if ptr =? NULL then
    mm_malloc fuel size
  else if asize <=? oldsize then
    ret ptr
  else
    do nb <- NEXT_BLKP ptr ;
    do ns <- GET_SIZE (HDRP nb) ;
    if ns =? 0 then
      do _r <- extend_heap (wrap (asize - oldsize) / WSIZE) ;
      PUT (HDRP ptr) (PACK asize 1) ;;
      do f <- FTRP ptr ;
      PUT f (PACK asize 1) ;;
      ret ptr
    else
      do newptr <- mm_malloc fuel size ;
      memcpy newptr ptr oldsize ;;
      mm_free ptr ;;
      ret newptr.

End Allocator.

(** ** The earlier variant of the extender *)

(** One of the older copies of the allocator kept in the repository ends
    [extend_heap] with [return coalesce(bp);] (its helpers [find_list],
    [insert_free], [remove_free] and [coalesce] read exactly as in [mm.c]). *)
Module Part001.
Section Variant.
Context {pw : ptr_width}.

Definition extend_heap (words : Z) : M Z :=
  let size := if negb (words mod 2 =? 0)
              then wrap (wrap (words + 1) * WSIZE)
              else wrap (words * WSIZE) in
  do r <- mem_sbrk size ;
  match r with
  | None => ret NULL
  | Some bp =>
    PUT (HDRP bp) (PACK size 0) ;;                (* Free block header *)
    do f <- FTRP bp ;
    PUT f (PACK size 0) ;;                        (* Free block footer *)
    do n <- NEXT_BLKP bp ;
    PUT (HDRP n) (PACK 0 1) ;;                    (* New epilogue header *)
    coalesce bp                                   (* Coalesce if the previous block was free. *)
  end.

End Variant.
End Part001.

(** * The heap consistency checker *)

(** The lines the checker prints, in the order of their [printf] calls. *)
Inductive message :=
  | HeapLine (hl : Z)                 (* "Heap (%p):" *)
  | NotAligned (bp : Z)               (* "Error: %p is not doubleword aligned" *)
  | HeaderFooterMismatch              (* "Error: header does not match footer" *)
  | BadPrologue                       (* "Bad prologue header" *)
  | BadEpilogue                       (* "Bad epilogue header" *)
  | EndOfHeap (bp : Z)                (* "%p: end of heap" *)
  | BlockLine (bp hsize : Z) (halloc : bool) (fsize : Z) (falloc : bool).
                                      (* "%p: header: [%zu:%c] footer: [%zu:%c]" *)

Section Checker.

Context {pw : ptr_width}.

(** The checker only reads the heap; what it prints is returned as a list
    of lines. *)
Definition checkblock (bp : Z) : M (list message) :=
  let m1 := if negb (bp mod WSIZE =? 0) then [NotAligned bp] else [] in
  do h <- GET (HDRP bp) ;
  do fp <- FTRP bp ;
  do f <- GET fp ;
  ret (m1 ++ if negb (h =? f) then [HeaderFooterMismatch] else []).

(** The loop of [checkheap],
    [for (bp = heap_listp; GET_SIZE(HDRP(bp)) > 0; bp = NEXT_BLKP(bp))],
    with the block it stops on; [pb] is [printblock]. *)
Fixpoint walk_blocks (fuel : nat) (pb : Z -> M (list message)) (verbose : bool)
    (bp : Z) : M (list message * Z) :=
  match fuel with
  | O => fun _ => Err OutOfFuel
  | S fuel' =>
    do sz <- GET_SIZE (HDRP bp) ;
    if sz >? 0 then
      do m1 <- (if verbose then pb bp else ret []) ;
      do m2 <- checkblock bp ;
      do nb <- NEXT_BLKP bp ;
      do r <- walk_blocks fuel' pb verbose nb ;
      ret (m1 ++ m2 ++ fst r, snd r)
    else ret ([], bp)
  end.

(** [checkheap], with [printblock] as a parameter: the two call each
    other in the source. *)
Definition checkheap_with (pb : Z -> M (list message)) (fuel : nat)
    (verbose : bool) : M (list message) :=
  do hl <- gets heap_listp ;
  let m0 := if verbose then [HeapLine hl] else [] in
  do sz <- GET_SIZE (HDRP hl) ;
  do bad <- (if negb (sz =? WSIZE) then ret true
             else do a <- GET_ALLOC (HDRP hl) ; ret (a =? 0)) ;
  do m2 <- checkblock hl ;
  do r <- walk_blocks fuel pb verbose hl ;
  do m4 <- (if verbose then pb (snd r) else ret []) ;
  do sz' <- GET_SIZE (HDRP (snd r)) ;
  do bad' <- (if negb (sz' =? 0) then ret true
              else do a <- GET_ALLOC (HDRP (snd r)) ; ret (a =? 0)) ;
  ret (m0 ++ (if bad then [BadPrologue] else []) ++ m2 ++ fst r ++ m4
          ++ (if bad' then [BadEpilogue] else [])).

(** [printblock] starts with [checkheap(false)], which prints no block:
    the parameter of that inner call is never run. *)
Definition printblock (fuel : nat) (bp : Z) : M (list message) :=
  do m0 <- checkheap_with (fun _ => ret []) fuel false ;
  do hsize <- GET_SIZE (HDRP bp) ;
  do halloc <- GET_ALLOC (HDRP bp) ;
  do fp <- FTRP bp ;
  do fsize <- GET_SIZE fp ;
  do fp' <- FTRP bp ;
  do falloc <- GET_ALLOC fp' ;
  if hsize =? 0 then ret (m0 ++ [EndOfHeap bp])
  else ret (m0 ++ [BlockLine bp hsize (negb (halloc =? 0)) fsize (negb (falloc =? 0))]).

Definition checkheap (fuel : nat) (verbose : bool) : M (list message) :=
  checkheap_with (printblock fuel) fuel verbose.

End Checker.

(** * Specification vocabulary *)

(** A fresh arena of the provider: nothing handed out, nothing written. *)
Definition fresh_arena (base limit : Z) : state := mkState base base limit ∅ 0 0 0.

(** The state a computation leaves behind ([s] itself when it faults). *)
Definition exec {A} (m : M A) (s : state) : state :=
  match m s with Ok _ s' => s' | Err _ => s end.

Section Vocabulary.
Context {pw : ptr_width}.

(** [wp m s Q]: from [s], [m] returns normally and its result and final
    state satisfy [Q]. *)
Definition wp {A} (m : M A) (s : state) (Q : A -> state -> Prop) : Prop :=
  match m s with
  | Ok x s' => Q x s'
  | Err _ => False
  end.

(** [s |= a ~> w]: the word at [a] can be read and is [w]. *)
Definition holds (s : state) (a w : Z) : Prop :=
  valid_addr s a = true /\ cells s !! a = Some w.

(** [dseg m prev cur l fin]: following the [next] links from [cur] visits
    exactly the blocks of [l], in order, and ends on [fin]; the [prev] link
    of each block points to the block before it, that of the first to
    [prev]. *)
Fixpoint dseg (m : gmap Z Z) (prev cur : Z) (l : list Z) (fin : Z) : Prop :=
  match l with
  | [] => cur = fin
  | b :: l' =>
    cur = b /\ b <> NULL /\ m !! prev_field b = Some prev /\
    exists nx, m !! next_field b = Some nx /\ dseg m b nx l' fin
  end.

(** Two payload addresses at least a minimum block apart: none of the
    header and link words of the one is a word of the other. *)
Definition far (b b' : Z) : Prop := b + 2 * DSIZE <= b' \/ b' + 2 * DSIZE <= b.

(** A block on the list of class [i]: its header and link words are
    words of the arena above the array of list heads, and the size in its
    header is of class [i]. *)
Record node_ok (s : state) (i b : Z) : Prop := {
  node_hdr : valid_addr s (HDRP b) = true;
  node_prev : valid_addr s (prev_field b) = true;
  node_next : valid_addr s (next_field b) = true;
  node_above : free_listp s + 8 * WSIZE <= HDRP b;
  node_class : exists w, cells s !! HDRP b = Some w /\ find_list (size_bits w) = i
}.

(** [lists_ok s L]: for every class [i], [free_listp[i]] heads a well
    formed doubly linked list of exactly the blocks [L i]. *)
Record lists_ok (s : state) (L : Z -> list Z) : Prop := {
  lo_heads : forall i, 0 <= i < 8 ->
    exists h, holds s (free_listp s + i * WSIZE) h /\ dseg (cells s) NULL h (L i) NULL;
  lo_nodes : forall i b, 0 <= i < 8 -> b ∈ L i -> node_ok s i b;
  lo_nodup : forall i, 0 <= i < 8 -> NoDup (L i);
  lo_far : forall i j b b', 0 <= i < 8 -> 0 <= j < 8 ->
    b ∈ L i -> b' ∈ L j -> b <> b' -> far b b'
}.

(** [L] with [b] put in front of the list of class [c]. *)
Definition fl_cons (c b : Z) (L : Z -> list Z) : Z -> list Z :=
  fun i => if decide (i = c) then b :: L i else L i.

(** [L] with [b] taken out of the list of class [c]. *)
Definition fl_remove (c b : Z) (L : Z -> list Z) : Z -> list Z :=
  fun i => if decide (i = c) then filter (fun x => x <> b) (L i) else L i.

(** Two states that differ at most in the contents of memory. *)
Definition same_arena (s s' : state) : Prop :=
  mem_start_brk s' = mem_start_brk s /\ mem_brk s' = mem_brk s /\
  mem_max_addr s' = mem_max_addr s /\ free_listp s' = free_listp s /\
  heap_listp s' = heap_listp s /\ failedsize s' = failedsize s.

(** The four cases of [coalesce] in one table.  [sp] and [pa] are the size
    and allocated bit of the block below [bp], [sn] and [na] those of the
    block above; [sz] is the size of the block at [bp]. *)
Definition merged_start (bp sp pa : Z) : Z := if pa =? 0 then bp - sp else bp.

Definition merged_size (sz sp pa sn na : Z) : Z :=
  sz + (if pa =? 0 then sp else 0) + (if na =? 0 then sn else 0).

Definition merged_lists (L : Z -> list Z) (bp sz sp pa sn na : Z) : Z -> list Z :=
  let L1 := if na =? 0 then fl_remove (find_list sn) (bp + sz) L else L in
  let L2 := if pa =? 0 then fl_remove (find_list sp) (bp - sp) L1 else L1 in
  fl_cons (find_list (merged_size sz sp pa sn na)) (merged_start bp sp pa) L2.

(** What [coalesce bp] is entitled to: [bp] is a block of [sz] bytes whose
    header and footer are marked free and which is on no list; its two
    neighbours carry consistent boundary tags and are on their list when
    free; no other listed block lies inside the blocks to be merged. *)
Record coalescible (s : state) (L : Z -> list Z) (bp sz sp pa sn na : Z) : Prop := {
  co_arena : 0 <= mem_start_brk s /\ mem_max_addr s < modulus;
  co_lists : lists_ok s L;
  co_hdr : holds s (HDRP bp) (PACK sz 0);
  co_ftr : holds s (bp + sz - DSIZE) (PACK sz 0);
  co_size : 2 * DSIZE <= sz /\ sz mod DSIZE = 0;
  co_links : valid_addr s (prev_field bp) = true /\ valid_addr s (next_field bp) = true;
  co_above : free_listp s + 8 * WSIZE <= HDRP bp;
  co_bits : (pa = 0 \/ pa = 1) /\ (na = 0 \/ na = 1);
  co_prev_ftr : holds s (bp - DSIZE) (PACK sp pa);
  co_prev_hdr : holds s (HDRP (bp - sp)) (PACK sp pa);
  co_prev_size : 0 < sp /\ sp mod DSIZE = 0;
  co_prev_free : pa = 0 -> 2 * DSIZE <= sp /\ bp - sp ∈ L (find_list sp);
  co_next_hdr : holds s (HDRP (bp + sz)) (PACK sn na);
  co_next_size : 0 <= sn /\ sn mod DSIZE = 0;
  co_next_free : na = 0 ->
    2 * DSIZE <= sn /\ holds s (bp + sz + sn - DSIZE) (PACK sn 0)
    /\ bp + sz ∈ L (find_list sn);
  co_others : forall j b, 0 <= j < 8 -> b ∈ L j ->
    (pa = 0 -> b <> bp - sp) -> (na = 0 -> b <> bp + sz) ->
    b + 2 * DSIZE <= merged_start bp sp pa
    \/ merged_start bp sp pa + merged_size sz sp pa sn na <= b
}.

(** The size recorded in the header of the block at [b]. *)
Definition blk_size (s : state) (b : Z) : Z :=
  size_bits (default 0 (cells s !! HDRP b)).

(** The first block of [l], in order, whose recorded size is at least
    [asize]; [NULL] when there is none. *)
Definition first_fit (s : state) (asize : Z) (l : list Z) : Z :=
  default NULL (List.find (fun b => blk_size s b >=? asize) l).

(** The lists of the classes [idx], [idx + 1], ..., 7, one after the other. *)
Definition classes_from (L : Z -> list Z) (idx : Z) : list Z :=
  concat (L <$> seqZ idx (8 - idx)).

(** The ceiling of [a / b], over the integers. *)
Definition ceil_div (a b : Z) : Z := (a + b - 1) / b.

(** The adjustment as the specification words it, over the integers:
    [2 * DSIZE] for a request of at most [DSIZE] bytes, otherwise [DSIZE]
    times the ceiling of [(size + DSIZE) / DSIZE]. *)
Definition adjust_by_spec (size : Z) : Z :=
  if size <=? DSIZE then 2 * DSIZE
  else DSIZE * ceil_div (size + DSIZE) DSIZE.

(** All eight lists empty. *)
Definition no_lists : Z -> list Z := fun _ => [].

(** The state [extend_heap] leaves behind: the break moved up by [size],
    the old epilogue turned into the header of a free block of [size]
    bytes, its footer, and a new epilogue. *)
Definition extended (s : state) (size : Z) : state :=
  let bp := mem_brk s in
  set_cells (<[bp + size - WSIZE := PACK 0 1]>
            (<[bp + size - DSIZE := PACK size 0]>
            (<[bp - WSIZE := PACK size 0]> (cells s))))
    (set_brk (bp + size) s).

(** Room for [size] more bytes, in an arena inside the address space whose
    break is word aligned and has the epilogue word below it. *)
Record extensible (s : state) (size : Z) : Prop := {
  ex_size : DSIZE <= size /\ size mod DSIZE = 0;
  ex_room : mem_brk s + size <= mem_max_addr s /\ mem_max_addr s < modulus;
  ex_brk : 0 <= mem_start_brk s /\ mem_start_brk s + WSIZE <= mem_brk s
           /\ (mem_brk s - mem_start_brk s) mod WSIZE = 0
}.

(** A block of [csize] bytes at [bp] stamped allocated as a whole. *)
Definition allocated_whole (s : state) (bp csize : Z) : state :=
  set_cells (<[bp + csize - DSIZE := PACK csize 1]>
            (<[HDRP bp := PACK csize 1]> (cells s))) s.

(** Boolean versions of [dseg], [node_ok], [far] and [lists_ok], to check
    a concrete heap by computation. *)
Fixpoint dsegb (m : gmap Z Z) (prev cur : Z) (l : list Z) (fin : Z) : bool :=
  match l with
  | [] => cur =? fin
  | b :: l' =>
    (cur =? b) && negb (b =? NULL) && bool_decide (m !! prev_field b = Some prev)
    && match m !! next_field b with
       | Some nx => dsegb m b nx l' fin
       | None => false
       end
  end.

Definition node_okb (s : state) (i b : Z) : bool :=
  valid_addr s (HDRP b) && valid_addr s (prev_field b) && valid_addr s (next_field b)
  && (free_listp s + 8 * WSIZE <=? HDRP b)
  && match cells s !! HDRP b with
     | Some w => find_list (size_bits w) =? i
     | None => false
     end.

Definition farb (b b' : Z) : bool :=
  (b + 2 * DSIZE <=? b') || (b' + 2 * DSIZE <=? b).

Definition all_nodes (L : Z -> list Z) : list Z := concat (L <$> seqZ 0 8).

Definition class_okb (s : state) (L : Z -> list Z) (i : Z) : bool :=
  match cells s !! (free_listp s + i * WSIZE) with
  | Some h => valid_addr s (free_listp s + i * WSIZE) && dsegb (cells s) NULL h (L i) NULL
  | None => false
  end
  && forallb (node_okb s i) (L i) && bool_decide (NoDup (L i)).

Definition lists_okb (s : state) (L : Z -> list Z) : bool :=
  forallb (class_okb s L) (seqZ 0 8)
  && forallb (fun b => forallb (fun b' => (b =? b') || farb b b') (all_nodes L))
       (all_nodes L).


(** What the coalescing extender needs besides room in the arena: the
    block that ends at the break, of [sp] bytes with allocated bit [pa]. *)
Record extensible_after (s : state) (L : Z -> list Z) (size sp pa : Z) : Prop := {
  xa_room : extensible s size;
  xa_min : 2 * DSIZE <= size;
  xa_lists : lists_ok s L;
  xa_above : free_listp s + 8 * WSIZE <= HDRP (mem_brk s);
  xa_bit : pa = 0 \/ pa = 1;
  xa_prev_ftr : holds s (mem_brk s - DSIZE) (PACK sp pa);
  xa_prev_hdr : holds s (HDRP (mem_brk s - sp)) (PACK sp pa);
  xa_prev_size : DSIZE <= sp /\ sp mod DSIZE = 0;
  xa_prev_free : pa = 0 -> 2 * DSIZE <= sp /\ mem_brk s - sp ∈ L (find_list sp);
  xa_below : forall j b, 0 <= j < 8 -> b ∈ L j -> (pa = 0 -> b <> mem_brk s - sp) ->
    b + 2 * DSIZE <= merged_start (mem_brk s) sp pa
}.

(** The extender as the specification words it: when the block below the
    break is free, of [sp] bytes, a successful call returns the payload of
    that block, the merged one. *)
Definition extend_heap_coalesces (s : state) (words : Z) : Prop :=
  forall sp, holds s (mem_brk s - DSIZE) (PACK sp 0) ->
  exists s', extend_heap words s = Ok (mem_brk s - sp) s'.

(** The relocation case of [mm_realloc] as the specification words it: the
    old payload only, [oldsize - DSIZE] bytes, is copied. *)
Definition relocate_by_spec (fuel : nat) (ptr size : Z) : M Z :=
  do oldsize <- GET_SIZE (HDRP ptr) ;
  do newptr <- mm_malloc fuel size ;
  memcpy newptr ptr (oldsize - DSIZE) ;;
  mm_free ptr ;;
  ret newptr.

End Vocabulary.

(** * Vocabulary of the further properties *)

Section MoreVocabulary.
Context {pw : ptr_width}.

(** What [place bp asize 1] is entitled to: [bp] is a listed free block of
    [csize] bytes, at least the [asize] bytes asked for, and no other
    listed block lies inside it. *)
Record placeable (s : state) (L : Z -> list Z) (bp csize asize : Z) : Prop := {
  pl_arena : 0 <= mem_start_brk s /\ mem_max_addr s < modulus;
  pl_lists : lists_ok s L;
  pl_hdr : holds s (HDRP bp) (PACK csize 0);
  pl_ftr : valid_addr s (bp + csize - DSIZE) = true;
  pl_listed : bp ∈ L (find_list csize);
  pl_sizes : 2 * DSIZE <= asize <= csize /\ asize mod DSIZE = 0 /\ csize mod DSIZE = 0;
  pl_others : forall j b, 0 <= j < 8 -> b ∈ L j -> b <> bp ->
    b + 2 * DSIZE <= bp \/ bp + csize <= b
}.

(** The heap after placing [asize] bytes in the listed block [bp] of
    [csize] bytes.  When the remainder is at least a minimum block, [bp]
    is an allocated block of [asize] bytes, followed by a free block with
    the remainder, which heads the list of its class; otherwise [bp] is
    allocated whole.  In both cases [bp] is off its list. *)
Definition placed (s' : state) (L : Z -> list Z) (bp csize asize : Z) : Prop :=
  if 2 * DSIZE <=? csize - asize then
    holds s' (HDRP bp) (PACK asize 1) /\
    holds s' (bp + asize - DSIZE) (PACK asize 1) /\
    holds s' (HDRP (bp + asize)) (PACK (csize - asize) 0) /\
    holds s' (bp + csize - DSIZE) (PACK (csize - asize) 0) /\
    lists_ok s' (fl_cons (find_list (csize - asize)) (bp + asize)
                   (fl_remove (find_list csize) bp L))
  else
    holds s' (HDRP bp) (PACK csize 1) /\
    holds s' (bp + csize - DSIZE) (PACK csize 1) /\
    lists_ok s' (fl_remove (find_list csize) bp L).

(** What [mm_free bp] is entitled to: [bp] is an allocated block of [sz]
    bytes, in a heap with well formed lists; its two neighbours carry
    consistent boundary tags and are on their list when free; no other
    listed block lies inside the blocks to be merged. *)
Record freeable (s : state) (L : Z -> list Z) (bp sz sp pa sn na : Z) : Prop := {
  fr_arena : 0 <= mem_start_brk s /\ mem_max_addr s < modulus;
  fr_lists : lists_ok s L;
  fr_hdr : holds s (HDRP bp) (PACK sz 1);
  fr_ftr : valid_addr s (bp + sz - DSIZE) = true;
  fr_size : 2 * DSIZE <= sz /\ sz mod DSIZE = 0;
  fr_above : free_listp s + 8 * WSIZE <= HDRP bp;
  fr_bits : (pa = 0 \/ pa = 1) /\ (na = 0 \/ na = 1);
  fr_prev_ftr : holds s (bp - DSIZE) (PACK sp pa);
  fr_prev_hdr : holds s (HDRP (bp - sp)) (PACK sp pa);
  fr_prev_size : 0 < sp /\ sp mod DSIZE = 0;
  fr_prev_free : pa = 0 -> 2 * DSIZE <= sp /\ bp - sp ∈ L (find_list sp);
  fr_next_hdr : holds s (HDRP (bp + sz)) (PACK sn na);
  fr_next_size : 0 <= sn /\ sn mod DSIZE = 0;
  fr_next_free : na = 0 ->
    2 * DSIZE <= sn /\ holds s (bp + sz + sn - DSIZE) (PACK sn 0)
    /\ bp + sz ∈ L (find_list sn);
  fr_others : forall j b, 0 <= j < 8 -> b ∈ L j ->
    (pa = 0 -> b <> bp - sp) -> (na = 0 -> b <> bp + sz) ->
    b + 2 * DSIZE <= merged_start bp sp pa
    \/ merged_start bp sp pa + merged_size sz sp pa sn na <= b
}.

(** [chain s bp ws fin]: from [bp], blocks with the header words [ws]
    follow one another up to [fin]; each has a non-zero size, a footer
    that repeats its header and a word-aligned payload address. *)
Fixpoint chain (s : state) (bp : Z) (ws : list Z) (fin : Z) : Prop :=
  match ws with
  | [] => bp = fin
  | w :: ws' =>
    holds s (HDRP bp) w /\ 0 <= w < modulus /\ 0 < size_bits w /\
    holds s (bp + size_bits w - DSIZE) w /\ bp mod WSIZE = 0 /\
    chain s (bp + size_bits w) ws' fin
  end.

(** The boolean version of [chain]. *)
Fixpoint chainb (s : state) (bp : Z) (ws : list Z) (fin : Z) : bool :=
  match ws with
  | [] => bp =? fin
  | w :: ws' =>
    valid_addr s (HDRP bp) && bool_decide (cells s !! HDRP bp = Some w)
    && (0 <=? w) && (w <? modulus) && (0 <? size_bits w)
    && valid_addr s (bp + size_bits w - DSIZE)
    && bool_decide (cells s !! (bp + size_bits w - DSIZE) = Some w)
    && (bp mod WSIZE =? 0)
    && chainb s (bp + size_bits w) ws' fin
  end.

End MoreVocabulary.

(** * Vocabulary of the extension and relocation claims *)

Section InterfaceVocabulary.
Context {pw : ptr_width}.

(** The number of bytes [extend_heap] asks of the provider for [words]
    words: [(words % 2) ? (words + 1) * WSIZE : words * WSIZE], in [size_t]
    arithmetic. *)
Definition extend_bytes (words : Z) : Z :=
  if negb (words mod 2 =? 0)
  then wrap (wrap (words + 1) * WSIZE) else wrap (words * WSIZE).

(** The words [mm_free bp] depends on: the array of list heads (and what
    lies below it), the boundary tags of the block and of its two
    neighbours, and the header and the two link words of every listed
    block. *)
Definition tag_or_link (s : state) (L : Z -> list Z) (bp sz sp sn na : Z)
    (a : Z) : Prop :=
  a < free_listp s + 8 * WSIZE \/
  a = HDRP bp \/ a = bp - DSIZE \/ a = HDRP (bp - sp) \/ a = HDRP (bp + sz) \/
  (na = 0 /\ a = bp + sz + sn - DSIZE) \/
  exists j b, 0 <= j < 8 /\ b ∈ L j /\
    (a = HDRP b \/ a = prev_field b \/ a = next_field b).

End InterfaceVocabulary.

(** * Example heaps *)

(** The examples run the 64-bit build ([WSIZE = 8]) on an arena that starts
    at address 4096. *)
Definition w64 : ptr_width := W64.

(** An arena of 800 bytes after [mm_init]: the break is at 4208. *)
Definition heap_init : state :=
  exec (mm_init (pw := w64)) (fresh_arena 4096 4896).

(** [p = mm_malloc(1)] on the initialised heap: a block of 32 bytes at 4208,
    obtained by extension, which records 32 as [failedsize]. *)
Definition heap_p : state := exec (mm_malloc (pw := w64) 8 1) heap_init.

(** ... and [mm_free(p)]: the block is the only one on the list of class 0
    and ends at the break. *)
Definition heap_pf : state := exec (mm_free (pw := w64) 4208) heap_p.

Definition lists_pf : Z -> list Z := fun i => if i =? 0 then [4208] else [].

(** The same two steps, [mm_init] and [p = mm_malloc(1)], in an arena with
    [room] bytes. *)
Definition heap_p_in (room : Z) : state :=
  exec (mm_init (pw := w64) ;; mm_malloc (pw := w64) 8 1)
       (fresh_arena 4096 (4096 + room)).

(** Two blocks of 64 bytes, [p] at 4208 and [q] at 4272. *)
Definition heap_pq : state :=
  exec (mm_malloc (pw := w64) 8 40 ;; mm_malloc (pw := w64) 8 40) heap_init.

(** Four blocks of 64 bytes, at 4208, 4272, 4336 and 4400; the first and the
    third freed again. *)
Definition heap_acd : state :=
  exec (mm_init (pw := w64) ;;
        do a <- mm_malloc (pw := w64) 8 40 ;
        do b <- mm_malloc (pw := w64) 8 40 ;
        do c <- mm_malloc (pw := w64) 8 40 ;
        do d <- mm_malloc (pw := w64) 8 40 ;
        mm_free (pw := w64) a ;; mm_free (pw := w64) c) (fresh_arena 4096 4896).

Definition lists_acd : Z -> list Z :=
  fun i => if i =? 0 then [4336; 4208] else [].

(** The second block stamped free, as [mm_free] does before it calls
    [coalesce]: both neighbours are free. *)
Definition heap_acd_b : state :=
  exec (PUT (pw := w64) 4264 (PACK 64 0) ;;
        PUT (pw := w64) 4320 (PACK 64 0)) heap_acd.

(** [mm_init] and two blocks of 64 bytes, [p] at 4208 and [q] at 4272, in
    an arena with [room] bytes. *)
Definition heap_pq_in (room : Z) : state :=
  exec (mm_init (pw := w64) ;; mm_malloc (pw := w64) 8 40 ;; mm_malloc (pw := w64) 8 40)
       (fresh_arena 4096 (4096 + room)).



(** * Properties *)

Section Properties.
Context {pw : ptr_width}.

(** ** Word arithmetic *)

Lemma WSIZE_cases : WSIZE = 4 \/ WSIZE = 8.
Proof. unfold WSIZE; destruct pw; auto. Qed.

Lemma WSIZE_pos : 0 < WSIZE.
Proof. destruct WSIZE_cases; lia. Qed.

Lemma DSIZE_eq : DSIZE = 2 * WSIZE.
Proof. reflexivity. Qed.

Lemma modulus_cases :
  (WSIZE = 4 /\ modulus = 4294967296) \/
  (WSIZE = 8 /\ modulus = 18446744073709551616).
Proof. unfold modulus, WSIZE; destruct pw; [left | right]; split; reflexivity. Qed.

Lemma modulus_pos : 0 < modulus.
Proof. destruct modulus_cases as [[_ ->] | [_ ->]]; lia. Qed.

Lemma wrap_small x : 0 <= x < modulus -> wrap x = x.
Proof. intros; unfold wrap; apply Z.mod_small; assumption. Qed.

Lemma wrap_range x : 0 <= wrap x < modulus.
Proof. unfold wrap; apply Z.mod_pos_bound, modulus_pos. Qed.

(** The mask [~(DSIZE - 1)] clears the low bits: on a machine word,
    [size_bits] rounds down to a multiple of [DSIZE]. *)
Lemma size_bits_spec w :
  0 <= w < modulus -> size_bits w = DSIZE * (w / DSIZE).
Proof.
  intros Hw. unfold size_bits, wrap.
  assert (Hk : exists k, 0 <= k /\ k <= 8 * WSIZE /\ DSIZE = 2 ^ k).
  { unfold DSIZE, WSIZE; destruct pw; [exists 3 | exists 4]; repeat split; lia. }
  destruct Hk as (k & Hk0 & Hk1 & Hk).
  assert (Hb : 0 <= 8 * WSIZE) by (pose proof WSIZE_pos; lia).
  unfold modulus in *.
  rewrite <- Z.land_ones by assumption.
  rewrite Z.land_assoc, (Z.land_comm w), <- Z.land_assoc.
  rewrite (Z.land_ones w) by assumption.
  rewrite (Z.mod_small w) by assumption.
  rewrite Z.land_comm.
  replace (DSIZE - 1) with (Z.ones k) by (rewrite Z.ones_equiv, Hk; lia).
  rewrite <- Z.ldiff_land, Z.ldiff_ones_r by assumption.
  rewrite Z.shiftl_mul_pow2, Z.shiftr_div_pow2 by assumption.
  rewrite Hk; lia.
Qed.

Lemma size_bits_range w : 0 <= w < modulus -> 0 <= size_bits w <= w.
Proof.
  intros Hw. rewrite size_bits_spec by assumption.
  assert (HD : 0 < DSIZE) by (unfold DSIZE; pose proof WSIZE_pos; lia).
  pose proof (Z.mul_div_le w DSIZE HD).
  pose proof (Z.div_pos w DSIZE (proj1 Hw) HD). nia.
Qed.

Lemma size_bits_aligned w : 0 <= w < modulus -> size_bits w mod DSIZE = 0.
Proof.
  intros Hw. rewrite size_bits_spec by assumption.
  rewrite Z.mul_comm. apply Z.mod_mul.
  unfold DSIZE; pose proof WSIZE_pos; lia.
Qed.

Lemma PACK_0 s : PACK s 0 = s.
Proof. unfold PACK; apply Z.lor_0_r. Qed.

Lemma PACK_1 s : 0 <= s -> s mod DSIZE = 0 -> PACK s 1 = s + 1.
Proof.
  intros Hs Hm. unfold PACK.
  assert (He : s mod 2 = 0).
  { unfold DSIZE in Hm. pose proof WSIZE_pos.
    apply Z.mod_divide in Hm; [| lia]. destruct Hm as [q ->].
    replace (q * (2 * WSIZE)) with ((q * WSIZE) * 2) by lia.
    apply Z.mod_mul; lia. }
  rewrite <- Z.add_nocarry_lor; [reflexivity |].
  apply Z.bits_inj'; intros n Hn.
  rewrite Z.land_spec, Z.bits_0.
  destruct (Z.eq_dec n 0) as [-> | Hne].
  - rewrite Z.bit0_odd, <- Z.negb_even.
    rewrite Zeven_mod, He; reflexivity.
  - replace 1 with (Z.ones 1) by reflexivity.
    rewrite Z.ones_spec_high by lia. apply andb_false_r.
Qed.

Lemma size_bits_PACK s a :
  0 <= s -> s + 1 < modulus -> s mod DSIZE = 0 -> a = 0 \/ a = 1 ->
  size_bits (PACK s a) = s.
Proof.
  intros Hs Hlt Hm Ha.
  assert (HD : 2 < DSIZE) by (unfold DSIZE; destruct WSIZE_cases; lia).
  assert (Hp : PACK s a = s + a) by (destruct Ha as [-> | ->]; [rewrite PACK_0; lia | apply PACK_1; assumption]).
  rewrite Hp, size_bits_spec by lia.
  apply Z.mod_divide in Hm; [| lia]. destruct Hm as [q ->].
  rewrite (Z.add_comm _ a), Z.div_add by lia.
  rewrite (Z.div_small a) by lia. lia.
Qed.

Lemma alloc_bit_PACK s a :
  0 <= s -> s mod DSIZE = 0 -> a = 0 \/ a = 1 -> alloc_bit (PACK s a) = a.
Proof.
  intros Hs Hm Ha.
  assert (HD : 2 < DSIZE) by (unfold DSIZE; destruct WSIZE_cases; lia).
  assert (Hp : PACK s a = s + a) by (destruct Ha as [-> | ->]; [rewrite PACK_0; lia | apply PACK_1; assumption]).
  unfold alloc_bit. rewrite Hp.
  replace 1 with (Z.ones 1) by reflexivity.
  rewrite Z.land_ones by lia. change (2 ^ 1) with 2.
  apply Z.mod_divide in Hm; [| lia]. destruct Hm as [q ->].
  unfold DSIZE.
  replace (q * (2 * WSIZE) + a) with (a + (q * WSIZE) * 2) by lia.
  rewrite Z.mod_add by lia. destruct Ha as [-> | ->]; reflexivity.
Qed.

(** ** Running computations *)

Lemma wp_ret {A} (x : A) s Q : Q x s -> wp (ret x) s Q.
Proof. exact id. Qed.

Lemma wp_bind {A B} (m : M A) (k : A -> M B) s Q :
  wp m s (fun x s' => wp (k x) s' Q) -> wp (bind m k) s Q.
Proof. unfold wp, bind. destruct (m s); auto. Qed.

Lemma wp_mono {A} (m : M A) s (Q Q' : A -> state -> Prop) :
  wp m s Q -> (forall x s', Q x s' -> Q' x s') -> wp m s Q'.
Proof. unfold wp. destruct (m s); auto. Qed.

Lemma wp_gets {A} (f : state -> A) s Q : Q (f s) s -> wp (gets f) s Q.
Proof. exact id. Qed.

Lemma wp_modify f s Q : Q tt (f s) -> wp (modify f) s Q.
Proof. exact id. Qed.

Lemma wp_Ok {A} (m : M A) s Q :
  wp m s Q <-> exists x s', m s = Ok x s' /\ Q x s'.
Proof.
  unfold wp. destruct (m s) as [x s' | e]; split.
  - eauto.
  - intros (x' & s'' & [= -> ->] & HQ); exact HQ.
  - intros [].
  - intros (x' & s'' & [=] & _).
Qed.

Lemma wp_GET p v s Q : holds s p v -> Q v s -> wp (GET p) s Q.
Proof. intros [Hv Hc] HQ. unfold wp, GET. rewrite Hv, Hc. exact HQ. Qed.

Lemma wp_PUT p v s Q :
  valid_addr s p = true ->
  Q tt (set_cells (<[p := v]> (cells s)) s) -> wp (PUT p v) s Q.
Proof. intros Hv HQ. unfold wp, PUT. rewrite Hv. exact HQ. Qed.

Lemma wp_GET_SIZE p v s Q :
  holds s p v -> Q (size_bits v) s -> wp (GET_SIZE p) s Q.
Proof.
  intros H HQ. unfold GET_SIZE. apply wp_bind.
  apply (wp_GET p v); [exact H |]. apply wp_ret, HQ.
Qed.

Lemma wp_GET_ALLOC p v s Q :
  holds s p v -> Q (alloc_bit v) s -> wp (GET_ALLOC p) s Q.
Proof.
  intros H HQ. unfold GET_ALLOC. apply wp_bind.
  apply (wp_GET p v); [exact H |]. apply wp_ret, HQ.
Qed.

Lemma valid_addr_spec s a :
  valid_addr s a = true <->
  mem_start_brk s <= a /\ a + WSIZE <= mem_max_addr s
  /\ (a - mem_start_brk s) mod WSIZE = 0.
Proof.
  unfold valid_addr. rewrite !andb_true_iff, !Z.leb_le, Z.eqb_eq. tauto.
Qed.

(** ** Shape of the free lists *)

Lemma dseg_app m p c l1 l2 fin :
  dseg m p c (l1 ++ l2) fin <->
  exists mid, dseg m p c l1 mid /\ dseg m (default p (last l1)) mid l2 fin.
Proof.
  revert p c. induction l1 as [| b l1 IH]; intros p c; simpl.
  - split; [intros H; exists c; auto | intros (mid & -> & H); exact H].
  - rewrite last_cons. 
    assert (E : default p (match last l1 with Some y => Some y | None => Some b end)
                = default b (last l1)) by (destruct (last l1); reflexivity).
    rewrite E. split.
    + intros (-> & Hb & Hp & nx & Hn & Hr). apply IH in Hr as (mid & H1 & H2).
      exists mid. split; [| exact H2]. repeat split; auto. exists nx; auto.
    + intros (mid & (-> & Hb & Hp & nx & Hn & Hr) & H2).
      repeat split; auto. exists nx; split; auto. apply IH. exists mid; auto.
Qed.

Lemma dseg_frame m m' p c l fin :
  (forall b, b ∈ l -> m' !! prev_field b = m !! prev_field b
                   /\ m' !! next_field b = m !! next_field b) ->
  dseg m p c l fin -> dseg m' p c l fin.
Proof.
  revert p c. induction l as [| b l IH]; intros p c Hfr; simpl; [auto |].
  intros (-> & Hb & Hp & nx & Hn & Hr).
  destruct (Hfr b) as [E1 E2]; [left |].
  repeat split; auto; [congruence |].
  exists nx; split; [congruence |]. apply IH; [| exact Hr].
  intros b' Hb'. apply Hfr. right; exact Hb'.
Qed.

Lemma dseg_nonnull m p c l fin b : dseg m p c l fin -> b ∈ l -> b <> NULL.
Proof.
  revert p c. induction l as [| x l IH]; intros p c H Hin.
  - inversion Hin.
  - simpl in H. destruct H as (-> & Hx & _ & nx & _ & Hr).
    apply elem_of_cons in Hin as [-> | Hin]; [exact Hx | eauto].
Qed.

Lemma same_arena_set_cells c s : same_arena s (set_cells c s).
Proof. repeat split. Qed.

Lemma valid_set_cells c s a : valid_addr (set_cells c s) a = valid_addr s a.
Proof. reflexivity. Qed.

Lemma cells_set_cells c s : cells (set_cells c s) = c.
Proof. reflexivity. Qed.

Lemma set_cells_twice c c' s : set_cells c (set_cells c' s) = set_cells c s.
Proof. reflexivity. Qed.

Lemma find_list_range x : 0 <= find_list x < 8.
Proof. unfold find_list. repeat case_match; lia. Qed.

Lemma holds_set c s a w :
  holds (set_cells c s) a w <-> valid_addr s a = true /\ c !! a = Some w.
Proof. reflexivity. Qed.

Ltac wp_pure :=
  repeat (cbv beta;
          lazymatch goal with
          | |- wp (let _ := _ in _) _ _ => cbv zeta
          | |- wp (if ?c then _ else _) _ _ =>
            first [change c with true | change c with false]; cbv iota
          | |- wp (bind _ _) _ _ => apply wp_bind
          | |- wp (ret _) _ _ => apply wp_ret
          | |- wp (gets _) _ _ => apply wp_gets
          | |- wp (modify _) _ _ => apply wp_modify
          end).

Ltac unf := unfold far, HDRP, prev_field, next_field, NULL, DSIZE in *.

Ltac msimpl :=
  repeat first [ rewrite lookup_insert_eq | rewrite lookup_insert_ne by lia ].

Lemma valid_same s s' a : same_arena s s' -> valid_addr s' a = valid_addr s a.
Proof. intros (E1 & _ & E3 & _). unfold valid_addr. rewrite E1, E3. reflexivity. Qed.

Lemma node_ok_frame s s' i b :
  same_arena s s' -> cells s' !! HDRP b = cells s !! HDRP b ->
  node_ok s i b -> node_ok s' i b.
Proof.
  intros Ha Hc [H1 H2 H3 H4 H5].
  split; rewrite ?(valid_same s s') by assumption; auto.
  - destruct Ha as (_ & _ & _ & -> & _). assumption.
  - rewrite Hc. assumption.
Qed.

Lemma lists_ok_class s L i j b :
  lists_ok s L -> 0 <= i < 8 -> 0 <= j < 8 -> b ∈ L i -> b ∈ L j -> i = j.
Proof.
  intros [_ Hn _ _] Hi Hj Hbi Hbj.
  destruct (Hn i b Hi Hbi) as [_ _ _ _ (w & Hw & <-)].
  destruct (Hn j b Hj Hbj) as [_ _ _ _ (w' & Hw' & <-)].
  congruence.
Qed.

Lemma lists_ok_frame s s' L :
  lists_ok s L -> same_arena s s' ->
  (forall i, 0 <= i < 8 ->
     cells s' !! (free_listp s + i * WSIZE) = cells s !! (free_listp s + i * WSIZE)) ->
  (forall i b, 0 <= i < 8 -> b ∈ L i ->
     cells s' !! HDRP b = cells s !! HDRP b /\
     cells s' !! prev_field b = cells s !! prev_field b /\
     cells s' !! next_field b = cells s !! next_field b) ->
  lists_ok s' L.
Proof.
  intros [Hh Hn Hd Hf] Ha Hs Hc. split; auto.
  - intros i Hi. destruct (Hh i Hi) as (h & [Hv Hl] & Hseg).
    exists h. destruct Ha as (E1 & E2 & E3 & E4 & E5) eqn:EA. rewrite E4. split.
    + split; [rewrite (valid_same s s') by assumption; assumption |].
      rewrite Hs by assumption. assumption.
    + eapply dseg_frame; [| exact Hseg].
      intros b Hb. destruct (Hc i b Hi Hb) as (_ & ? & ?). auto.
  - intros i b Hi Hb. apply (node_ok_frame s); auto. apply (Hc i b Hi Hb).
Qed.

Lemma far_ne b b' : far b b' -> b <> b'.
Proof. pose proof WSIZE_pos. unf. lia. Qed.

Lemma dseg_head m p c l fin : dseg m p c l fin -> c = default fin (head l).
Proof. destruct l; simpl; [auto | intros (-> & _); reflexivity]. Qed.

Lemma lists_ok_cons s m' L c b :
  lists_ok s L -> 0 <= c < 8 -> node_ok s c b -> b <> NULL ->
  (forall j b', 0 <= j < 8 -> b' ∈ L j -> far b b') ->
  m' !! (free_listp s + c * WSIZE) = Some b ->
  m' !! prev_field b = Some NULL ->
  m' !! next_field b = Some (default NULL (head (L c))) ->
  (forall h, head (L c) = Some h -> m' !! prev_field h = Some b) ->
  (forall a, a <> free_listp s + c * WSIZE -> a <> prev_field b -> a <> next_field b ->
     (forall h, head (L c) = Some h -> a <> prev_field h) -> m' !! a = cells s !! a) ->
  lists_ok (set_cells m' s) (fl_cons c b L).
Proof.
  intros HL Hc Hb Hnz Hfar F1 F2 F3 F4 F5.
  pose proof HL as [Hh Hn Hd Hf].
  pose proof WSIZE_pos as HW.
  destruct Hb as [Hb1 Hb2 Hb3 Hb4 Hb5].
  assert (Hhead : forall h, head (L c) = Some h -> h ∈ L c).
  { intros h Hhd. destruct (L c); simplify_eq/=. left. }
  assert (Hnh : forall i b', 0 <= i < 8 -> b' ∈ L i ->
            forall h, head (L c) = Some h -> b' <> h -> far b' h).
  { intros i b' Hi Hb' h Hhd Hne. apply (Hf i c); auto. }
  assert (Hunch : forall i b', 0 <= i < 8 -> b' ∈ L i ->
            m' !! HDRP b' = cells s !! HDRP b' /\
            m' !! next_field b' = cells s !! next_field b' /\
            (head (L c) <> Some b' -> m' !! prev_field b' = cells s !! prev_field b')).
  { intros i b' Hi Hb'.
    destruct (Hn i b' Hi Hb') as [_ _ _ Hab _].
    pose proof (Hfar i b' Hi Hb') as Hfb.
    assert (c * WSIZE <= 7 * WSIZE) by nia.
    repeat split; [| | intros Hnhd]; apply F5; unf; try lia;
      intros h Hhd; (destruct (decide (b' = h)) as [-> | Hne];
        [try lia; congruence | specialize (Hnh i b' Hi Hb' h Hhd Hne); unf; lia]). }
  split.
  - intros i Hi. unfold fl_cons. destruct (decide (i = c)) as [-> | Hne].
    + exists b. destruct (Hh c Hc) as (h & [Hv Hsl] & Hseg). split; [split; assumption |].
      simpl. repeat split; auto. eexists; split; [exact F3 |].
      rewrite ?cells_set_cells.
      destruct (L c) as [| x l] eqn:EL; simpl in *; [reflexivity |].
      destruct Hseg as (-> & Hx & Hxp & nx & Hxn & Hseg).
      destruct (Hunch c x Hc ltac:(rewrite EL; left)) as (_ & E2 & _).
      repeat split; auto. exists nx; split; [congruence |].
      eapply dseg_frame; [| exact Hseg]. intros b' Hb'.
      assert (Hin : b' ∈ L c) by (rewrite EL; right; exact Hb').
      destruct (Hunch c b' Hc Hin) as (_ & E2' & E1'). split; [| exact E2'].
      apply E1'. intros [= ->].
      specialize (Hd c Hc). rewrite EL in Hd. apply NoDup_cons in Hd as [Hd _]. auto.
    + destruct (Hh i Hi) as (h & [Hv Hsl] & Hseg). exists h. split.
      * split; [assumption |]. rewrite ?cells_set_cells, <- Hsl.
        assert (i * WSIZE <> c * WSIZE) by nia.
        assert (0 <= i * WSIZE <= 7 * WSIZE) by nia.
        apply F5; unf; try lia.
        intros h' Hh'. destruct (Hn c h' Hc (Hhead _ Hh')) as [_ _ _ Hab _]. unf. lia.
      * eapply dseg_frame; [| exact Hseg]. intros b' Hb'. rewrite ?cells_set_cells.
        destruct (Hunch i b' Hi Hb') as (_ & E2' & E1'). split; [| exact E2'].
        apply E1'. intros Hhd. apply Hne. apply (lists_ok_class s L i c b'); auto.
  - intros i b' Hi. unfold fl_cons.
    assert (Hbok : node_ok (set_cells m' s) c b).
    { split; auto. rewrite ?cells_set_cells.
      destruct Hb5 as (w & Hw & Hcl). exists w; split; [| exact Hcl]. rewrite <- Hw.
      assert (c * WSIZE <= 7 * WSIZE) by nia.
      apply F5; unf; try lia. intros h Hhd.
      specialize (Hfar c h Hc (Hhead _ Hhd)). unf. lia. }
    assert (Hold : b' ∈ L i -> node_ok (set_cells m' s) i b').
    { intros Hb'. apply (node_ok_frame s); [apply same_arena_set_cells | | auto].
      rewrite ?cells_set_cells. apply (Hunch i b' Hi Hb'). }
    destruct (decide (i = c)) as [-> | Hne]; [| exact Hold].
    intros [-> | Hb']%elem_of_cons; auto.
  - intros i Hi. unfold fl_cons. destruct (decide (i = c)) as [-> | Hne]; auto.
    apply NoDup_cons. split; auto. intros Hin. apply (far_ne b b); eauto.
  - intros i j x y Hi Hj. unfold fl_cons.
    assert (Hsym : forall u v, far u v -> far v u) by (unfold far; tauto).
    destruct (decide (i = c)) as [-> | Hni]; destruct (decide (j = c)) as [-> | Hnj];
      rewrite ?elem_of_cons; intros Hx Hy Hxy.
    + destruct Hx as [-> | Hx], Hy as [-> | Hy]; eauto. congruence.
    + destruct Hx as [-> | Hx]; eauto.
    + destruct Hy as [-> | Hy]; eauto.
    + eauto.
Qed.

Lemma holds_set_eq s c p v :
  valid_addr s p = true -> holds (set_cells (<[p := v]> c) s) p v.
Proof. intros Hv. split; [exact Hv | apply lookup_insert_eq]. Qed.

Lemma holds_set_ne s c a v p w :
  a <> p -> holds (set_cells c s) p w -> holds (set_cells (<[a := v]> c) s) p w.
Proof.
  intros Hne [Hv Hl]. split; [exact Hv |].
  rewrite cells_set_cells in *. rewrite lookup_insert_ne by exact Hne. exact Hl.
Qed.

Ltac solve_holds :=
  first [ assumption
        | split; assumption
        | apply holds_set_eq; assumption
        | apply holds_set_ne; [lia | solve_holds] ].

Ltac wp_get v :=
  wp_pure; apply (wp_GET _ v); [solve_holds |].

Ltac wp_put :=
  wp_pure; apply wp_PUT; [ rewrite ?valid_set_cells; assumption
                | rewrite ?set_cells_twice, ?cells_set_cells ].

Lemma insert_free_spec s L asize b :
  lists_ok s L ->
  node_ok s (find_list asize) b ->
  b <> NULL ->
  (forall j b', 0 <= j < 8 -> b' ∈ L j -> far b b') ->
  wp (insert_free asize b) s (fun _ s' =>
    same_arena s s' /\ lists_ok s' (fl_cons (find_list asize) b L) /\
    (forall a, a <> free_listp s + find_list asize * WSIZE ->
       a <> prev_field b -> a <> next_field b ->
       (forall h, head (L (find_list asize)) = Some h -> a <> prev_field h) ->
       cells s' !! a = cells s !! a)).
Proof.
  intros HL Hb Hnz Hfar. pose proof HL as [Hh Hn Hd Hf].
  pose proof (find_list_range asize) as Hc.
  set (c := find_list asize) in *.
  destruct (Hh c Hc) as (h & [Hsv Hsc] & Hl).
  pose proof Hb as [Hb1 Hb2 Hb3 Hb4 _].
  pose proof WSIZE_pos as HW.
  assert (Hsb : c * WSIZE <= 7 * WSIZE) by nia.
  unfold insert_free. fold c. unfold slot.
  wp_pure. wp_get h.
  destruct (L c) as [| x l] eqn:EL; simpl in Hl.
  - subst h. change (0 =? NULL) with true. cbv iota.
    wp_pure. wp_put.
    wp_pure. unf. wp_get b.
    wp_pure. wp_put.
    wp_pure. wp_get b.
    wp_put.
    split; [apply same_arena_set_cells |].
    assert (Hfr : forall a, a <> free_listp s + c * WSIZE -> a <> b -> a <> b + WSIZE ->
              <[b:=0]> (<[b + WSIZE:=0]> (<[free_listp s + c * WSIZE:=b]> (cells s))) !! a
              = cells s !! a).
    { intros a H1 H2 H3. msimpl. reflexivity. }
    split.
    + apply lists_ok_cons; auto; unf; rewrite ?EL; simpl; msimpl; auto.
      discriminate.
    + intros a H1 H2 H3 _. rewrite ?cells_set_cells. auto.
  - destruct Hl as (-> & Hx & Hxp & nx & Hxn & Hl).
    assert (Hxin : x ∈ L c) by (rewrite EL; left).
    pose proof (Hfar c x Hc Hxin) as Hfx.
    destruct (Hn c x Hc Hxin) as [Hx1 Hx2 Hx3 Hx4 _].
    replace (x =? NULL) with false by (symmetry; apply Z.eqb_neq; exact Hx).
    unf. wp_pure. wp_get x.
    wp_pure. wp_put.
    wp_pure. wp_put.
    wp_pure. wp_get x.
    wp_pure. wp_put.
    wp_put.
    split; [apply same_arena_set_cells |].
    split.
    + apply lists_ok_cons; auto; unf; rewrite ?EL; simpl; msimpl; auto.
      * intros h [= <-]. msimpl. reflexivity.
      * intros a H1 H2 H3 H4. specialize (H4 x eq_refl). msimpl. reflexivity.
    + intros a H1 H2 H3 H4. specialize (H4 x eq_refl). rewrite ?cells_set_cells.
      msimpl. reflexivity.
Qed.

Lemma filter_all {A} (P : A -> Prop) `{forall x, Decision (P x)} (l : list A) :
  (forall x, x ∈ l -> P x) -> filter P l = l.
Proof.
  induction l as [| a l IH]; intros Hall; [reflexivity |].
  rewrite filter_cons_True by (apply Hall; left).
  f_equal. apply IH. intros x Hx. apply Hall. right; exact Hx.
Qed.

Lemma filter_ne_split (l1 l2 : list Z) b :
  NoDup (l1 ++ b :: l2) -> filter (fun x => x <> b) (l1 ++ b :: l2) = l1 ++ l2.
Proof.
  intros Hnd. apply NoDup_app in Hnd as (_ & H1 & H2).
  apply NoDup_cons in H2 as [H2 _].
  rewrite filter_app, filter_cons_False by (intros Hne; apply Hne; reflexivity).
  rewrite !filter_all; [reflexivity | |].
  - intros x Hx ->. contradiction.
  - intros x Hx ->. apply (H1 b Hx). left.
Qed.

Lemma dseg_retarget m m' p c l fin fin' :
  dseg m p c l fin -> NoDup l ->
  (forall x, x ∈ l -> m' !! prev_field x = m !! prev_field x) ->
  (forall x, x ∈ l -> last l <> Some x -> m' !! next_field x = m !! next_field x) ->
  (forall q, last l = Some q -> m' !! next_field q = Some fin') ->
  dseg m' p (match l with [] => fin' | _ => c end) l fin'.
Proof.
  revert p c. induction l as [| b l IH]; intros p c Hseg Hnd Hp Hn Hq; [reflexivity |].
  simpl in Hseg. destruct Hseg as (-> & Hb & Hbp & nx & Hbn & Hseg).
  apply NoDup_cons in Hnd as [Hbl Hnd].
  simpl. repeat split; auto.
  - rewrite Hp by left. exact Hbp.
  - destruct l as [| y l'].
    + exists fin'. split; [apply Hq; reflexivity | reflexivity].
    + exists nx. split.
      * rewrite Hn; [exact Hbn | left |].
        rewrite last_cons_cons. intros Hl. apply Hbl.
        apply last_Some_elem_of. exact Hl.
      * specialize (IH b nx Hseg Hnd). simpl in IH. apply IH.
        -- intros x Hx. apply Hp. right; exact Hx.
        -- intros x Hx Hl. apply Hn; [right; exact Hx |].
           rewrite last_cons_cons. exact Hl.
        -- intros q Hl. apply Hq. rewrite last_cons_cons. exact Hl.
Qed.

Lemma dseg_reprev m m' p p' c l fin :
  dseg m p c l fin -> NoDup l ->
  (forall x, x ∈ l -> m' !! next_field x = m !! next_field x) ->
  (forall x, x ∈ l -> head l <> Some x -> m' !! prev_field x = m !! prev_field x) ->
  (forall n, head l = Some n -> m' !! prev_field n = Some p') ->
  dseg m' p' c l fin.
Proof.
  destruct l as [| b l]; intros Hseg Hnd Hn Hp Hh; [exact Hseg |].
  simpl in Hseg. destruct Hseg as (-> & Hb & Hbp & nx & Hbn & Hseg).
  apply NoDup_cons in Hnd as [Hbl Hnd].
  simpl. repeat split; auto. exists nx. split.
  - rewrite Hn by left. exact Hbn.
  - eapply dseg_frame; [| exact Hseg]. intros x Hx. split.
    + apply Hp; [right; exact Hx |]. simpl. intros [= ->]. contradiction.
    + apply Hn. right; exact Hx.
Qed.

Lemma lists_ok_remove s m' L c b l1 l2 :
  lists_ok s L -> 0 <= c < 8 -> L c = l1 ++ b :: l2 ->
  (l1 = [] -> m' !! (free_listp s + c * WSIZE) = Some (default NULL (head l2))) ->
  (l1 <> [] -> m' !! (free_listp s + c * WSIZE) = cells s !! (free_listp s + c * WSIZE)) ->
  (forall p, last l1 = Some p -> m' !! next_field p = Some (default NULL (head l2))) ->
  (forall n, head l2 = Some n -> m' !! prev_field n = Some (default NULL (last l1))) ->
  (forall a, a <> free_listp s + c * WSIZE ->
     (forall p, last l1 = Some p -> a <> next_field p) ->
     (forall n, head l2 = Some n -> a <> prev_field n) -> m' !! a = cells s !! a) ->
  lists_ok (set_cells m' s) (fl_remove c b L).
Proof.
  intros HL Hc EL G1 G1' G2 G3 G4.
  pose proof HL as [Hh Hn Hd Hf].
  pose proof WSIZE_pos as HW.
  pose proof (Hd c Hc) as Hnd. rewrite EL in Hnd.
  assert (Hbin : b ∈ L c) by (rewrite EL; apply elem_of_app; right; left).
  assert (Hl1 : forall x, x ∈ l1 -> x ∈ L c /\ x <> b).
  { intros x Hx. split; [rewrite EL; apply elem_of_app; left; exact Hx |].
    intros ->. apply NoDup_app in Hnd as (_ & Hnd & _). apply (Hnd b Hx). left. }
  assert (Hl2 : forall x, x ∈ l2 -> x ∈ L c /\ x <> b).
  { intros x Hx. split; [rewrite EL; apply elem_of_app; right; right; exact Hx |].
    intros ->. apply NoDup_app in Hnd as (_ & _ & Hnd).
    apply NoDup_cons in Hnd as [Hnd _]. contradiction. }
  assert (Hl12 : forall x, x ∈ l1 -> x ∈ l2 -> False).
  { intros x Hx1 Hx2. apply NoDup_app in Hnd as (_ & Hnd & _).
    apply (Hnd x Hx1). right; exact Hx2. }
  assert (Hlast : forall p, last l1 = Some p -> p ∈ l1)
    by (intros p; apply last_Some_elem_of).
  assert (Hhead : forall n, head l2 = Some n -> n ∈ l2)
    by (intros n Hn'; destruct l2; simplify_eq/=; left).
  assert (Hunch : forall i x, 0 <= i < 8 -> x ∈ L i ->
            m' !! HDRP x = cells s !! HDRP x /\
            (last l1 <> Some x -> m' !! next_field x = cells s !! next_field x) /\
            (head l2 <> Some x -> m' !! prev_field x = cells s !! prev_field x)).
  { intros i x Hi Hx.
    destruct (Hn i x Hi Hx) as [_ _ _ Hab _].
    assert (c * WSIZE <= 7 * WSIZE) by nia.
    assert (Hfx : forall y, y ∈ L c -> x <> y -> far x y) by (intros y Hy; apply (Hf i c); auto).
    repeat split; [| intros Hnl | intros Hnh]; apply G4; unf; try lia;
      intros y Hy;
      (destruct (decide (x = y)) as [-> | Hne];
       [try lia; congruence
       | first [ specialize (Hfx y (proj1 (Hl1 _ (Hlast _ Hy))) Hne)
               | specialize (Hfx y (proj1 (Hl2 _ (Hhead _ Hy))) Hne) ]; unf; lia]). }
  destruct (Hh c Hc) as (h & [Hv Hsl] & Hseg). rewrite EL in Hseg.
  apply dseg_app in Hseg as (mid & S1 & S2). simpl in S2.
  destruct S2 as (-> & Hb & Hbp & nx & Hbn & S3).
  pose proof (dseg_head _ _ _ _ _ S3) as Hnx.
  assert (Hnd1 : NoDup l1) by (apply NoDup_app in Hnd; tauto).
  assert (Hnd2 : NoDup l2).
  { apply NoDup_app in Hnd as (_ & _ & Hnd). apply NoDup_cons in Hnd; tauto. }
  split.
  - intros i Hi. unfold fl_remove. destruct (decide (i = c)) as [-> | Hne].
    + rewrite EL, filter_ne_split by assumption.
      exists (match l1 with [] => nx | _ => h end). split.
      * split; [assumption |]. rewrite ?cells_set_cells.
        change (free_listp (set_cells m' s)) with (free_listp s).
        destruct l1; [rewrite G1, Hnx; reflexivity | rewrite G1', Hsl; [reflexivity | discriminate]].
      * rewrite ?cells_set_cells. apply dseg_app. exists nx. split.
        -- apply (dseg_retarget (cells s) m' NULL h l1 b nx); auto.
           ++ intros x Hx. destruct (Hl1 x Hx) as [Hx1 Hx2].
              apply (Hunch c x Hc Hx1). intros Hhd. apply (Hl12 x Hx). apply Hhead. exact Hhd.
           ++ intros x Hx Hnl. destruct (Hl1 x Hx) as [Hx1 Hx2].
              apply (Hunch c x Hc Hx1). exact Hnl.
           ++ intros q Hq. rewrite Hnx. apply G2. exact Hq.
        -- apply (dseg_reprev (cells s) m' b); auto.
           ++ intros x Hx. destruct (Hl2 x Hx) as [Hx1 Hx2].
              apply (Hunch c x Hc Hx1). intros Hla. apply (Hl12 x); auto.
           ++ intros x Hx Hnh. destruct (Hl2 x Hx) as [Hx1 Hx2].
              apply (Hunch c x Hc Hx1). exact Hnh.
    + destruct (Hh i Hi) as (hi & [Hvi Hsli] & Hsegi). exists hi.
      assert (Hcls : forall x, x ∈ L i -> x ∈ L c -> False).
      { intros x Hx Hx'. apply Hne. apply (lists_ok_class s L i c x); auto. }
      split.
      * split; [assumption |]. rewrite ?cells_set_cells, <- Hsli.
        change (free_listp (set_cells m' s)) with (free_listp s).
        assert (i * WSIZE <> c * WSIZE) by nia.
        assert (0 <= i * WSIZE <= 7 * WSIZE) by nia.
        apply G4; unf; try lia; intros y Hy.
        -- destruct (Hn c y Hc (proj1 (Hl1 _ (Hlast _ Hy)))) as [_ _ _ Hab _]. unf. lia.
        -- destruct (Hn c y Hc (proj1 (Hl2 _ (Hhead _ Hy)))) as [_ _ _ Hab _]. unf. lia.
      * eapply dseg_frame; [| exact Hsegi]. intros x Hx. rewrite ?cells_set_cells.
        destruct (Hunch i x Hi Hx) as (_ & E2 & E1). split.
        -- apply E1. intros Hhd. apply (Hcls x Hx). apply Hl2, Hhead, Hhd.
        -- apply E2. intros Hla. apply (Hcls x Hx). apply Hl1, Hlast, Hla.
  - intros i x Hi. unfold fl_remove.
    assert (Hold : x ∈ L i -> node_ok (set_cells m' s) i x).
    { intros Hx. apply (node_ok_frame s); [apply same_arena_set_cells | | auto].
      rewrite ?cells_set_cells. apply (Hunch i x Hi Hx). }
    destruct (decide (i = c)) as [-> | Hne]; [| exact Hold].
    intros [_ Hx]%list_elem_of_filter. auto.
  - intros i Hi. unfold fl_remove. destruct (decide (i = c)) as [-> | Hne]; auto.
    apply NoDup_filter. auto.
  - intros i j x y Hi Hj. unfold fl_remove.
    destruct (decide (i = c)) as [-> | Hni]; destruct (decide (j = c)) as [-> | Hnj];
      rewrite ?list_elem_of_filter; intros Hx Hy Hxy;
      try destruct Hx as [_ Hx]; try destruct Hy as [_ Hy]; eauto.
Qed.

Lemma remove_free_spec s L b c :
  lists_ok s L -> 0 <= c < 8 -> b ∈ L c ->
  wp (remove_free b) s (fun _ s' =>
    same_arena s s' /\ lists_ok s' (fl_remove c b L) /\
    (forall a, a <> free_listp s + c * WSIZE ->
       (forall x, x ∈ L c -> x <> b -> a <> prev_field x /\ a <> next_field x) ->
       cells s' !! a = cells s !! a)).
Proof.
  intros HL Hc Hbin. pose proof HL as [Hh Hn Hd Hf].
  pose proof WSIZE_pos as HW.
  destruct (Hn c b Hc Hbin) as [Hb1 Hb2 Hb3 Hb4 (w & Hw & Hcl)].
  destruct (Hh c Hc) as (h & [Hsv Hsc] & Hseg).
  destruct (list_elem_of_split _ _ Hbin) as (l1 & l2 & EL).
  pose proof (Hd c Hc) as Hnd. rewrite EL in Hnd, Hseg.
  apply dseg_app in Hseg as (mid & S1 & S2). simpl in S2.
  destruct S2 as (-> & Hb & Hbp & nx & Hbn & S3).
  pose proof (dseg_head _ _ _ _ _ S3) as Hnx.
  assert (Hin1 : forall x, x ∈ l1 -> x ∈ L c /\ x <> b).
  { intros x Hx. split; [rewrite EL; apply elem_of_app; left; exact Hx |].
    intros ->. apply NoDup_app in Hnd as (_ & Hnd & _). apply (Hnd b Hx). left. }
  assert (Hin2 : forall x, x ∈ l2 -> x ∈ L c /\ x <> b).
  { intros x Hx. split; [rewrite EL; apply elem_of_app; right; right; exact Hx |].
    intros ->. apply NoDup_app in Hnd as (_ & _ & Hnd).
    apply NoDup_cons in Hnd as [Hnd _]. contradiction. }
  assert (Hsb : c * WSIZE <= 7 * WSIZE) by nia.
  unfold remove_free, GET_SIZE, slot.
  wp_pure. wp_get w. wp_pure. rewrite Hcl.
  wp_get (default NULL (last l1)).
  destruct l1 as [| p l1' _] using rev_ind.
  - (* the block is the head of its list *)
    simpl. change (0 =? NULL) with true. cbv iota.
    wp_pure. wp_get nx.
    destruct l2 as [| n l2']; simpl in Hnx; subst nx.
    + change (negb (NULL =? NULL)) with false. cbv iota.
      wp_put. split; [apply same_arena_set_cells |]. split.
      * apply (lists_ok_remove s _ L c b [] []); auto; simpl; try discriminate;
          try congruence; msimpl; auto.
        intros a Ha _ _. msimpl. reflexivity.
      * intros a Ha _. rewrite ?cells_set_cells. msimpl. reflexivity.
    + destruct (Hin2 n ltac:(left)) as [Hnin Hnb].
      destruct (Hn c n Hc Hnin) as [Hn1 Hn2 Hn3 Hn4 _].
      pose proof (Hf c c n b Hc Hc Hnin Hbin Hnb) as Hfar.
      simpl in S3. destruct S3 as (_ & Hnz & _).
      replace (negb (n =? NULL)) with true
        by (symmetry; apply negb_true_iff, Z.eqb_neq; exact Hnz).
      unf. wp_pure. wp_get n. wp_pure. wp_put.
      wp_pure. wp_get n. wp_put.
      split; [apply same_arena_set_cells |]. split.
      * apply (lists_ok_remove s _ L c b [] (n :: l2')); auto; unf; simpl;
          try discriminate; try congruence; msimpl; auto.
        -- intros n' [= <-]. msimpl. reflexivity.
        -- intros a Ha _ Hn'. specialize (Hn' n eq_refl). msimpl. reflexivity.
      * intros a Ha Hx. rewrite ?cells_set_cells.
        destruct (Hx n Hnin Hnb). msimpl. reflexivity.
  - (* the block has a predecessor *)
    rewrite last_snoc in *. simpl.
    destruct (Hin1 p ltac:(apply elem_of_app; right; left)) as [Hpin Hpb].
    destruct (Hn c p Hc Hpin) as [Hp1 Hp2 Hp3 Hp4 _].
    pose proof (Hf c c p b Hc Hc Hpin Hbin Hpb) as Hfarp.
    assert (Hpz : p <> NULL) by (eapply dseg_nonnull; [exact S1 | apply elem_of_app; right; left]).
    replace (p =? NULL) with false by (symmetry; apply Z.eqb_neq; exact Hpz).
    wp_pure. wp_get nx.
    assert (Hne : l1' ++ [p] <> []) by (intros E; apply app_eq_nil in E as [_ [=]]).
    destruct l2 as [| n l2']; simpl in Hnx; subst nx.
    + change (NULL =? NULL) with true. cbv iota.
      unf. wp_pure. wp_get p. wp_put.
      split; [apply same_arena_set_cells |]. split.
      * apply (lists_ok_remove s _ L c b (l1' ++ [p]) []); auto; unf; simpl;
          rewrite ?last_snoc; try discriminate; try congruence; msimpl; auto.
        -- intros p' [= <-]. msimpl. reflexivity.
        -- intros a Ha Hp' _. specialize (Hp' p eq_refl). msimpl. reflexivity.
      * intros a Ha Hx. rewrite ?cells_set_cells.
        destruct (Hx p Hpin Hpb). msimpl. reflexivity.
    + destruct (Hin2 n ltac:(left)) as [Hnin Hnb].
      destruct (Hn c n Hc Hnin) as [Hn1 Hn2 Hn3 Hn4 _].
      pose proof (Hf c c n b Hc Hc Hnin Hbin Hnb) as Hfarn.
      assert (Hpn : p <> n).
      { intros ->. apply NoDup_app in Hnd as (_ & Hnd & _).
        apply (Hnd n); [apply elem_of_app; right; left | right; left]. }
      pose proof (Hf c c p n Hc Hc Hpin Hnin Hpn) as Hfarpn.
      simpl in S3. destruct S3 as (_ & Hnz & _).
      replace (n =? NULL) with false by (symmetry; apply Z.eqb_neq; exact Hnz).
      unf. wp_pure. wp_get p. wp_pure. wp_get n. wp_pure. wp_put.
      wp_pure. wp_get n. wp_pure. wp_get p. wp_put.
      split; [apply same_arena_set_cells |]. split.
      * apply (lists_ok_remove s _ L c b (l1' ++ [p]) (n :: l2')); auto; unf; simpl;
          rewrite ?last_snoc; try discriminate; try congruence; msimpl; auto.
        -- intros p' [= <-]. msimpl. reflexivity.
        -- intros n' [= <-]. msimpl. reflexivity.
        -- intros a Ha Hp' Hn'. specialize (Hp' p eq_refl). specialize (Hn' n eq_refl).
           msimpl. reflexivity.
      * intros a Ha Hx. rewrite ?cells_set_cells.
        destruct (Hx p Hpin Hpb). destruct (Hx n Hnin Hnb). msimpl. reflexivity.
Qed.

(** ** Boundary-tag coalescing *)

Lemma holds_frame s s' a w :
  same_arena s s' -> cells s' !! a = cells s !! a -> holds s a w -> holds s' a w.
Proof.
  intros Ha Hc [Hv Hl]. split; [rewrite (valid_same s s') by assumption; exact Hv |].
  rewrite Hc. exact Hl.
Qed.

Lemma fl_remove_elem s L c x j b :
  lists_ok s L -> 0 <= c < 8 -> 0 <= j < 8 -> x ∈ L c ->
  b ∈ fl_remove c x L j -> b ∈ L j /\ b <> x.
Proof.
  intros HL Hc Hj Hx. unfold fl_remove.
  destruct (decide (j = c)) as [-> | Hne].
  - intros [? ?]%list_elem_of_filter. auto.
  - intros Hb. split; [exact Hb |]. intros ->. apply Hne.
    apply (lists_ok_class s L j c x); auto.
Qed.

Lemma fl_remove_keep L c x j y :
  y ∈ L j -> y <> x -> y ∈ fl_remove c x L j.
Proof.
  intros Hy Hne. unfold fl_remove. destruct (decide (j = c)); [| exact Hy].
  apply list_elem_of_filter. auto.
Qed.

Lemma set_cells_same s : set_cells (cells s) s = s.
Proof. destruct s; reflexivity. Qed.

Lemma lists_ok_put s c L a v :
  lists_ok (set_cells c s) L -> free_listp s + 8 * WSIZE <= a ->
  (forall j b, 0 <= j < 8 -> b ∈ L j ->
     a <> HDRP b /\ a <> prev_field b /\ a <> next_field b) ->
  lists_ok (set_cells (<[a := v]> c) s) L.
Proof.
  intros HL Ha Hne. pose proof WSIZE_pos.
  apply (lists_ok_frame (set_cells c s)); auto.
  - repeat split.
  - intros i Hi. rewrite !cells_set_cells.
    change (free_listp (set_cells c s)) with (free_listp s).
    assert (i * WSIZE <= 7 * WSIZE) by nia.
    rewrite lookup_insert_ne by lia. reflexivity.
  - intros i b Hi Hb. rewrite !cells_set_cells.
    destruct (Hne i b Hi Hb) as (? & ? & ?).
    rewrite !lookup_insert_ne by auto. auto.
Qed.

Lemma insert_merged s L ret total :
  lists_ok s L ->
  0 <= mem_start_brk s ->
  holds s (HDRP ret) (PACK total 0) ->
  holds s (ret + total - DSIZE) (PACK total 0) ->
  2 * DSIZE <= total -> total mod DSIZE = 0 -> total + 1 < modulus ->
  valid_addr s (prev_field ret) = true -> valid_addr s (next_field ret) = true ->
  free_listp s + 8 * WSIZE <= HDRP ret ->
  (forall j b, 0 <= j < 8 -> b ∈ L j -> b + 2 * DSIZE <= ret \/ ret + total <= b) ->
  wp (insert_free total ret) s (fun _ s' =>
    same_arena s s' /\
    holds s' (HDRP ret) (PACK total 0) /\
    holds s' (ret + total - DSIZE) (PACK total 0) /\
    lists_ok s' (fl_cons (find_list total) ret L)).
Proof.
  intros HL Hst Hh Hf Ht1 Ht2 Ht3 Hv1 Hv2 Hab Hout.
  pose proof WSIZE_pos as HW.
  assert (Hsb : size_bits (PACK total 0) = total).
  { apply size_bits_PACK; auto. unf. lia. }
  assert (Hnz : ret <> NULL).
  { destruct Hh as [Hv _]. apply valid_addr_spec in Hv. unf. lia. }
  pose proof (find_list_range total) as Hc.
  eapply wp_mono.
  - apply (insert_free_spec s L total ret); auto.
    + split; auto; [apply Hh |]. exists (PACK total 0). split; [apply Hh | rewrite Hsb; reflexivity].
    + intros j b Hj Hb. destruct (Hout j b Hj Hb); unf; lia.
  - intros [] s' (Hsa & HL' & Hfr). cbv beta.
    assert (Hhead : forall h, head (L (find_list total)) = Some h ->
              h + 2 * DSIZE <= ret \/ ret + total <= h).
    { intros h Hhd. apply (Hout _ h Hc).
      destruct (L (find_list total)); simplify_eq/=. left. }
    assert (Hslot : free_listp s + find_list total * WSIZE < free_listp s + 8 * WSIZE) by nia.
    split; [exact Hsa |]. split; [| split; [| exact HL']].
    + apply (holds_frame s); auto. apply Hfr; unf; try lia.
      intros h Hhd. destruct (Hhead h Hhd); lia.
    + apply (holds_frame s); auto. apply Hfr; unf; try lia.
      intros h Hhd. destruct (Hhead h Hhd); lia.
Qed.

Lemma aligned_add a b :
  a mod DSIZE = 0 -> b mod DSIZE = 0 -> (a + b) mod DSIZE = 0.
Proof.
  intros Ha Hb. pose proof WSIZE_pos.
  rewrite Z.add_mod by (unfold DSIZE; lia). rewrite Ha, Hb. reflexivity.
Qed.

Lemma same_arena_trans s1 s2 s3 :
  same_arena s1 s2 -> same_arena s2 s3 -> same_arena s1 s3.
Proof. unfold same_arena. intuition congruence. Qed.

Lemma remove_listed s L x c Q :
  lists_ok s L -> 0 <= c < 8 -> x ∈ L c ->
  (forall s', same_arena s s' -> lists_ok s' (fl_remove c x L) ->
     (forall a w, holds s a w -> free_listp s + 8 * WSIZE <= a ->
        (forall y, y ∈ L c -> y <> x -> a <> prev_field y /\ a <> next_field y) ->
        holds s' a w) ->
     Q tt s') ->
  wp (remove_free x) s Q.
Proof.
  intros HL Hc Hx HQ. pose proof WSIZE_pos.
  eapply wp_mono; [apply (remove_free_spec s L x c); auto |].
  intros [] s' (Hsa & HL' & Hfr). apply HQ; auto.
  intros a w Hh Ha Hy. apply (holds_frame s); auto.
  apply Hfr; auto. nia.
Qed.

Lemma coalesce_spec s L bp sz sp pa sn na :
  coalescible s L bp sz sp pa sn na ->
  wp (coalesce bp) s (fun r s' =>
    r = merged_start bp sp pa /\ same_arena s s' /\
    holds s' (HDRP r) (PACK (merged_size sz sp pa sn na) 0) /\
    holds s' (r + merged_size sz sp pa sn na - DSIZE) (PACK (merged_size sz sp pa sn na) 0) /\
    lists_ok s' (merged_lists L bp sz sp pa sn na)).
Proof.
  intros [[Hst Hmx] HL Hh Hf [Hz1 Hz2] [Hl1 Hl2] Hab [Hpa Hna] Hpf Hph [Hp1 Hp2] Hpfree
          Hnh [Hn1 Hn2] Hnfree Hout].
  pose proof WSIZE_pos as HW.
  pose proof (proj1 (valid_addr_spec _ _) (proj1 Hh)) as Vh.
  pose proof (proj1 (valid_addr_spec _ _) (proj1 Hf)) as Vf.
  pose proof (proj1 (valid_addr_spec _ _) (proj1 Hph)) as Vph.
  assert (Hfl : mem_start_brk s <= free_listp s).
  { destruct (lo_heads _ _ HL 0 ltac:(lia)) as (h0 & [Hv0 _] & _).
    apply valid_addr_spec in Hv0. lia. }
  assert (Esz : size_bits (PACK sz 0) = sz) by (apply size_bits_PACK; auto; unf; lia).
  assert (Esp : size_bits (PACK sp pa) = sp) by (apply size_bits_PACK; auto; unf; lia).
  assert (Epa : alloc_bit (PACK sp pa) = pa) by (apply alloc_bit_PACK; auto; lia).
  assert (Ena : alloc_bit (PACK sn na) = na) by (apply alloc_bit_PACK; auto; lia).
  unfold coalesce, PREV_BLKP, NEXT_BLKP, GET_SIZE, GET_ALLOC.
  wp_pure. wp_get (PACK sz 0). rewrite Esz.
  wp_pure. wp_get (PACK sp pa). rewrite Esp.
  wp_pure. wp_get (PACK sp pa). rewrite Epa.
  wp_pure. wp_get (PACK sz 0). rewrite Esz.
  wp_pure. wp_get (PACK sn na). rewrite Ena.
  wp_pure.
  unfold merged_lists, merged_size, merged_start in *.
  destruct Hpa as [-> | ->], Hna as [-> | ->]; cbn [Z.eqb negb andb] in *.
  4: { (* Case 1: both neighbours allocated *)
    rewrite !Z.add_0_r in *.
    wp_pure. eapply wp_mono.
    - apply (insert_merged s L bp sz); auto; try (unf; lia).
      intros j b Hj Hb. apply (Hout j b Hj Hb); discriminate.
    - intros [] s' (Hsa & H1 & H2 & H3). apply wp_ret. auto. }
  - (* Case 4: both neighbours free *)
    destruct (Hpfree eq_refl) as (Hp3 & Hpin).
    destruct (Hnfree eq_refl) as (Hn3 & Hnf & Hnin). clear Hnfree Hpfree.
    pose proof (proj1 (valid_addr_spec _ _) (proj1 Hnf)) as Vnf.
    assert (Esn : size_bits (PACK sn 0) = sn) by (apply size_bits_PACK; auto; unf; lia).
    pose proof (find_list_range sp) as Hcp.
    pose proof (find_list_range sn) as Hcn.
    destruct (lo_nodes _ _ HL _ _ Hcp Hpin) as [Hq1 Hq2 Hq3 Hq4 _].
    assert (Etot : size_bits (PACK (sz + sp + sn) 0) = sz + sp + sn).
    { apply size_bits_PACK; auto; [unf; lia | unf; lia |].
      apply aligned_add; [apply aligned_add |]; assumption. }
    assert (Hpn : bp - sp <> bp + sz) by (unf; lia).
    assert (Hfld : forall a, bp - sp - WSIZE <= a < bp + sz + sn - WSIZE ->
              free_listp s + 8 * WSIZE <= a /\
              forall j y, 0 <= j < 8 -> y ∈ L j -> y <> bp - sp -> y <> bp + sz ->
                a <> HDRP y /\ a <> prev_field y /\ a <> next_field y).
    { intros a Ha. split; [unf; lia |]. intros j y Hj Hy Hne Hne'.
      destruct (Hout j y Hj Hy); [auto | auto | |]; unf; lia. }
    wp_get (PACK sz 0). rewrite Esz. wp_pure.
    apply (remove_listed s L (bp + sz) (find_list sn)); auto.
    intros s1 Hsa1 HL1 Hfr1.
    assert (Hkeep1 : forall a w, holds s a w ->
              bp - sp - WSIZE <= a < bp + sz + sn - WSIZE ->
              a <> bp - sp -> a <> bp - sp + WSIZE -> holds s1 a w).
    { intros a w Hw Ha Ha1 Ha2. destruct (Hfld a Ha) as [Hlo Hne].
      apply Hfr1; auto. intros y Hy Hyn.
      destruct (decide (y = bp - sp)) as [-> | Hyp]; [unf; auto |].
      destruct (Hne _ y Hcn Hy Hyp Hyn) as (_ & ? & ?). auto. }
    assert (Hpin1 : bp - sp ∈ fl_remove (find_list sn) (bp + sz) L (find_list sp))
      by (apply fl_remove_keep; assumption).
    assert (Hpf1 : holds s1 (bp - DSIZE) (PACK sp 0)) by (apply Hkeep1; [exact Hpf | unf; lia ..]).
    wp_get (PACK sp 0). rewrite Esp. wp_pure.
    apply (remove_listed s1 (fl_remove (find_list sn) (bp + sz) L) (bp - sp) (find_list sp)); auto.
    intros s2 Hsa2 HL2 Hfr2.
    assert (Hsa : same_arena s s2) by (apply (same_arena_trans s s1); assumption).
    assert (Hfl1 : free_listp s1 = free_listp s) by (destruct Hsa1 as (_ & _ & _ & -> & _); reflexivity).
    assert (Hkeep : forall a w, holds s a w ->
              bp - sp - WSIZE <= a < bp + sz + sn - WSIZE ->
              a <> bp - sp -> a <> bp - sp + WSIZE -> holds s2 a w).
    { intros a w Hw Ha Ha1 Ha2. destruct (Hfld a Ha) as [Hlo Hne].
      apply Hfr2; [apply Hkeep1; assumption | rewrite Hfl1; exact Hlo |].
      intros y Hy Hyn.
      destruct (fl_remove_elem s L _ _ _ y HL Hcn Hcp Hnin Hy) as [Hy1 Hy2].
      destruct (Hne _ y Hcp Hy1 Hyn Hy2) as (_ & ? & ?). auto. }
    assert (Hh2 : holds s2 (bp - WSIZE) (PACK sz 0)) by (apply Hkeep; [exact Hh | unf; lia ..]).
    assert (Hpf2 : holds s2 (bp - 2 * WSIZE) (PACK sp 0)) by (apply Hkeep; [exact Hpf | unf; lia ..]).
    assert (Hph2 : holds s2 (bp - sp - WSIZE) (PACK sp 0)) by (apply Hkeep; [exact Hph | unf; lia ..]).
    assert (Hnh2 : holds s2 (bp + sz - WSIZE) (PACK sn 0)) by (apply Hkeep; [exact Hnh | unf; lia ..]).
    assert (Hnf2 : holds s2 (bp + sz + sn - 2 * WSIZE) (PACK sn 0)) by (apply Hkeep; [exact Hnf | unf; lia ..]).
    assert (Hv2 : valid_addr s2 (bp - sp - WSIZE) = true) by apply Hph2.
    assert (Hvf2 : valid_addr s2 (bp + sz + sn - 2 * WSIZE) = true) by apply Hnf2.
    assert (Hst0 : 0 <= mem_start_brk s2) by (destruct Hsa as (-> & _); exact Hst).
    unfold FTRP, GET_SIZE. unf.
    wp_get (PACK sp 0). rewrite Esp. wp_pure.
    wp_get (PACK sp 0). rewrite Esp. wp_pure.
    wp_get (PACK sz 0). rewrite Esz. wp_pure.
    wp_get (PACK sn 0). rewrite Esn. wp_pure.
    wp_get (PACK sn 0). rewrite Esn. wp_pure.
    rewrite (wrap_small (sp + sn)) by lia.
    rewrite (wrap_small (sz + (sp + sn))) by lia.
    replace (sz + (sp + sn)) with (sz + sp + sn) by lia.
    wp_get (PACK sp 0). rewrite Esp. wp_pure.
    wp_put.
    wp_get (PACK sz 0). rewrite Esz. wp_pure.
    wp_get (PACK sn 0). rewrite Esn. wp_pure.
    wp_put.
    wp_get (PACK sp 0). rewrite Esp. wp_pure.
    eapply wp_mono.
    + apply (insert_merged _ (fl_remove (find_list sp) (bp - sp)
                (fl_remove (find_list sn) (bp + sz) L)) (bp - sp) (sz + sp + sn)).
      * apply lists_ok_put; [apply lists_ok_put; [rewrite set_cells_same; exact HL2 | |] | |].
        all: try (destruct Hsa as (_ & _ & _ & -> & _); unf; lia).
        all: intros j y Hj Hy;
          destruct (fl_remove_elem s1 _ _ _ j y HL1 Hcp Hj Hpin1 Hy) as [Hy1 Hy2];
          destruct (fl_remove_elem s L _ _ j y HL Hcn Hj Hnin Hy1) as [Hy3 Hy4];
          destruct (Hout j y Hj Hy3); [auto | auto | |]; unf; lia.
      * exact Hst0.
      * apply holds_set. split; [assumption | unf; msimpl; reflexivity].
      * apply holds_set. unf.
        replace (bp - sp + (sz + sp + sn) - 2 * WSIZE) with (bp + sz + sn - 2 * WSIZE) by lia.
        split; [assumption | msimpl; reflexivity].
      * unf; lia.
      * apply aligned_add; [apply aligned_add |]; assumption.
      * unf; lia.
      * rewrite valid_set_cells, (valid_same s s2) by assumption. exact Hq2.
      * rewrite valid_set_cells, (valid_same s s2) by assumption. exact Hq3.
      * destruct Hsa as (_ & _ & _ & E & _). change (free_listp (set_cells _ s2)) with (free_listp s2).
        rewrite E. unf; lia.
      * intros j y Hj Hy.
        destruct (fl_remove_elem s1 _ _ _ j y HL1 Hcp Hj Hpin1 Hy) as [Hy1 Hy2].
        destruct (fl_remove_elem s L _ _ j y HL Hcn Hj Hnin Hy1) as [Hy3 Hy4].
        apply (Hout j y Hj Hy3); auto.
    + intros [] s' (Hsa' & H1 & H2 & H3). apply wp_ret.
      split; [reflexivity |]. split; [| auto].
      apply (same_arena_trans s s2); auto.
  - (* Case 3: only the lower neighbour is free *)
    rewrite !Z.add_0_r in *.
    destruct (Hpfree eq_refl) as (Hp3 & Hpin). clear Hnfree Hpfree.
    pose proof (find_list_range sp) as Hcp.
    destruct (lo_nodes _ _ HL _ _ Hcp Hpin) as [Hq1 Hq2 Hq3 Hq4 _].
    assert (Etot : size_bits (PACK (sz + sp) 0) = sz + sp).
    { apply size_bits_PACK; auto; [unf; lia | unf; lia |]. apply aligned_add; assumption. }
    assert (Hfld : forall a, bp - sp - WSIZE <= a < bp + sz - WSIZE ->
              free_listp s + 8 * WSIZE <= a /\
              forall j y, 0 <= j < 8 -> y ∈ L j -> y <> bp - sp ->
                a <> HDRP y /\ a <> prev_field y /\ a <> next_field y).
    { intros a Ha. split; [unf; lia |]. intros j y Hj Hy Hne.
      destruct (Hout j y Hj Hy); [auto | discriminate | |]; unf; lia. }
    wp_get (PACK sp 0). rewrite Esp. wp_pure.
    apply (remove_listed s L (bp - sp) (find_list sp)); auto.
    intros s1 Hsa1 HL1 Hfr1.
    assert (Hkeep : forall a w, holds s a w ->
              bp - sp - WSIZE <= a < bp + sz - WSIZE -> holds s1 a w).
    { intros a w Hw Ha. destruct (Hfld a Ha) as [Hlo Hne].
      apply Hfr1; auto. intros y Hy Hyn.
      destruct (Hne _ y Hcp Hy Hyn) as (_ & ? & ?). auto. }
    assert (Hh1 : holds s1 (bp - WSIZE) (PACK sz 0)) by (apply Hkeep; [exact Hh | unf; lia]).
    assert (Hpf1 : holds s1 (bp - 2 * WSIZE) (PACK sp 0)) by (apply Hkeep; [exact Hpf | unf; lia]).
    assert (Hph1 : holds s1 (bp - sp - WSIZE) (PACK sp 0)) by (apply Hkeep; [exact Hph | unf; lia]).
    assert (Hf1 : valid_addr s1 (bp + sz - 2 * WSIZE) = true).
    { rewrite (valid_same s s1) by assumption. apply Hf. }
    assert (Hv1 : valid_addr s1 (bp - sp - WSIZE) = true) by apply Hph1.
    assert (Hst0 : 0 <= mem_start_brk s1) by (destruct Hsa1 as (-> & _); exact Hst).
    unfold FTRP, GET_SIZE. unf.
    wp_get (PACK sp 0). rewrite Esp. wp_pure.
    wp_get (PACK sp 0). rewrite Esp. wp_pure.
    rewrite (wrap_small (sz + sp)) by lia.
    wp_get (PACK sz 0). rewrite Esz. wp_pure.
    wp_put.
    wp_get (PACK sp 0). rewrite Esp. wp_pure.
    wp_put.
    wp_get (PACK sp 0). rewrite Esp. wp_pure.
    eapply wp_mono.
    + apply (insert_merged _ (fl_remove (find_list sp) (bp - sp) L) (bp - sp) (sz + sp)).
      * apply lists_ok_put; [apply lists_ok_put; [rewrite set_cells_same; exact HL1 | |] | |].
        all: try (destruct Hsa1 as (_ & _ & _ & -> & _); unf; lia).
        all: intros j y Hj Hy;
          destruct (fl_remove_elem s L _ _ j y HL Hcp Hj Hpin Hy) as [Hy1 Hy2];
          destruct (Hout j y Hj Hy1); [auto | discriminate | |]; unf; lia.
      * exact Hst0.
      * apply holds_set. split; [assumption | unf; msimpl; reflexivity].
      * apply holds_set. unf.
        replace (bp - sp + (sz + sp) - 2 * WSIZE) with (bp + sz - 2 * WSIZE) by lia.
        split; [assumption | msimpl; reflexivity].
      * unf; lia.
      * apply aligned_add; assumption.
      * unf; lia.
      * rewrite valid_set_cells, (valid_same s s1) by assumption. exact Hq2.
      * rewrite valid_set_cells, (valid_same s s1) by assumption. exact Hq3.
      * destruct Hsa1 as (_ & _ & _ & E & _). change (free_listp (set_cells _ s1)) with (free_listp s1).
        rewrite E. unf; lia.
      * intros j y Hj Hy.
        destruct (fl_remove_elem s L _ _ j y HL Hcp Hj Hpin Hy) as [Hy1 Hy2].
        apply (Hout j y Hj Hy1); [auto | discriminate].
    + intros [] s' (Hsa & H1 & H2 & H3). apply wp_ret.
      split; [reflexivity |]. split; [| auto].
      apply (same_arena_trans s s1); auto.
  - (* Case 2: only the upper neighbour is free *)
    rewrite !Z.add_0_r in *.
    destruct (Hnfree eq_refl) as (Hn3 & Hnf & Hnin). clear Hnfree Hpfree.
    pose proof (proj1 (valid_addr_spec _ _) (proj1 Hnf)) as Vnf.
    assert (Esn : size_bits (PACK sn 0) = sn) by (apply size_bits_PACK; auto; unf; lia).
    assert (Etot : size_bits (PACK (sz + sn) 0) = sz + sn).
    { apply size_bits_PACK; auto; [unf; lia | unf; lia |].
      apply aligned_add; assumption. }
    pose proof (find_list_range sn) as Hcn.
    assert (Hfld : forall a, bp - WSIZE <= a < bp + sz \/ a = bp + sz + sn - DSIZE ->
              free_listp s + 8 * WSIZE <= a /\
              forall j y, 0 <= j < 8 -> y ∈ L j -> y <> bp + sz ->
                a <> HDRP y /\ a <> prev_field y /\ a <> next_field y).
    { intros a Ha. split; [unf; lia |]. intros j y Hj Hy Hne.
      destruct (Hout j y Hj Hy); [discriminate | auto | |]; unf; lia. }
    wp_get (PACK sz 0). rewrite Esz. wp_pure.
    apply (remove_listed s L (bp + sz) (find_list sn)); auto.
    intros s1 Hsa1 HL1 Hfr1.
    assert (Hkeep : forall a w, holds s a w ->
              bp - WSIZE <= a < bp + sz \/ a = bp + sz + sn - DSIZE -> holds s1 a w).
    { intros a w Hw Ha. destruct (Hfld a Ha) as [Hlo Hne].
      apply Hfr1; auto. intros y Hy Hyn.
      destruct (Hne _ y Hcn Hy Hyn) as (_ & ? & ?). auto. }
    assert (Hh1 : holds s1 (bp - WSIZE) (PACK sz 0)) by (apply Hkeep; [exact Hh | unf; lia]).
    assert (Hnh1 : holds s1 (bp + sz - WSIZE) (PACK sn 0)) by (apply Hkeep; [exact Hnh | unf; lia]).
    assert (Hf1 : valid_addr s1 (bp + (sz + sn) - 2 * WSIZE) = true).
    { rewrite (valid_same s s1) by assumption.
      replace (bp + (sz + sn) - 2 * WSIZE) with (bp + sz + sn - 2 * WSIZE) by lia. apply Hnf. }
    assert (Hv1 : valid_addr s1 (bp - WSIZE) = true) by apply Hh1.
    assert (Hst0 : 0 <= mem_start_brk s1) by (destruct Hsa1 as (-> & _); exact Hst).
    wp_pure. wp_get (PACK sz 0). rewrite Esz.
    wp_pure. wp_get (PACK sn 0). rewrite Esn. wp_pure.
    rewrite (wrap_small (sz + sn)) by (unf; lia).
    wp_pure. wp_put.
    unfold FTRP, GET_SIZE. unf. wp_pure. wp_get (PACK (sz + sn) 0). rewrite Etot.
    wp_pure. wp_put.
    wp_pure. eapply wp_mono.
    + apply (insert_merged _ (fl_remove (find_list sn) (bp + sz) L) bp (sz + sn)).
      * apply lists_ok_put; [apply lists_ok_put; [rewrite set_cells_same; exact HL1 | |] | |].
        all: try (destruct Hsa1 as (_ & _ & _ & -> & _); unf; lia).
        all: intros j y Hj Hy;
          destruct (fl_remove_elem s L _ _ j y HL Hcn Hj Hnin Hy) as [Hy1 Hy2];
          destruct (Hout j y Hj Hy1); [discriminate | auto | |]; unf; lia.
      * exact Hst0.
      * apply holds_set. split; [assumption | unf; msimpl; reflexivity].
      * apply holds_set. split; [unf; assumption | unf; msimpl; reflexivity].
      * unf; lia.
      * apply aligned_add; assumption.
      * unf; lia.
      * rewrite valid_set_cells, (valid_same s s1) by assumption. exact Hl1.
      * rewrite valid_set_cells, (valid_same s s1) by assumption. exact Hl2.
      * destruct Hsa1 as (_ & _ & _ & E & _). change (free_listp (set_cells _ s1)) with (free_listp s1).
        rewrite E. unf; lia.
      * intros j y Hj Hy.
        destruct (fl_remove_elem s L _ _ j y HL Hcn Hj Hnin Hy) as [Hy1 Hy2].
        apply (Hout j y Hj Hy1); [discriminate | auto].
    + intros [] s' (Hsa & H1 & H2 & H3). apply wp_ret.
      split; [reflexivity |]. split; [| auto].
      apply (same_arena_trans s s1); auto.
Qed.

(** ** First-fit search *)

Lemma find_app {A} (f : A -> bool) l1 l2 :
  List.find f (l1 ++ l2) =
  match List.find f l1 with Some x => Some x | None => List.find f l2 end.
Proof. induction l1 as [| a l1 IH]; simpl; [reflexivity |]. destruct (f a); auto. Qed.

Lemma first_fit_null s asize l :
  (forall b, b ∈ l -> b <> NULL) ->
  first_fit s asize l = NULL -> List.find (fun b => blk_size s b >=? asize) l = None.
Proof.
  intros Hnz. unfold first_fit.
  destruct (List.find _ l) as [x |] eqn:E; [| reflexivity].
  simpl. intros ->. apply List.find_some in E as [Hin _].
  apply list_elem_of_In in Hin. exfalso. apply (Hnz NULL Hin). reflexivity.
Qed.

Lemma scan_list_spec s i fuel asize l : forall p cur,
  dseg (cells s) p cur l NULL ->
  (forall b, b ∈ l -> node_ok s i b) ->
  (length l < fuel)%nat ->
  scan_list fuel asize cur s = Ok (first_fit s asize l) s.
Proof.
  revert fuel. induction l as [| b l IH]; intros fuel p cur Hseg Hok Hfuel.
  - simpl in Hseg. subst cur. destruct fuel; [simpl in Hfuel; lia |]. reflexivity.
  - simpl in Hseg. destruct Hseg as (-> & Hb & Hbp & nx & Hbn & Hseg).
    destruct fuel as [| fuel]; [simpl in Hfuel; lia |].
    destruct (Hok b ltac:(left)) as [Hv1 Hv2 Hv3 _ (w & Hw & _)].
    simpl. replace (b =? NULL) with false by (symmetry; apply Z.eqb_neq; exact Hb).
    unfold bind at 1, GET_SIZE, bind at 1, GET. rewrite Hv1, Hw. unfold ret at 1.
    unfold first_fit. simpl. unfold blk_size at 1. rewrite Hw. simpl.
    destruct (size_bits w >=? asize); [reflexivity |].
    unfold bind, GET. rewrite Hv3, Hbn.
    apply (IH fuel b nx Hseg).
    + intros b' Hb'. apply Hok. right; exact Hb'.
    + simpl in Hfuel. lia.
Qed.

Lemma scan_classes_spec s L fuel asize (n : nat) : forall idx,
  lists_ok s L -> 0 <= idx ->
  (forall i, idx <= i < 8 -> (length (L i) < fuel)%nat) ->
  (8 - idx <= Z.of_nat n) ->
  scan_classes fuel n asize idx s = Ok (first_fit s asize (classes_from L idx)) s.
Proof.
  induction n as [| n IH]; intros idx HL Hidx Hfuel Hn.
  - simpl. replace (idx <? 8) with false by (symmetry; apply Z.ltb_ge; lia).
    unfold classes_from. rewrite seqZ_nil by lia. reflexivity.
  - simpl. destruct (idx <? 8) eqn:E.
    + apply Z.ltb_lt in E.
      destruct (lo_heads _ _ HL idx ltac:(lia)) as (h & [Hv Hh] & Hseg).
      unfold bind at 1, slot, bind at 1, gets, ret at 1.
      unfold bind at 1, GET. rewrite Hv, Hh.
      unfold bind at 1.
      rewrite (scan_list_spec s idx fuel asize (L idx) NULL h Hseg);
        [| intros b Hb; apply (lo_nodes _ _ HL); [lia | exact Hb] | apply Hfuel; lia].
      unfold classes_from. rewrite seqZ_cons by lia. simpl.
      replace (Z.succ idx) with (idx + 1) by lia.
      replace (Z.pred (8 - idx)) with (8 - (idx + 1)) by lia.
      fold (classes_from L (idx + 1)).
      destruct (first_fit s asize (L idx) =? NULL) eqn:Enull; simpl.
      * apply Z.eqb_eq in Enull. rewrite IH; auto; try lia.
        -- unfold first_fit. f_equal. rewrite find_app.
           fold (first_fit s asize (L idx)) in Enull.
           rewrite (first_fit_null s asize (L idx)); [reflexivity | | exact Enull].
           intros b Hb. eapply dseg_nonnull; eauto.
        -- intros i Hi. apply Hfuel. lia.
      * apply Z.eqb_neq in Enull. unfold ret. f_equal.
        unfold first_fit in *. rewrite find_app.
        destruct (List.find _ (L idx)); [reflexivity | contradiction].
    + apply Z.ltb_ge in E. unfold classes_from. rewrite seqZ_nil by lia. reflexivity.
Qed.

Lemma find_fit_spec s L fuel asize :
  lists_ok s L ->
  (forall i, find_list asize <= i < 8 -> (length (L i) < fuel)%nat) ->
  find_fit fuel asize s = Ok (first_fit s asize (classes_from L (find_list asize))) s.
Proof.
  intros HL Hfuel. unfold find_fit.
  pose proof (find_list_range asize).
  apply scan_classes_spec; auto; lia.
Qed.

(** ** The size adjustment *)

Lemma adjust_size_no_wrap size :
  0 <= size -> size + 2 * DSIZE - 1 < modulus ->
  adjust_size size = adjust_by_spec size.
Proof.
  intros H0 Hlt. unfold adjust_size, adjust_by_spec, ceil_div.
  replace (size + DSIZE + DSIZE - 1) with (size + DSIZE + (DSIZE - 1)) by lia.
  destruct (size <=? DSIZE) eqn:E; [reflexivity |].
  apply Z.leb_gt in E.
  assert (HD : 0 < DSIZE) by (unfold DSIZE; pose proof WSIZE_pos; lia).
  rewrite (wrap_small (size + DSIZE + (DSIZE - 1))) by lia.
  apply wrap_small.
  pose proof (Z.mul_div_le (size + DSIZE + (DSIZE - 1)) DSIZE HD).
  assert (Hn : 0 <= size + DSIZE + (DSIZE - 1)) by lia.
  pose proof (Z.div_pos _ DSIZE Hn HD).
  nia.
Qed.

Lemma adjust_by_spec_bounds size :
  0 <= size ->
  2 * DSIZE <= adjust_by_spec size /\ adjust_by_spec size mod DSIZE = 0
  /\ size + DSIZE <= adjust_by_spec size < size + 3 * DSIZE.
Proof.
  intros H0. unfold adjust_by_spec, ceil_div.
  replace (size + DSIZE + DSIZE - 1) with (size + DSIZE + (DSIZE - 1)) by lia.
  assert (HD : 0 < DSIZE) by (unfold DSIZE; pose proof WSIZE_pos; lia).
  destruct (size <=? DSIZE) eqn:E.
  - apply Z.leb_le in E. repeat split; try lia.
    apply Z.mod_mul; lia.
  - apply Z.leb_gt in E.
    pose proof (Z.mul_div_le (size + DSIZE + (DSIZE - 1)) DSIZE HD).
    pose proof (Z.mul_succ_div_gt (size + DSIZE + (DSIZE - 1)) DSIZE HD).
    repeat split; try lia.
    rewrite Z.mul_comm. apply Z.mod_mul; lia.
Qed.

Lemma mm_realloc_NULL_faults fuel s size :
  0 <= mem_start_brk s ->
  mm_realloc fuel NULL size s = Err (SegFault (HDRP NULL)).
Proof.
  intros Hs. unfold mm_realloc, bind, GET_SIZE, bind, GET.
  replace (valid_addr s (HDRP NULL)) with false; [reflexivity |].
  symmetry. apply not_true_is_false. rewrite valid_addr_spec.
  pose proof WSIZE_pos. unfold HDRP, NULL. lia.
Qed.

Lemma wp_mem_sbrk incr s Q :
  0 <= incr -> mem_brk s + incr <= mem_max_addr s ->
  Q (Some (mem_brk s)) (set_brk (mem_brk s + incr) s) ->
  wp (mem_sbrk incr) s Q.
Proof.
  intros H0 H1 HQ. unfold wp, mem_sbrk.
  replace (incr <? 0) with false by (symmetry; apply Z.ltb_ge; lia).
  replace (mem_max_addr s <? mem_brk s + incr) with false by (symmetry; apply Z.ltb_ge; lia).
  exact HQ.
Qed.

Lemma wp_mem_sbrk_fail incr s Q :
  mem_max_addr s < mem_brk s + incr -> Q None s -> wp (mem_sbrk incr) s Q.
Proof.
  intros H1 HQ. unfold wp, mem_sbrk.
  replace (mem_max_addr s <? mem_brk s + incr) with true by (symmetry; apply Z.ltb_lt; lia).
  rewrite orb_true_r. exact HQ.
Qed.

(** Validity of the [k]-th word of the arena. *)
Lemma valid_word s a k :
  a = mem_start_brk s + k * WSIZE -> 0 <= k ->
  mem_start_brk s + (k + 1) * WSIZE <= mem_max_addr s ->
  valid_addr s a = true.
Proof.
  intros -> Hk Hm. pose proof WSIZE_pos. apply valid_addr_spec.
  repeat split; [nia | lia |].
  replace (mem_start_brk s + k * WSIZE - mem_start_brk s) with (k * WSIZE) by lia.
  apply Z.mod_mul. lia.
Qed.

Ltac rec_simpl :=
  cbn [set_cells cells mem_start_brk mem_brk mem_max_addr free_listp heap_listp
       failedsize set_brk set_heap_listp set_free_listp set_failedsize].

Ltac put_word k :=
  wp_pure; apply wp_PUT;
  [apply (valid_word _ _ k); cbn; lia | rewrite ?set_cells_twice; rec_simpl].

Lemma lookup_insert_same (m : gmap Z Z) a b v : a = b -> <[a := v]> m !! b = Some v.
Proof. intros ->. apply lookup_insert_eq. Qed.

Ltac mlook :=
  repeat first [ rewrite lookup_insert_same by lia | rewrite lookup_insert_ne by lia ].

Lemma mm_init_spec s :
  mem_brk s = mem_start_brk s ->
  mem_start_brk s + 15 * WSIZE <= mem_max_addr s ->
  mem_max_addr s < modulus -> 0 <= mem_start_brk s ->
  wp mm_init s (fun r s' =>
    r = 0 /\
    mem_start_brk s' = mem_start_brk s /\ mem_max_addr s' = mem_max_addr s /\
    mem_brk s' = mem_start_brk s + 14 * WSIZE /\
    free_listp s' = mem_start_brk s + 4 * WSIZE /\
    heap_listp s' = mem_start_brk s + 2 * WSIZE /\
    failedsize s' = failedsize s /\
    holds s' (mem_start_brk s + 1 * WSIZE) (PACK DSIZE 1) /\
    holds s' (mem_start_brk s + 2 * WSIZE) (PACK DSIZE 1) /\
    holds s' (mem_start_brk s + 3 * WSIZE) (PACK (10 * WSIZE) 1) /\
    holds s' (mem_start_brk s + 12 * WSIZE) (PACK (10 * WSIZE) 1) /\
    cells s' !! (mem_start_brk s + 13 * WSIZE) = cells s !! (mem_start_brk s + 13 * WSIZE) /\
    holds s' (mem_start_brk s + 14 * WSIZE) (PACK 0 1) /\
    lists_ok s' no_lists).
Proof.
  intros Hb Hroom Hmax Hst. pose proof WSIZE_pos as HW.
  assert (E10 : size_bits (PACK (10 * WSIZE) 1) = 10 * WSIZE).
  { apply size_bits_PACK; auto; try lia.
    unfold DSIZE. replace (10 * WSIZE) with (5 * (2 * WSIZE)) by lia.
    apply Z.mod_mul. lia. }
  destruct s as [st br mx c fl hl fs].
  cbn [mem_brk mem_start_brk mem_max_addr failedsize cells] in *. subst br.
  unfold mm_init.
  wp_pure. apply wp_mem_sbrk; rec_simpl; [lia | lia |].
  wp_pure. rec_simpl.
  put_word 0. put_word 1. put_word 2. put_word 3.
  wp_pure. rec_simpl.
  apply wp_mem_sbrk; rec_simpl; [lia | lia |].
  unfold FTRP, NEXT_BLKP, GET_SIZE. unf.
  put_word 3.
  wp_pure. apply (wp_GET _ (PACK (10 * WSIZE) 1)).
  { split; [apply (valid_word _ _ 3); cbn; lia | cbn; msimpl; reflexivity]. }
  rewrite E10. put_word 12.
  wp_pure. apply (wp_GET _ (PACK (10 * WSIZE) 1)).
  { split; [apply (valid_word _ _ 3); cbn; lia | cbn; msimpl; reflexivity]. }
  rewrite E10. put_word 14.
  wp_pure. rec_simpl. unfold clear_heads, slot.
  wp_pure. rec_simpl.
  put_word 4. put_word 5. put_word 6. put_word 7.
  put_word 8. put_word 9. put_word 10. put_word 11.
  wp_pure. rewrite ?set_cells_twice. rec_simpl.
  repeat (split; [first [lia | reflexivity] |]).
  assert (Hv : forall k, 0 <= k < 15 ->
            valid_addr (mkState st (st + 4 * WSIZE + 10 * WSIZE) mx c
                          (st + 4 * WSIZE) (st + 2 * WSIZE) fs) (st + k * WSIZE) = true).
  { intros k Hk. apply (valid_word _ _ k); cbn; [reflexivity | lia | nia]. }
  repeat (split; [first [ split; [apply Hv; lia | cbn; mlook; reflexivity]
                        | cbn; mlook; reflexivity ] |]).
  split.
  - intros i Hi. exists NULL. split; [| reflexivity]. rec_simpl.
    replace (st + 4 * WSIZE + i * WSIZE) with (st + (4 + i) * WSIZE) by lia.
    split; [apply Hv; lia |].
    assert (Hi' : i = 0 \/ i = 1 \/ i = 2 \/ i = 3 \/ i = 4 \/ i = 5 \/ i = 6 \/ i = 7) by lia.
    cbn. destruct Hi' as [-> | [-> | [-> | [-> | [-> | [-> | [-> | ->]]]]]]];
      mlook; reflexivity.
  - intros i b _ Hb. inversion Hb.
  - intros i _. apply NoDup_nil_2.
  - intros i j b b' _ _ Hb. inversion Hb.
Qed.

Lemma extensible_valid s size a :
  extensible s size ->
  mem_brk s - WSIZE <= a -> a + WSIZE <= mem_brk s + size ->
  (a - mem_brk s) mod WSIZE = 0 ->
  valid_addr s a = true.
Proof.
  intros [_ [Hr _] (Hs & Hb & Hm)] H1 H2 H3. pose proof WSIZE_pos.
  apply valid_addr_spec. repeat split; [lia | lia |].
  replace (a - mem_start_brk s) with ((a - mem_brk s) + (mem_brk s - mem_start_brk s)) by lia.
  rewrite Z.add_mod, H3, Hm by lia. reflexivity.
Qed.

Lemma even_words size :
  0 <= size < modulus -> size mod DSIZE = 0 ->
  (if negb ((size / WSIZE) mod 2 =? 0)
   then wrap (wrap (size / WSIZE + 1) * WSIZE)
   else wrap (size / WSIZE * WSIZE)) = size.
Proof.
  intros Hr Hm. pose proof WSIZE_pos as HW.
  apply Z.mod_divide in Hm; [| unfold DSIZE; lia]. destruct Hm as [q ->].
  unfold DSIZE. replace (q * (2 * WSIZE)) with ((q * 2) * WSIZE) in * by lia.
  rewrite Z.div_mul by lia. rewrite Z.mod_mul by lia.
  change (negb (0 =? 0)) with false. cbv iota.
  apply wrap_small. unfold DSIZE in Hr. lia.
Qed.

Lemma extend_heap_spec s words size :
  extensible s size ->
  (if negb (words mod 2 =? 0)
   then wrap (wrap (words + 1) * WSIZE) else wrap (words * WSIZE)) = size ->
  extend_heap words s = Ok (mem_brk s) (extended s size).
Proof.
  intros Hex Hsz. pose proof Hex as [[Hs1 Hs2] [Hr1 Hr2] (Hb1 & Hb2 & Hb3)].
  pose proof WSIZE_pos as HW.
  assert (Esz : size_bits (PACK size 0) = size).
  { apply size_bits_PACK; auto; unfold DSIZE in *; lia. }
  assert (Hm : size mod WSIZE = 0).
  { apply Z.mod_divide in Hs2; [| unfold DSIZE; lia]. destruct Hs2 as [q ->].
    unfold DSIZE. replace (q * (2 * WSIZE)) with ((q * 2) * WSIZE) by lia.
    apply Z.mod_mul. lia. }
  assert (V1 : valid_addr s (mem_brk s - WSIZE) = true).
  { apply (extensible_valid s size); auto; unfold DSIZE in *; try lia.
    replace (mem_brk s - WSIZE - mem_brk s) with ((-1) * WSIZE) by lia.
    apply Z.mod_mul. lia. }
  assert (V2 : valid_addr s (mem_brk s + size - 2 * WSIZE) = true).
  { apply (extensible_valid s size); auto; unfold DSIZE in *; try lia.
    replace (mem_brk s + size - 2 * WSIZE - mem_brk s) with (size + (-2) * WSIZE) by lia.
    rewrite Z.mod_add by lia. exact Hm. }
  assert (V3 : valid_addr s (mem_brk s + size - WSIZE) = true).
  { apply (extensible_valid s size); auto; unfold DSIZE in *; try lia.
    replace (mem_brk s + size - WSIZE - mem_brk s) with (size + (-1) * WSIZE) by lia.
    rewrite Z.mod_add by lia. exact Hm. }
  assert (Hwp : wp (extend_heap words) s
                  (fun r s' => r = mem_brk s /\ s' = extended s size)).
  { unfold extend_heap. rewrite Hsz. unfold FTRP, NEXT_BLKP, GET_SIZE. unf.
    wp_pure. apply wp_mem_sbrk; [lia | lia |].
    wp_put. wp_get (PACK size 0). rewrite Esz.
    wp_put. wp_get (PACK size 0). rewrite Esz.
    wp_put. wp_pure. split; reflexivity. }
  apply wp_Ok in Hwp as (r & s' & E & -> & ->). exact E.
Qed.

Lemma wp_extend_heap s words size Q :
  extensible s size ->
  (if negb (words mod 2 =? 0)
   then wrap (wrap (words + 1) * WSIZE) else wrap (words * WSIZE)) = size ->
  Q (mem_brk s) (extended s size) -> wp (extend_heap words) s Q.
Proof.
  intros Hex Hsz HQ. unfold wp. rewrite (extend_heap_spec s words size Hex Hsz). exact HQ.
Qed.

Lemma adjust_size_facts size :
  0 < size -> size + 2 * DSIZE - 1 < modulus ->
  2 * DSIZE <= adjust_size size < modulus /\ adjust_size size mod DSIZE = 0.
Proof.
  intros H0 H1. rewrite adjust_size_no_wrap by lia.
  destruct (adjust_by_spec_bounds size) as (? & ? & ?); [lia |].
  repeat split; try lia.
  unfold adjust_by_spec, ceil_div. pose proof WSIZE_pos.
  replace (size + DSIZE + DSIZE - 1) with (size + DSIZE + (DSIZE - 1)) by lia.
  assert (HD : 0 < DSIZE) by (unfold DSIZE; lia).
  destruct (size <=? DSIZE); [lia |].
  pose proof (Z.mul_div_le (size + DSIZE + (DSIZE - 1)) DSIZE HD). lia.
Qed.

Lemma malloc_after_miss fuel s size :
  0 < size -> size + 2 * DSIZE - 1 < modulus ->
  adjust_size size = failedsize s ->
  extensible s (adjust_size size) ->
  mm_malloc fuel size s =
  Ok (mem_brk s)
     (allocated_whole (extended s (adjust_size size)) (mem_brk s) (adjust_size size)).
Proof.
  intros H0 H1 Hfs Hex.
  destruct (adjust_size_facts size H0 H1) as ([Ha1 Ha2] & Ha3).
  pose proof Hex as [_ [Hr1 Hr2] (Hb1 & Hb2 & Hb3)].
  pose proof WSIZE_pos as HW.
  set (asize := adjust_size size) in *.
  assert (Esz : size_bits (PACK asize 0) = asize).
  { apply size_bits_PACK; auto; unfold DSIZE in *; lia. }
  assert (Esz1 : size_bits (PACK asize 1) = asize).
  { apply size_bits_PACK; auto; unfold DSIZE in *; lia. }
  assert (Hm : asize mod WSIZE = 0).
  { apply Z.mod_divide in Ha3; [| unfold DSIZE; lia]. destruct Ha3 as [q ->].
    unfold DSIZE. replace (q * (2 * WSIZE)) with ((q * 2) * WSIZE) by lia.
    apply Z.mod_mul. lia. }
  assert (V1 : valid_addr s (mem_brk s - WSIZE) = true).
  { apply (extensible_valid s asize); auto; unfold DSIZE in *; try lia.
    replace (mem_brk s - WSIZE - mem_brk s) with ((-1) * WSIZE) by lia.
    apply Z.mod_mul. lia. }
  assert (V2 : valid_addr s (mem_brk s + asize - 2 * WSIZE) = true).
  { apply (extensible_valid s asize); auto; unfold DSIZE in *; try lia.
    replace (mem_brk s + asize - 2 * WSIZE - mem_brk s) with (asize + (-2) * WSIZE) by lia.
    rewrite Z.mod_add by lia. exact Hm. }
  assert (Hwp : wp (mm_malloc fuel size) s
                  (fun r s' => r = mem_brk s /\
                     s' = allocated_whole (extended s asize) (mem_brk s) asize)).
  { unfold mm_malloc. fold asize.
    replace (size =? 0) with false by (symmetry; apply Z.eqb_neq; lia).
    wp_pure. rewrite <- Hfs, Z.eqb_refl.
    wp_pure. apply (wp_extend_heap s _ asize); [exact Hex | apply even_words; [unfold DSIZE in *; lia | exact Ha3] |].
    replace (mem_brk s =? NULL) with false by (symmetry; apply Z.eqb_neq; unfold NULL; lia).
    unfold place, FTRP, GET_SIZE, extended. unf.
    wp_get (PACK asize 0). rewrite Esz. wp_pure.
    rewrite Z.sub_diag.
    replace (wrap 0 >=? 2 * (2 * WSIZE)) with false.
    2: { symmetry. rewrite wrap_small by (pose proof modulus_pos; lia).
         rewrite Z.geb_leb. apply Z.leb_gt. lia. }
    wp_put. wp_get (PACK asize 1). rewrite Esz1.
    wp_put. wp_pure. split; reflexivity. }
  apply wp_Ok in Hwp as (r & s' & E & -> & ->). exact E.
Qed.

Lemma dsegb_sound m prev cur l fin :
  dsegb m prev cur l fin = true -> dseg m prev cur l fin.
Proof.
  revert prev cur. induction l as [| b l IH]; intros prev cur; simpl.
  - apply Z.eqb_eq.
  - rewrite !andb_true_iff. intros [[[H1 H2] H3] H4].
    apply Z.eqb_eq in H1. apply negb_true_iff, Z.eqb_neq in H2.
    apply bool_decide_eq_true in H3.
    destruct (m !! next_field b) as [nx |] eqn:E; [| discriminate].
    repeat split; auto. exists nx. split; [reflexivity | apply IH; exact H4].
Qed.

Lemma elem_all_nodes L j b : 0 <= j < 8 -> b ∈ L j -> b ∈ all_nodes L.
Proof.
  intros Hj Hb. unfold all_nodes. apply list_elem_of_In, in_concat.
  exists (L j). split; [| apply list_elem_of_In; exact Hb].
  apply list_elem_of_In, list_elem_of_fmap.
  exists j. split; [reflexivity |]. apply elem_of_seqZ. lia.
Qed.

Lemma forallb_elem {A} (f : A -> bool) (l : list A) x :
  forallb f l = true -> x ∈ l -> f x = true.
Proof.
  intros H Hx. rewrite forallb_forall in H. apply H, list_elem_of_In, Hx.
Qed.

Lemma lists_okb_sound s L : lists_okb s L = true -> lists_ok s L.
Proof.
  unfold lists_okb. rewrite andb_true_iff. intros [Hcls Hfar].
  assert (Hc : forall i, 0 <= i < 8 -> class_okb s L i = true).
  { intros i Hi. apply (forallb_elem _ _ i Hcls). apply elem_of_seqZ. lia. }
  split.
  - intros i Hi. specialize (Hc i Hi). unfold class_okb in Hc.
    rewrite !andb_true_iff in Hc. destruct Hc as [[Hc _] _].
    destruct (cells s !! (free_listp s + i * WSIZE)) as [h |] eqn:E; [| discriminate].
    apply andb_true_iff in Hc as [Hv Hd]. exists h. split; [split; assumption |].
    apply dsegb_sound, Hd.
  - intros i b Hi Hb. specialize (Hc i Hi). unfold class_okb in Hc.
    rewrite !andb_true_iff in Hc. destruct Hc as [[_ Hc] _].
    pose proof (forallb_elem _ _ b Hc Hb) as Hn. unfold node_okb in Hn.
    rewrite !andb_true_iff in Hn. destruct Hn as [[[[H1 H2] H3] H4] H5].
    split; auto; [apply Z.leb_le, H4 |].
    destruct (cells s !! HDRP b) as [w |]; [| discriminate].
    exists w. split; [reflexivity | apply Z.eqb_eq, H5].
  - intros i Hi. specialize (Hc i Hi). unfold class_okb in Hc.
    rewrite !andb_true_iff in Hc. destruct Hc as [_ Hc].
    apply bool_decide_eq_true in Hc. exact Hc.
  - intros i j b b' Hi Hj Hb Hb' Hne.
    pose proof (forallb_elem _ _ b Hfar (elem_all_nodes L i b Hi Hb)) as H1.
    pose proof (forallb_elem _ _ b' H1 (elem_all_nodes L j b' Hj Hb')) as H2.
    apply orb_true_iff in H2 as [H2 | H2]; [apply Z.eqb_eq in H2; contradiction |].
    unfold farb in H2. apply orb_true_iff in H2. unfold far.
    rewrite !Z.leb_le in H2. exact H2.
Qed.




Lemma lists_ok_set_brk s L b : lists_ok s L -> lists_ok (set_brk b s) L.
Proof.
  intros [H1 H2 H3 H4]. split; auto.
  intros i x Hi Hx. destruct (H2 i x Hi Hx) as [? ? ? ? ?]. split; assumption.
Qed.

Lemma extended_coalescible s L size sp pa :
  extensible_after s L size sp pa ->
  coalescible (extended s size) L (mem_brk s) size sp pa 0 1.
Proof.
  intros [Hex Hmin HL Hab Hpa Hpf Hph [Hp1 Hp2] Hpfree Hbelow].
  pose proof Hex as [[Hs1 Hs2] [Hr1 Hr2] (Hb1 & Hb2 & Hb3)].
  pose proof WSIZE_pos as HW.
  set (bp := mem_brk s) in *.
  assert (Hm : size mod WSIZE = 0).
  { apply Z.mod_divide in Hs2; [| unfold DSIZE; lia]. destruct Hs2 as [q ->].
    unfold DSIZE. replace (q * (2 * WSIZE)) with ((q * 2) * WSIZE) by lia.
    apply Z.mod_mul. lia. }
  assert (Hval : forall k, -1 <= k -> (k + 1) * WSIZE <= size ->
            valid_addr s (bp + k * WSIZE) = true).
  { intros k Hk1 Hk2. apply (extensible_valid s size); auto; try (fold bp; nia).
    fold bp. replace (bp + k * WSIZE - bp) with (k * WSIZE) by lia. apply Z.mod_mul. lia. }
  assert (V1 : valid_addr s (bp - WSIZE) = true).
  { replace (bp - WSIZE) with (bp + (-1) * WSIZE) by lia. apply Hval; unf; lia. }
  assert (V2 : valid_addr s (bp + size - 2 * WSIZE) = true).
  { apply Z.mod_divide in Hm; [| lia]. destruct Hm as [q Hq].
    replace (bp + size - 2 * WSIZE) with (bp + (q - 2) * WSIZE) by lia.
    apply Hval; unf; nia. }
  assert (V3 : valid_addr s (bp + size - WSIZE) = true).
  { apply Z.mod_divide in Hm; [| lia]. destruct Hm as [q Hq].
    replace (bp + size - WSIZE) with (bp + (q - 1) * WSIZE) by lia.
    apply Hval; unf; nia. }
  assert (Hnodes : forall j b, 0 <= j < 8 -> b ∈ L j -> b + 3 * WSIZE <= bp).
  { intros j b Hj Hb. unfold merged_start in Hbelow.
    destruct (decide (pa = 0 /\ b = bp - sp)) as [[-> ->] | Hn].
    - destruct (Hpfree eq_refl). unf. lia.
    - specialize (Hbelow j b Hj Hb). destruct (pa =? 0) eqn:E.
      + apply Z.eqb_eq in E. unf. assert (b <> bp - sp) by tauto. lia.
      + apply Z.eqb_neq in E. unf. assert (b + 2 * (2 * WSIZE) <= bp) by (apply Hbelow; tauto). lia. }
  unfold extended. fold bp. unf.
  split; unf.
  - split; assumption.
  - apply lists_ok_put;
      [apply lists_ok_put;
        [apply lists_ok_put;
          [replace (set_cells (cells s) (set_brk (bp + size) s)) with (set_brk (bp + size) s)
             by (destruct s; reflexivity); apply lists_ok_set_brk, HL | |] | |] | |];
      try (cbn; lia);
      intros j b Hj Hb; specialize (Hnodes j b Hj Hb); unf; lia.
  - apply holds_set_ne; [lia |]. apply holds_set_ne; [lia |]. apply holds_set_eq. exact V1.
  - apply holds_set_ne; [lia |]. apply holds_set_eq. exact V2.
  - split; assumption.
  - split; [replace bp with (bp + 0 * WSIZE) by lia | replace (bp + WSIZE) with (bp + 1 * WSIZE) by lia];
      (rewrite valid_set_cells; apply Hval; lia).
  - cbn. exact Hab.
  - split; [exact Hpa | right; reflexivity].
  - repeat (apply holds_set_ne; [lia |]). exact Hpf.
  - repeat (apply holds_set_ne; [lia |]). exact Hph.
  - split; [lia | assumption].
  - exact Hpfree.
  - apply holds_set_eq. exact V3.
  - split; [lia | apply Z.mod_0_l; lia].
  - discriminate.
  - intros j b Hj Hb Hne _. left. apply (Hbelow j b Hj Hb Hne).
Qed.

Lemma variant_extend_heap_spec s L words size sp pa :
  extensible_after s L size sp pa ->
  (if negb (words mod 2 =? 0)
   then wrap (wrap (words + 1) * WSIZE) else wrap (words * WSIZE)) = size ->
  exists s',
    Part001.extend_heap words s = Ok (merged_start (mem_brk s) sp pa) s' /\
    mem_brk s' = mem_brk s + size /\
    holds s' (HDRP (merged_start (mem_brk s) sp pa))
      (PACK (merged_size size sp pa 0 1) 0) /\
    holds s' (merged_start (mem_brk s) sp pa + merged_size size sp pa 0 1 - DSIZE)
      (PACK (merged_size size sp pa 0 1) 0) /\
    lists_ok s' (merged_lists L (mem_brk s) size sp pa 0 1).
Proof.
  intros Hxa Hsz.
  pose proof (extended_coalescible s L size sp pa Hxa) as Hco.
  pose proof (xa_room _ _ _ _ _ Hxa) as Hex.
  pose proof Hex as [[Hs1 Hs2] [Hr1 Hr2] (Hb1 & Hb2 & Hb3)].
  pose proof WSIZE_pos as HW.
  pose proof (proj1 (co_hdr _ _ _ _ _ _ _ _ Hco)) as V1.
  pose proof (proj1 (co_ftr _ _ _ _ _ _ _ _ Hco)) as V2.
  pose proof (proj1 (co_next_hdr _ _ _ _ _ _ _ _ Hco)) as V3.
  assert (Esz : size_bits (PACK size 0) = size).
  { apply size_bits_PACK; auto; unfold DSIZE in *; lia. }
  assert (Hwp : wp (Part001.extend_heap words) s (fun r s' =>
            r = merged_start (mem_brk s) sp pa /\
            same_arena (extended s size) s' /\
            holds s' (HDRP r) (PACK (merged_size size sp pa 0 1) 0) /\
            holds s' (r + merged_size size sp pa 0 1 - DSIZE)
              (PACK (merged_size size sp pa 0 1) 0) /\
            lists_ok s' (merged_lists L (mem_brk s) size sp pa 0 1))).
  { unfold Part001.extend_heap. rewrite Hsz. unfold FTRP, NEXT_BLKP, GET_SIZE.
    unfold extended in *. unf.
    wp_pure. apply wp_mem_sbrk; [lia | lia |].
    wp_put. wp_get (PACK size 0). rewrite Esz.
    wp_put. wp_get (PACK size 0). rewrite Esz.
    wp_put. apply (coalesce_spec _ _ _ _ _ _ _ _ Hco). }
  apply wp_Ok in Hwp as (r & s' & E & Hpost). cbv beta in Hpost.
  destruct Hpost as (-> & Hsa & H1 & H2 & H3).
  exists s'. split; [exact E |]. split; [| auto].
  destruct Hsa as (_ & -> & _). reflexivity.
Qed.

(** [memcpy_words k] copies exactly [k] words when the ranges do not
    overlap: the destination words carry the source contents and every
    other cell is left as it was. *)
Lemma memcpy_words_spec (k : nat) : forall dst src s,
  (forall j, 0 <= j < Z.of_nat k ->
     valid_addr s (src + j * WSIZE) = true /\ valid_addr s (dst + j * WSIZE) = true) ->
  dst + Z.of_nat k * WSIZE <= src \/ src + Z.of_nat k * WSIZE <= dst ->
  exists c',
    memcpy_words k dst src s = Ok tt (set_cells c' s) /\
    (forall j, 0 <= j < Z.of_nat k -> c' !! (dst + j * WSIZE) = cells s !! (src + j * WSIZE)) /\
    (forall a, (forall j, 0 <= j < Z.of_nat k -> a <> dst + j * WSIZE) -> c' !! a = cells s !! a).
Proof.
  pose proof WSIZE_pos as HW.
  induction k as [| k IH]; intros dst src s Hv Hdis.
  - exists (cells s). rewrite set_cells_same. split; [reflexivity |].
    split; [intros j Hj; lia | reflexivity].
  - destruct (Hv 0 ltac:(lia)) as [Hv1 Hv2].
    rewrite Z.mul_0_l, !Z.add_0_r in Hv1, Hv2.
    cbn [memcpy_words]. rewrite Hv1, Hv2. cbn [andb].
    set (c1 := match cells s !! src with
               | Some v => <[dst:=v]> (cells s)
               | None => delete dst (cells s)
               end).
    assert (Hc1 : c1 !! dst = cells s !! src).
    { unfold c1. destruct (cells s !! src) eqn:E;
        [apply lookup_insert_eq | apply lookup_delete_eq]. }
    assert (Hc1' : forall a, a <> dst -> c1 !! a = cells s !! a).
    { intros a Ha. unfold c1. destruct (cells s !! src);
        [apply lookup_insert_ne | apply lookup_delete_ne]; auto. }
    destruct (IH (dst + WSIZE) (src + WSIZE) (set_cells c1 s)) as (c' & E & Hcp & Hfr).
    + intros j Hj. rewrite !valid_set_cells.
      replace (src + WSIZE + j * WSIZE) with (src + (j + 1) * WSIZE) by lia.
      replace (dst + WSIZE + j * WSIZE) with (dst + (j + 1) * WSIZE) by lia.
      apply Hv. lia.
    + lia.
    + exists c'. rewrite set_cells_twice in E. split; [exact E |]. split.
      * intros j Hj. destruct (decide (j = 0)) as [-> | Hj0].
        -- rewrite Z.mul_0_l, !Z.add_0_r, Hfr; [exact Hc1 |].
           intros j' Hj'. nia.
        -- replace (dst + j * WSIZE) with (dst + WSIZE + (j - 1) * WSIZE) by lia.
           rewrite Hcp by lia. rewrite cells_set_cells.
           replace (src + WSIZE + (j - 1) * WSIZE) with (src + j * WSIZE) by lia.
           apply Hc1'. nia.
      * intros a Ha. rewrite Hfr.
        -- rewrite cells_set_cells. apply Hc1'.
           specialize (Ha 0 ltac:(lia)). lia.
        -- intros j Hj. specialize (Ha (j + 1) ltac:(lia)). lia.
Qed.

Lemma bind_Ok {A B} (m : M A) (k : A -> M B) s x s' :
  m s = Ok x s' -> bind m k s = k x s'.
Proof. intros E. unfold bind. rewrite E. reflexivity. Qed.

Lemma GET_SIZE_holds s p v : holds s p v -> GET_SIZE p s = Ok (size_bits v) s.
Proof.
  intros [Hv Hc]. unfold GET_SIZE, bind, GET. rewrite Hv, Hc. reflexivity.
Qed.

Lemma NEXT_BLKP_holds s bp v :
  holds s (HDRP bp) v -> NEXT_BLKP bp s = Ok (bp + size_bits v) s.
Proof.
  intros H. unfold NEXT_BLKP.
  change (bp - WSIZE) with (HDRP bp).
  rewrite (bind_Ok _ _ _ _ _ (GET_SIZE_holds s _ v H)). reflexivity.
Qed.

Lemma valid_addr_offset s a j :
  valid_addr s a = true -> 0 <= j -> a + (j + 1) * WSIZE <= mem_max_addr s ->
  valid_addr s (a + j * WSIZE) = true.
Proof.
  rewrite !valid_addr_spec. intros (H1 & H2 & H3) Hj Hm. pose proof WSIZE_pos.
  repeat split; [nia | lia |].
  replace (a + j * WSIZE - mem_start_brk s) with (a - mem_start_brk s + j * WSIZE) by lia.
  rewrite Z.mod_add by lia. exact H3.
Qed.

Lemma realloc_relocates fuel s ptr size w wn newptr s1 :
  holds s (HDRP ptr) w -> 0 <= w < modulus ->
  size <> 0 -> ptr <> NULL ->
  size_bits w < adjust_size size ->
  holds s (HDRP (ptr + size_bits w)) wn -> size_bits wn <> 0 ->
  mm_malloc fuel size s = Ok newptr s1 ->
  valid_addr s1 ptr = true -> valid_addr s1 newptr = true ->
  ptr + size_bits w <= mem_max_addr s1 -> newptr + size_bits w <= mem_max_addr s1 ->
  newptr + size_bits w <= ptr \/ ptr + size_bits w <= newptr ->
  exists c2,
    memcpy newptr ptr (size_bits w) s1 = Ok tt (set_cells c2 s1) /\
    (forall j, 0 <= j < size_bits w / WSIZE ->
       c2 !! (newptr + j * WSIZE) = cells s1 !! (ptr + j * WSIZE)) /\
    (forall a, (forall j, 0 <= j < size_bits w / WSIZE -> a <> newptr + j * WSIZE) ->
       c2 !! a = cells s1 !! a) /\
    mm_realloc fuel ptr size s = (mm_free ptr ;; ret newptr) (set_cells c2 s1).
Proof.
  intros Hh Hw Hsz Hptr Hgrow Hnh Hns Hmal Hv1 Hv2 Hm1 Hm2 Hdis.
  pose proof WSIZE_pos as HW.
  set (old := size_bits w) in *.
  assert (Hold : 0 <= old /\ old mod DSIZE = 0).
  { split; [apply size_bits_range; exact Hw | apply size_bits_aligned; exact Hw]. }
  destruct Hold as [Ho1 Ho2].
  assert (Hq : exists q, old = q * WSIZE /\ 0 <= q).
  { apply Z.mod_divide in Ho2; [| unfold DSIZE; lia]. destruct Ho2 as [q Hq].
    exists (q * 2). unfold DSIZE in Hq. split; [lia | nia]. }
  destruct Hq as (q & Hq & Hq0).
  assert (Hdiv : old / WSIZE = q) by (rewrite Hq; apply Z.div_mul; lia).
  assert (Hk : Z.of_nat (Z.to_nat (old / WSIZE)) = q) by (rewrite Hdiv; lia).
  destruct (memcpy_words_spec (Z.to_nat (old / WSIZE)) newptr ptr s1) as (c2 & E & Hcp & Hfr).
  { rewrite Hk. intros j Hj. split; apply valid_addr_offset; auto; nia. }
  { rewrite Hk. lia. }
  rewrite Hk in Hcp, Hfr. rewrite Hdiv.
  exists c2. split; [exact E |]. split; [exact Hcp |]. split; [exact Hfr |].
  unfold mm_realloc.
  rewrite (bind_Ok _ _ _ _ _ (GET_SIZE_holds s _ w Hh)). fold old.
  replace (size =? 0) with false by (symmetry; apply Z.eqb_neq; exact Hsz).
  replace (ptr =? NULL) with false by (symmetry; apply Z.eqb_neq; exact Hptr).
  replace (adjust_size size <=? old) with false by (symmetry; apply Z.leb_gt; exact Hgrow).
  rewrite (bind_Ok _ _ _ _ _ (NEXT_BLKP_holds s _ w Hh)). fold old.
  rewrite (bind_Ok _ _ _ _ _ (GET_SIZE_holds s _ wn Hnh)).
  replace (size_bits wn =? 0) with false by (symmetry; apply Z.eqb_neq; exact Hns).
  rewrite (bind_Ok _ _ _ _ _ Hmal).
  unfold memcpy. rewrite (bind_Ok _ _ _ _ _ E). reflexivity.
Qed.

(** * The claims *)

Lemma ceil_div_spec a b :
  0 < b -> b * (ceil_div a b - 1) < a <= b * ceil_div a b.
Proof.
  intros Hb. unfold ceil_div.
  pose proof (Z.mul_div_le (a + b - 1) b Hb).
  pose proof (Z.mul_succ_div_gt (a + b - 1) b Hb). lia.
Qed.

Lemma classes_from_elem s L idx b :
  lists_ok s L -> 0 <= idx -> b ∈ classes_from L idx -> b <> NULL.
Proof.
  intros HL Hidx Hb. unfold classes_from in Hb.
  apply list_elem_of_In, in_concat in Hb as (l & Hl & Hb).
  apply list_elem_of_In, list_elem_of_fmap in Hl as (i & -> & Hi).
  apply elem_of_seqZ in Hi.
  destruct (lo_heads _ _ HL i ltac:(lia)) as (h & _ & Hseg).
  apply (dseg_nonnull _ _ _ _ _ b Hseg). apply list_elem_of_In, Hb.
Qed.

Lemma first_fit_null_iff s asize l :
  (forall b, b ∈ l -> b <> NULL) ->
  first_fit s asize l = NULL <-> forall b, b ∈ l -> blk_size s b < asize.
Proof.
  intros Hnz. split.
  - intros E b Hb. apply first_fit_null in E; [| exact Hnz].
    apply list_elem_of_In in Hb. apply (List.find_none _ _ E) in Hb.
    rewrite Z.geb_leb in Hb. apply Z.leb_gt in Hb. exact Hb.
  - intros Hall. unfold first_fit.
    destruct (List.find _ l) as [x |] eqn:E; [| reflexivity].
    apply List.find_some in E as [Hin Hx]. apply list_elem_of_In in Hin.
    specialize (Hall x Hin). rewrite Z.geb_leb in Hx. apply Z.leb_le in Hx. lia.
Qed.

(** C8 (as amended).  For every requested payload size whose adjustment
    does not wrap around in [size_t], that is [size + 2*DSIZE - 1] is below
    the word modulus, the adjusted block size equals [2*DSIZE] when the
    request is at most [DSIZE] and otherwise [DSIZE] times the ceiling of
    [(size + DSIZE) / DSIZE]; it is at least the minimum block size and a
    multiple of [DSIZE]. *)
Theorem adjust_size_in_range size :
  0 <= size -> size + 2 * DSIZE - 1 < modulus ->
  adjust_size size = adjust_by_spec size /\
  2 * DSIZE <= adjust_size size /\
  adjust_size size mod DSIZE = 0.
Proof.
  intros H0 H1. rewrite adjust_size_no_wrap by assumption.
  destruct (adjust_by_spec_bounds size H0) as (? & ? & _). auto.
Qed.

(** C9.  When [mm_malloc] is called with a request whose adjusted size
    equals the recorded [failedsize], it performs no fit search at all, for
    it succeeds whatever the search budget, even none: it extends the heap
    by exactly the adjusted size and stamps the new block allocated as a
    whole; the break and five words are all that changes. *)
Theorem malloc_repeated_miss_extends fuel s size :
  0 < size -> size + 2 * DSIZE - 1 < modulus ->
  adjust_size size = failedsize s ->
  extensible s (adjust_size size) ->
  mm_malloc fuel size s =
  Ok (mem_brk s)
     (allocated_whole (extended s (adjust_size size)) (mem_brk s) (adjust_size size)).
Proof. apply malloc_after_miss. Qed.

(** C7.  For every [asize], [find_fit] starts at the class of [asize],
    scans that class's list in list order, then the lists of the higher
    classes, and returns the first block whose recorded size is at least
    [asize]; it returns [NULL] exactly when no block of these lists is large
    enough.  The heap is left as it was. *)
Theorem find_fit_first_fit s L fuel asize :
  lists_ok s L ->
  (forall i, find_list asize <= i < 8 -> (length (L i) < fuel)%nat) ->
  find_fit fuel asize s
  = Ok (first_fit s asize (classes_from L (find_list asize))) s /\
  (first_fit s asize (classes_from L (find_list asize)) = NULL <->
   forall b, b ∈ classes_from L (find_list asize) -> blk_size s b < asize).
Proof.
  intros HL Hfuel. split; [apply find_fit_spec; assumption |].
  apply first_fit_null_iff. intros b Hb.
  pose proof (find_list_range asize).
  apply (classes_from_elem s L (find_list asize)); auto; lia.
Qed.

(** C6.  [coalesce], applied to a block whose header and footer are marked
    free and which is on no free list, follows the four-case table: it
    unlinks each free neighbour, returns the payload of the lower neighbour
    when that one is free and of the block itself otherwise, leaves header
    and footer of the result encoding the sum of the merged sizes with
    allocated bit 0, and inserts the result at the head of the list of its
    class. *)
Theorem coalesce_four_cases s L bp sz sp pa sn na :
  coalescible s L bp sz sp pa sn na ->
  exists s',
    coalesce bp s = Ok (merged_start bp sp pa) s' /\
    holds s' (HDRP (merged_start bp sp pa)) (PACK (merged_size sz sp pa sn na) 0) /\
    holds s' (merged_start bp sp pa + merged_size sz sp pa sn na - DSIZE)
      (PACK (merged_size sz sp pa sn na) 0) /\
    lists_ok s' (merged_lists L bp sz sp pa sn na).
Proof.
  intros Hco. pose proof (coalesce_spec _ _ _ _ _ _ _ _ Hco) as Hwp.
  apply wp_Ok in Hwp as (r & s' & E & Hpost). cbv beta in Hpost.
  destruct Hpost as (-> & _ & H1 & H2 & H3). exists s'. auto.
Qed.

(** * Further properties of the code *)

(** ** Words, classes and sizes *)

(** X1.  Packing and unpacking: a size that is a multiple of [DSIZE] and an
    allocated bit, packed into a word, are what [GET_SIZE] and [GET_ALLOC]
    extract from that word. *)
Theorem PACK_fields_round_trip sz a :
  0 <= sz -> sz + 1 < modulus -> sz mod DSIZE = 0 -> a = 0 \/ a = 1 ->
  size_bits (PACK sz a) = sz /\ alloc_bit (PACK sz a) = a.
Proof.
  intros H0 H1 H2 Ha. split.
  - apply size_bits_PACK; assumption.
  - apply alloc_bit_PACK; assumption.
Qed.

(** X2.  The size field of any word is a multiple of [DSIZE] not above the
    word, and it is the largest such: the three low bits (four on a 64-bit
    build) never reach a size. *)
Theorem size_field_rounds_down w :
  0 <= w < modulus ->
  size_bits w mod DSIZE = 0 /\ size_bits w <= w < size_bits w + DSIZE.
Proof.
  intros Hw. split; [apply size_bits_aligned; exact Hw |].
  rewrite (size_bits_spec w Hw).
  assert (HD : 0 < DSIZE) by (pose proof WSIZE_pos; unfold DSIZE; lia).
  pose proof (Z.mul_div_le w DSIZE HD).
  pose proof (Z.mul_succ_div_gt w DSIZE HD). lia.
Qed.

(** X3.  The size classes: [find_list] is monotone, and for the classes
    0 to 6 a size belongs to class [i] or a lower one exactly when it is at
    most [64 * 2^i]; class 7 takes everything above 4096. *)
Theorem find_list_buckets :
  (forall a b, a <= b -> find_list a <= find_list b) /\
  (forall x i, 0 <= i < 7 -> (find_list x <= i <-> x <= 64 * 2 ^ i)) /\
  (forall x, find_list x = 7 <-> 4096 < x).
Proof.
  split; [| split].
  - intros a b Hab. unfold find_list.
    repeat match goal with
           | |- context [?u <=? ?v] => destruct (Z.leb_spec u v)
           end; lia.
  - intros x i Hi.
    assert (Hc : i = 0 \/ i = 1 \/ i = 2 \/ i = 3 \/ i = 4 \/ i = 5 \/ i = 6) by lia.
    unfold find_list.
    destruct Hc as [-> | [-> | [-> | [-> | [-> | [-> | ->]]]]]];
      cbn [Z.pow Z.pow_pos Pos.iter Z.mul Pos.mul];
      repeat match goal with
             | |- context [?u <=? ?v] => destruct (Z.leb_spec u v)
             end; lia.
  - intros x. unfold find_list.
    repeat match goal with
           | |- context [?u <=? ?v] => destruct (Z.leb_spec u v)
           end; lia.
Qed.

(** X4.  In the range where the adjustment does not wrap around, the
    adjusted block has room for the requested payload and the two boundary
    words, and wastes less than three double words. *)
Theorem adjusted_block_holds_payload size :
  0 <= size -> size + 2 * DSIZE - 1 < modulus ->
  size + DSIZE <= adjust_size size < size + 3 * DSIZE.
Proof.
  intros H0 H1. rewrite adjust_size_no_wrap by assumption.
  destruct (adjust_by_spec_bounds size H0) as (_ & _ & H). exact H.
Qed.

(** X5.  The adjustment is monotone in the request, in the range where it
    does not wrap around. *)
Theorem adjust_size_monotone a b :
  0 <= a <= b -> b + 2 * DSIZE - 1 < modulus ->
  adjust_size a <= adjust_size b.
Proof.
  intros Hab Hb.
  rewrite !adjust_size_no_wrap by lia.
  assert (HD : 0 < DSIZE) by (pose proof WSIZE_pos; unfold DSIZE; lia).
  unfold adjust_by_spec, ceil_div.
  destruct (Z.leb_spec a DSIZE), (Z.leb_spec b DSIZE); try lia.
  - assert (H2 : DSIZE * 2 <= b + DSIZE + DSIZE - 1) by lia.
    pose proof (Z.div_le_lower_bound (b + DSIZE + DSIZE - 1) DSIZE 2 HD H2). nia.
  - assert (H2 : a + DSIZE + DSIZE - 1 <= b + DSIZE + DSIZE - 1) by lia.
    pose proof (Z.div_le_mono _ _ DSIZE HD H2). nia.
Qed.

(** ** Boundary tags *)

(** X6.  Boundary tags allow to walk back: from a block whose footer repeats
    its header, the block before the next block is the block itself, and
    neither step writes to the heap. *)
Theorem next_then_prev_block s bp w :
  holds s (HDRP bp) w ->
  holds s (bp + size_bits w - DSIZE) w ->
  (do n <- NEXT_BLKP bp ; PREV_BLKP n) s = Ok bp s.
Proof.
  intros Hh Hf.
  rewrite (bind_Ok _ _ _ _ _ (NEXT_BLKP_holds s bp w Hh)).
  unfold PREV_BLKP.
  rewrite (bind_Ok _ _ _ _ _ (GET_SIZE_holds s _ w Hf)).
  unfold ret. f_equal. lia.
Qed.

(** ** The heap extender *)

(** X7.  [extend_heap] keeps the heap double-word aligned: an odd number of
    words is treated as the next even number. *)
Theorem extend_heap_rounds_odd_up words s :
  0 <= words -> words mod 2 = 1 -> (words + 1) * WSIZE < modulus ->
  extend_heap words s = extend_heap (words + 1) s.
Proof.
  intros H0 Hodd Hsmall. unfold extend_heap.
  assert (Hev : (words + 1) mod 2 = 0).
  { rewrite <- Zplus_mod_idemp_l, Hodd. reflexivity. }
  rewrite Hodd, Hev. cbn [Z.eqb negb].
  pose proof WSIZE_pos.
  rewrite (wrap_small (words + 1)) by nia. reflexivity.
Qed.

(** X8.  When the arena cannot grow by the rounded size, [extend_heap]
    returns [NULL] and changes nothing, not even the break. *)
Theorem extend_heap_out_of_memory words s :
  mem_max_addr s < mem_brk s + wrap ((words + words mod 2) * WSIZE) ->
  0 <= words -> (words + 1) * WSIZE < modulus ->
  extend_heap words s = Ok NULL s.
Proof.
  intros Hroom H0 Hsmall. unfold extend_heap.
  pose proof WSIZE_pos.
  assert (Hm : words mod 2 = 0 \/ words mod 2 = 1)
    by (pose proof (Z.mod_pos_bound words 2); lia).
  assert (Hsz : (if negb (words mod 2 =? 0)
                 then wrap (wrap (words + 1) * WSIZE) else wrap (words * WSIZE))
                = wrap ((words + words mod 2) * WSIZE)).
  { destruct Hm as [-> | ->]; cbn [Z.eqb negb].
    - f_equal. lia.
    - rewrite (wrap_small (words + 1)) by nia. reflexivity. }
  rewrite Hsz. cbv zeta. unfold bind, mem_sbrk.
  replace (mem_max_addr s <? mem_brk s + wrap ((words + words mod 2) * WSIZE))
    with true by (symmetry; apply Z.ltb_lt; exact Hroom).
  rewrite orb_true_r. reflexivity.
Qed.

(** ** The free lists *)

Lemma lists_ok_ext s L L' :
  lists_ok s L -> (forall i, 0 <= i < 8 -> L' i = L i) -> lists_ok s L'.
Proof.
  intros [Hh Hn Hd Hf] E. constructor.
  - intros i Hi. rewrite (E i Hi). apply Hh, Hi.
  - intros i b Hi. rewrite (E i Hi). apply Hn, Hi.
  - intros i Hi. rewrite (E i Hi). apply Hd, Hi.
  - intros i j b b' Hi Hj. rewrite (E i Hi), (E j Hj). apply Hf; assumption.
Qed.

(** X9.  [insert_free] pushes the block in front of the list of its class
    and keeps the order of the blocks behind it; the other lists are as
    they were, and the only words written are the list head, the two link
    words of the block and the [prev] link of the former head. *)
Theorem insert_free_pushes_front s L asize b :
  lists_ok s L ->
  node_ok s (find_list asize) b ->
  b <> NULL ->
  (forall j b', 0 <= j < 8 -> b' ∈ L j -> far b b') ->
  exists s',
    insert_free asize b s = Ok tt s' /\ same_arena s s' /\
    lists_ok s' (fl_cons (find_list asize) b L) /\
    (forall a, a <> free_listp s + find_list asize * WSIZE ->
       a <> prev_field b -> a <> next_field b ->
       (forall h, head (L (find_list asize)) = Some h -> a <> prev_field h) ->
       cells s' !! a = cells s !! a).
Proof.
  intros HL Hb Hnz Hfar.
  pose proof (insert_free_spec s L asize b HL Hb Hnz Hfar) as Hwp.
  apply wp_Ok in Hwp as ([] & s' & E & Hpost). exists s'. split; [exact E | exact Hpost].
Qed.

(** X10.  [remove_free] unlinks a listed block wherever it stands, first,
    last or in the middle, without walking the list: the blocks that
    remain keep their order, the other lists are as they were, and apart
    from the list head only link words of the other blocks of that list
    are written. *)
Theorem remove_free_unlinks s L b c :
  lists_ok s L -> 0 <= c < 8 -> b ∈ L c ->
  exists s',
    remove_free b s = Ok tt s' /\ same_arena s s' /\
    lists_ok s' (fl_remove c b L) /\
    (forall a, a <> free_listp s + c * WSIZE ->
       (forall x, x ∈ L c -> x <> b -> a <> prev_field x /\ a <> next_field x) ->
       cells s' !! a = cells s !! a).
Proof.
  intros HL Hc Hb.
  pose proof (remove_free_spec s L b c HL Hc Hb) as Hwp.
  apply wp_Ok in Hwp as ([] & s' & E & Hpost). exists s'. split; [exact E | exact Hpost].
Qed.

(** X11.  Insertion followed by removal of the same block gives back the
    lists there were. *)
Theorem insert_then_remove_restores_lists s L asize b :
  lists_ok s L ->
  node_ok s (find_list asize) b ->
  b <> NULL ->
  (forall j b', 0 <= j < 8 -> b' ∈ L j -> far b b') ->
  exists s',
    (insert_free asize b ;; remove_free b) s = Ok tt s' /\
    same_arena s s' /\ lists_ok s' L.
Proof.
  intros HL Hb Hnz Hfar.
  pose proof (find_list_range asize) as Hc.
  pose proof (insert_free_spec s L asize b HL Hb Hnz Hfar) as Hwp.
  apply wp_Ok in Hwp as ([] & s1 & E1 & Hs1 & HL1 & _).
  assert (Hin : b ∈ fl_cons (find_list asize) b L (find_list asize)).
  { unfold fl_cons. rewrite decide_True by reflexivity. left. }
  pose proof (remove_free_spec s1 _ b _ HL1 Hc Hin) as Hwp.
  apply wp_Ok in Hwp as ([] & s2 & E2 & Hs2 & HL2 & _).
  exists s2. split; [| split].
  - rewrite (bind_Ok _ _ _ _ _ E1). exact E2.
  - apply (same_arena_trans _ _ _ Hs1 Hs2).
  - apply (lists_ok_ext _ _ _ HL2). intros i Hi. symmetry.
    unfold fl_remove, fl_cons. destruct (decide (i = find_list asize)) as [-> |]; [| reflexivity].
    rewrite filter_cons_False by (intros H; apply H; reflexivity).
    apply filter_all. intros x Hx. apply not_eq_sym, far_ne. apply (Hfar _ _ Hc Hx).
Qed.

(** ** Initialisation *)

(** X12.  On a fresh arena with room for 15 words [mm_init] returns 0 and
    lays out the padding word, the prologue, and the block of 10 words
    that holds the eight list heads; it does not touch [failedsize], and
    all eight lists are empty.  The break is 14 words above the start. *)
Theorem mm_init_layout s :
  mem_brk s = mem_start_brk s ->
  mem_start_brk s + 15 * WSIZE <= mem_max_addr s ->
  mem_max_addr s < modulus -> 0 <= mem_start_brk s ->
  exists s',
    mm_init s = Ok 0 s' /\
    mem_brk s' = mem_start_brk s + 14 * WSIZE /\
    heap_listp s' = mem_start_brk s + 2 * WSIZE /\
    free_listp s' = mem_start_brk s + 4 * WSIZE /\
    failedsize s' = failedsize s /\
    holds s' (HDRP (heap_listp s')) (PACK DSIZE 1) /\
    holds s' (heap_listp s') (PACK DSIZE 1) /\
    holds s' (HDRP (free_listp s')) (PACK (10 * WSIZE) 1) /\
    holds s' (free_listp s' + 10 * WSIZE - DSIZE) (PACK (10 * WSIZE) 1) /\
    lists_ok s' no_lists.
Proof.
  intros Hb Hroom Hmax Hst.
  pose proof (mm_init_spec s Hb Hroom Hmax Hst) as Hwp.
  apply wp_Ok in Hwp as (r & s' & E & Hpost). cbv beta in Hpost.
  destruct Hpost as (-> & _ & _ & Hbrk & Hfl & Hhl & Hfs & H1 & H2 & H3 & H12 & _ & _ & HL).
  exists s'. rewrite Hfl, Hhl. unfold HDRP, DSIZE.
  replace (mem_start_brk s + 2 * WSIZE - WSIZE) with (mem_start_brk s + 1 * WSIZE) by lia.
  replace (mem_start_brk s + 4 * WSIZE - WSIZE) with (mem_start_brk s + 3 * WSIZE) by lia.
  replace (mem_start_brk s + 4 * WSIZE + 10 * WSIZE - 2 * WSIZE)
    with (mem_start_brk s + 12 * WSIZE) by lia.
  repeat (split; [assumption || reflexivity |]). exact HL.
Qed.

(** X13.  When the arena has no room for the first four words, [mm_init]
    returns -1 and writes nothing; [heap_listp] is left holding the
    failure sentinel of the provider. *)
Theorem mm_init_no_room s :
  mem_max_addr s < mem_brk s + 4 * WSIZE ->
  mm_init s = Ok (-1) (set_heap_listp (wrap (-1)) s).
Proof.
  intros Hroom. unfold mm_init, bind, mem_sbrk.
  replace (mem_max_addr s <? mem_brk s + 4 * WSIZE) with true
    by (symmetry; apply Z.ltb_lt; exact Hroom).
  rewrite orb_true_r. reflexivity.
Qed.

(** X14.  When the first four words fit and the ten words of list heads do
    not, [mm_init] returns -1 as well, and undoes nothing: the break stays
    four words up, the prologue and the first epilogue stay written and
    [heap_listp] points at the prologue. *)
Theorem mm_init_second_request_fails s :
  mem_brk s = mem_start_brk s -> 0 <= mem_start_brk s ->
  mem_start_brk s + 4 * WSIZE <= mem_max_addr s < mem_start_brk s + 14 * WSIZE ->
  exists s',
    mm_init s = Ok (-1) s' /\
    mem_brk s' = mem_start_brk s + 4 * WSIZE /\
    heap_listp s' = mem_start_brk s + 2 * WSIZE /\
    free_listp s' = free_listp s /\
    holds s' (mem_start_brk s + 1 * WSIZE) (PACK DSIZE 1) /\
    holds s' (mem_start_brk s + 2 * WSIZE) (PACK DSIZE 1) /\
    holds s' (mem_start_brk s + 3 * WSIZE) (PACK 0 1).
Proof.
  intros Hb Hst Hroom. pose proof WSIZE_pos as HW.
  assert (Hwp : wp mm_init s (fun r s' =>
    r = -1 /\ mem_brk s' = mem_start_brk s + 4 * WSIZE /\
    heap_listp s' = mem_start_brk s + 2 * WSIZE /\
    free_listp s' = free_listp s /\
    holds s' (mem_start_brk s + 1 * WSIZE) (PACK DSIZE 1) /\
    holds s' (mem_start_brk s + 2 * WSIZE) (PACK DSIZE 1) /\
    holds s' (mem_start_brk s + 3 * WSIZE) (PACK 0 1))).
  { destruct s as [st br mx c fl hl fs].
    cbn [mem_brk mem_start_brk mem_max_addr failedsize cells free_listp] in *. subst br.
    unfold mm_init.
    wp_pure. apply wp_mem_sbrk; rec_simpl; [lia | lia |].
    wp_pure. rec_simpl.
    put_word 0. put_word 1. put_word 2. put_word 3.
    wp_pure. rec_simpl.
    apply wp_mem_sbrk_fail; rec_simpl; [lia |].
    wp_pure.
    repeat (split; [first [lia | reflexivity] |]).
    split; [| split]; apply conj.
    + apply (valid_word _ _ 1); cbn; lia.
    + cbn; mlook; reflexivity.
    + apply (valid_word _ _ 2); cbn; lia.
    + cbn; mlook; reflexivity.
    + apply (valid_word _ _ 3); cbn; lia.
    + cbn; mlook; reflexivity. }
  apply wp_Ok in Hwp as (r & s' & E & Hpost). cbv beta in Hpost.
  destruct Hpost as (-> & Hpost). exists s'. split; [exact E | exact Hpost].
Qed.

(** ** Allocation without a fit *)

Lemma extend_heap_no_room s words size :
  (if negb (words mod 2 =? 0)
   then wrap (wrap (words + 1) * WSIZE) else wrap (words * WSIZE)) = size ->
  mem_max_addr s < mem_brk s + size ->
  extend_heap words s = Ok NULL s.
Proof.
  intros Hsz Hroom. unfold extend_heap. rewrite Hsz. cbv zeta.
  unfold bind, mem_sbrk.
  replace (mem_max_addr s <? mem_brk s + size) with true
    by (symmetry; apply Z.ltb_lt; exact Hroom).
  rewrite orb_true_r. reflexivity.
Qed.

Lemma bind_gets {A B} (f : state -> A) (k : A -> M B) s :
  bind (gets f) k s = k (f s) s.
Proof. reflexivity. Qed.

Lemma bind_modify {B} (f : state -> state) (k : unit -> M B) s :
  bind (modify f) k s = k tt (f s).
Proof. reflexivity. Qed.

Lemma set_failedsize_same s : set_failedsize (failedsize s) s = s.
Proof. destruct s; reflexivity. Qed.

Lemma find_fit_miss s L fuel asize :
  lists_ok s L ->
  (forall i, find_list asize <= i < 8 -> (length (L i) < fuel)%nat) ->
  (forall b, b ∈ classes_from L (find_list asize) -> blk_size s b < asize) ->
  find_fit fuel asize s = Ok NULL s.
Proof.
  intros HL Hfuel Hmiss. rewrite (find_fit_spec s L fuel asize HL Hfuel).
  f_equal. apply first_fit_null_iff; [| exact Hmiss].
  intros b Hb. pose proof (find_list_range asize).
  apply (classes_from_elem s L (find_list asize)); auto; lia.
Qed.

Lemma malloc_oom_spec fuel s L size :
  0 < size -> size + 2 * DSIZE - 1 < modulus ->
  lists_ok s L ->
  (forall i, find_list (adjust_size size) <= i < 8 -> (length (L i) < fuel)%nat) ->
  (forall b, b ∈ classes_from L (find_list (adjust_size size)) ->
     blk_size s b < adjust_size size) ->
  mem_max_addr s < mem_brk s + adjust_size size ->
  mm_malloc fuel size s = Ok NULL (set_failedsize (adjust_size size) s).
Proof.
  intros H0 H1 HL Hfuel Hmiss Hroom.
  destruct (adjust_size_facts size H0 H1) as ([Ha1 Ha2] & Ha3).
  pose proof WSIZE_pos as HW.
  assert (Hw : (if negb ((adjust_size size / WSIZE) mod 2 =? 0)
                then wrap (wrap (adjust_size size / WSIZE + 1) * WSIZE)
                else wrap (adjust_size size / WSIZE * WSIZE)) = adjust_size size).
  { apply even_words; [unfold DSIZE in *; lia | exact Ha3]. }
  unfold mm_malloc.
  replace (size =? 0) with false by (symmetry; apply Z.eqb_neq; lia).
  cbv zeta. unfold bind at 1. unfold gets.
  destruct (Z.eqb_spec (adjust_size size) (failedsize s)) as [E | NE].
  - rewrite (bind_Ok _ _ _ _ _ (extend_heap_no_room s _ _ Hw Hroom)).
    rewrite Z.eqb_refl. rewrite E, set_failedsize_same. reflexivity.
  - rewrite (bind_Ok _ _ _ _ _ (find_fit_miss s L fuel _ HL Hfuel Hmiss)).
    rewrite Z.eqb_refl. cbn [negb]. unfold bind at 1. unfold modify.
    assert (Hroom' : mem_max_addr (set_failedsize (adjust_size size) s)
                     < mem_brk (set_failedsize (adjust_size size) s) + adjust_size size)
      by exact Hroom.
    rewrite (bind_Ok _ _ _ _ _ (extend_heap_no_room _ _ _ Hw Hroom')).
    rewrite Z.eqb_refl. reflexivity.
Qed.

(** X15.  Out of memory: when no listed block of the class of the request
    or above is large enough and the arena cannot grow by the adjusted
    size, [mm_malloc] returns [NULL]; no word of the heap is written and
    the break stays, only [failedsize] records the adjusted size. *)
Theorem malloc_out_of_memory fuel s L size :
  0 < size -> size + 2 * DSIZE - 1 < modulus ->
  lists_ok s L ->
  (forall i, find_list (adjust_size size) <= i < 8 -> (length (L i) < fuel)%nat) ->
  (forall b, b ∈ classes_from L (find_list (adjust_size size)) ->
     blk_size s b < adjust_size size) ->
  mem_max_addr s < mem_brk s + adjust_size size ->
  mm_malloc fuel size s = Ok NULL (set_failedsize (adjust_size size) s).
Proof.
  intros H0 H1 HL Hfuel Hmiss Hroom.
  apply (malloc_oom_spec fuel s L size); assumption.
Qed.

Lemma malloc_miss_spec fuel s L size :
  0 < size -> size + 2 * DSIZE - 1 < modulus ->
  lists_ok s L ->
  (forall i, find_list (adjust_size size) <= i < 8 -> (length (L i) < fuel)%nat) ->
  (forall b, b ∈ classes_from L (find_list (adjust_size size)) ->
     blk_size s b < adjust_size size) ->
  adjust_size size <> failedsize s ->
  extensible s (adjust_size size) ->
  mm_malloc fuel size s =
  Ok (mem_brk s)
     (allocated_whole (extended (set_failedsize (adjust_size size) s) (adjust_size size))
        (mem_brk s) (adjust_size size)).
Proof.
  intros H0 H1 HL Hfuel Hmiss NE Hex.
  assert (Hex' : extensible (set_failedsize (adjust_size size) s) (adjust_size size)).
  { destruct Hex as [A B C]. constructor; assumption. }
  pose proof (malloc_after_miss fuel (set_failedsize (adjust_size size) s) size
                H0 H1 eq_refl Hex') as Hpath.
  change (mem_brk (set_failedsize (adjust_size size) s)) with (mem_brk s) in Hpath.
  rewrite <- Hpath. unfold mm_malloc.
  replace (size =? 0) with false by (symmetry; apply Z.eqb_neq; lia).
  cbv zeta. rewrite !bind_gets.
  change (failedsize (set_failedsize (adjust_size size) s)) with (adjust_size size).
  rewrite Z.eqb_refl.
  replace (adjust_size size =? failedsize s) with false
    by (symmetry; apply Z.eqb_neq; exact NE).
  rewrite (bind_Ok _ _ _ _ _ (find_fit_miss s L fuel _ HL Hfuel Hmiss)).
  rewrite Z.eqb_refl. cbn [negb]. rewrite bind_modify. reflexivity.
Qed.

(** X16.  A miss with room to grow: when no listed block is large enough,
    [mm_malloc] records the adjusted size in [failedsize], extends the heap
    by exactly that size and returns the new block, the old break, stamped
    allocated as a whole; the free lists are not written. *)
Theorem malloc_miss_extends fuel s L size :
  0 < size -> size + 2 * DSIZE - 1 < modulus ->
  lists_ok s L ->
  (forall i, find_list (adjust_size size) <= i < 8 -> (length (L i) < fuel)%nat) ->
  (forall b, b ∈ classes_from L (find_list (adjust_size size)) ->
     blk_size s b < adjust_size size) ->
  adjust_size size <> failedsize s ->
  extensible s (adjust_size size) ->
  mm_malloc fuel size s =
  Ok (mem_brk s)
     (allocated_whole (extended (set_failedsize (adjust_size size) s) (adjust_size size))
        (mem_brk s) (adjust_size size)).
Proof.
  intros H0 H1 HL Hfuel Hmiss NE Hex.
  apply (malloc_miss_spec fuel s L size); assumption.
Qed.

(** ** Reallocation in place *)

Lemma realloc_shrink_spec fuel s ptr size w :
  holds s (HDRP ptr) w -> size <> 0 -> ptr <> NULL ->
  adjust_size size <= size_bits w ->
  mm_realloc fuel ptr size s = Ok ptr s.
Proof.
  intros Hh Hsz Hp Hle. unfold mm_realloc.
  rewrite (bind_Ok _ _ _ _ _ (GET_SIZE_holds s _ w Hh)). cbv zeta.
  replace (size =? 0) with false by (symmetry; apply Z.eqb_neq; exact Hsz).
  replace (ptr =? NULL) with false by (symmetry; apply Z.eqb_neq; exact Hp).
  replace (adjust_size size <=? size_bits w) with true
    by (symmetry; apply Z.leb_le; exact Hle).
  reflexivity.
Qed.

(** X17.  A request that the block already satisfies: for a non-null [ptr]
    and a non-zero [size] whose adjusted size is at most the size in the
    header of [ptr], [mm_realloc] returns [ptr] and leaves the heap as it
    was; the block is not split. *)
Theorem realloc_keeps_large_enough_block fuel s ptr size w :
  holds s (HDRP ptr) w -> size <> 0 -> ptr <> NULL ->
  adjust_size size <= size_bits w ->
  mm_realloc fuel ptr size s = Ok ptr s.
Proof.
  intros Hh Hsz Hp Hle.
  apply (realloc_shrink_spec fuel s ptr size w); assumption.
Qed.

Lemma realloc_grow_spec fuel s ptr size w we :
  0 < size -> size + 2 * DSIZE - 1 < modulus ->
  ptr <> NULL ->
  holds s (HDRP ptr) w -> 0 <= w < modulus ->
  size_bits w < adjust_size size ->
  ptr + size_bits w = mem_brk s ->
  holds s (HDRP (mem_brk s)) we -> size_bits we = 0 ->
  extensible s (adjust_size size - size_bits w) ->
  mm_realloc fuel ptr size s
  = Ok ptr (allocated_whole (extended s (adjust_size size - size_bits w))
              ptr (adjust_size size)).
Proof.
  intros H0 H1 Hp Hh Hw Hlt Hend He He0 Hex.
  destruct (adjust_size_facts size H0 H1) as ([Ha1 Ha2] & Ha3).
  pose proof (size_bits_range w Hw) as Hr.
  pose proof Hex as [[Hs1 Hs2] [Hr1 Hr2] (Hb1 & Hb2 & Hb3)].
  pose proof WSIZE_pos as HW.
  set (asize := adjust_size size) in *.
  set (old := size_bits w) in *.
  pose proof (proj1 (valid_addr_spec _ _) (proj1 Hh)) as (Vh1 & _ & _).
  unfold HDRP in Vh1.
  assert (Esz1 : size_bits (PACK asize 1) = asize).
  { apply size_bits_PACK; auto; unfold DSIZE in *; lia. }
  assert (Hm : (asize - old) mod WSIZE = 0).
  { apply Z.mod_divide in Hs2; [| unfold DSIZE; lia]. destruct Hs2 as [q ->].
    unfold DSIZE. replace (q * (2 * WSIZE)) with ((q * 2) * WSIZE) by lia.
    apply Z.mod_mul. lia. }
  assert (Vh : valid_addr s (ptr - WSIZE) = true) by exact (proj1 Hh).
  assert (Vf : valid_addr s (ptr + asize - 2 * WSIZE) = true).
  { apply (extensible_valid s (asize - old)); auto; unfold DSIZE in *; try lia.
    replace (ptr + asize - 2 * WSIZE - mem_brk s) with (asize - old + (-2) * WSIZE) by lia.
    rewrite Z.mod_add by lia. exact Hm. }
  assert (Hwords : (if negb ((asize - old) / WSIZE mod 2 =? 0)
                    then wrap (wrap ((asize - old) / WSIZE + 1) * WSIZE)
                    else wrap ((asize - old) / WSIZE * WSIZE)) = asize - old).
  { apply even_words; [unfold DSIZE in *; lia | exact Hs2]. }
  assert (Hwp : wp (mm_realloc fuel ptr size) s
                  (fun r s' => r = ptr /\
                     s' = allocated_whole (extended s (asize - old)) ptr asize)).
  { unfold mm_realloc. fold asize. unfold NEXT_BLKP, FTRP, GET_SIZE.
    wp_get w. fold old. wp_pure.
    replace (size =? 0) with false by (symmetry; apply Z.eqb_neq; lia).
    replace (ptr =? NULL) with false by (symmetry; apply Z.eqb_neq; exact Hp).
    replace (asize <=? old) with false by (symmetry; apply Z.leb_gt; exact Hlt).
    change (ptr - WSIZE) with (HDRP ptr).
    wp_get w. fold old. wp_pure. rewrite Hend. wp_get we. rewrite He0.
    wp_pure. rewrite (wrap_small (asize - old)) by lia.
    apply (wp_extend_heap s _ (asize - old)); [exact Hex | exact Hwords |].
    unfold extended, allocated_whole. unf.
    wp_put. wp_get (PACK asize 1). rewrite Esz1.
    wp_put. wp_pure. split; reflexivity. }
  apply wp_Ok in Hwp as (r & s' & E & -> & ->). exact E.
Qed.

(** X18.  Growing the last block: when the block of [ptr] ends at the break
    (the word after it is the epilogue) and the arena has room for the
    difference between the adjusted size and the old size, [mm_realloc]
    extends the heap by exactly that difference, rewrites header and footer
    of the block with the adjusted size and returns [ptr]; the payload
    stays where it is and is not copied. *)
Theorem realloc_grows_last_block fuel s ptr size w we :
  0 < size -> size + 2 * DSIZE - 1 < modulus ->
  ptr <> NULL ->
  holds s (HDRP ptr) w -> 0 <= w < modulus ->
  size_bits w < adjust_size size ->
  ptr + size_bits w = mem_brk s ->
  holds s (HDRP (mem_brk s)) we -> size_bits we = 0 ->
  extensible s (adjust_size size - size_bits w) ->
  mm_realloc fuel ptr size s
  = Ok ptr (allocated_whole (extended s (adjust_size size - size_bits w))
              ptr (adjust_size size)).
Proof.
  intros H0 H1 Hp Hh Hw Hlt Hend He He0 Hex.
  apply (realloc_grow_spec fuel s ptr size w we); assumption.
Qed.

(** ** Placement *)

Lemma insert_merged_frame s L ret total :
  lists_ok s L ->
  0 <= mem_start_brk s ->
  holds s (HDRP ret) (PACK total 0) ->
  2 * DSIZE <= total -> total mod DSIZE = 0 -> total + 1 < modulus ->
  valid_addr s (prev_field ret) = true -> valid_addr s (next_field ret) = true ->
  free_listp s + 8 * WSIZE <= HDRP ret ->
  (forall j b, 0 <= j < 8 -> b ∈ L j -> b + 2 * DSIZE <= ret \/ ret + total <= b) ->
  wp (insert_free total ret) s (fun _ s' =>
    same_arena s s' /\
    lists_ok s' (fl_cons (find_list total) ret L) /\
    (forall a w, holds s a w -> free_listp s + 8 * WSIZE <= a ->
       a <> ret -> a <> ret + WSIZE ->
       (forall j b, 0 <= j < 8 -> b ∈ L j -> a <> b) -> holds s' a w)).
Proof.
  intros HL Hst Hh Ht1 Ht2 Ht3 Hv1 Hv2 Hab Hout.
  pose proof WSIZE_pos as HW.
  assert (Hsb : size_bits (PACK total 0) = total).
  { apply size_bits_PACK; auto. unf. lia. }
  assert (Hnz : ret <> NULL).
  { destruct Hh as [Hv _]. apply valid_addr_spec in Hv. unf. lia. }
  pose proof (find_list_range total) as Hc.
  eapply wp_mono.
  - apply (insert_free_spec s L total ret); auto.
    + split; auto; [apply Hh |]. exists (PACK total 0). split; [apply Hh | rewrite Hsb; reflexivity].
    + intros j b Hj Hb. destruct (Hout j b Hj Hb); unf; lia.
  - intros [] s' (Hsa & HL' & Hfr). cbv beta.
    split; [exact Hsa |]. split; [exact HL' |].
    intros a w Hw Ha Ha1 Ha2 Hne. apply (holds_frame s); auto.
    apply Hfr; unf; try lia; [nia |].
    intros h Hhd. apply (Hne (find_list total) h Hc).
    destruct (L (find_list total)); simplify_eq/=. left.
Qed.

Lemma place_listed_spec s L bp csize asize :
  placeable s L bp csize asize ->
  wp (place bp asize true) s (fun _ s' =>
    same_arena s s' /\ placed s' L bp csize asize).
Proof.
  intros [[Hst Hmx] HL Hh Hfv Hin ([Hs0 Hs1] & Hs2 & Hs3) Hout].
  pose proof WSIZE_pos as HW.
  pose proof (find_list_range csize) as Hc.
  destruct (lo_nodes _ _ HL _ _ Hc Hin) as [Hn1 Hn2 Hn3 Hn4 _].
  pose proof (proj1 (valid_addr_spec _ _) (proj1 Hh)) as Vh.
  pose proof (proj1 (valid_addr_spec _ _) Hfv) as Vf.
  assert (Hfl : mem_start_brk s <= free_listp s).
  { destruct (lo_heads _ _ HL 0 ltac:(lia)) as (h0 & [Hv0 _] & _).
    apply valid_addr_spec in Hv0. lia. }
  assert (Hcm : csize + 1 < modulus) by (unf; lia).
  assert (Ecs : size_bits (PACK csize 0) = csize) by (apply size_bits_PACK; auto; unf; lia).
  assert (Ecs1 : size_bits (PACK csize 1) = csize) by (apply size_bits_PACK; auto; unf; lia).
  assert (Eas : size_bits (PACK asize 1) = asize) by (apply size_bits_PACK; auto; unf; lia).
  assert (Hma : asize mod WSIZE = 0).
  { apply Z.mod_divide in Hs2; [| unfold DSIZE; lia]. destruct Hs2 as [q ->].
    unfold DSIZE. replace (q * (2 * WSIZE)) with ((q * 2) * WSIZE) by lia.
    apply Z.mod_mul. lia. }
  assert (Hval : forall k, 0 <= k -> (k + 1) * WSIZE <= csize ->
            valid_addr s (bp - WSIZE + k * WSIZE) = true).
  { intros k Hk1 Hk2. apply valid_addr_offset; [apply Hh | lia | unf; nia]. }
  unfold place, FTRP, NEXT_BLKP, GET_SIZE.
  wp_get (PACK csize 0). rewrite Ecs. wp_pure.
  apply (remove_listed s L bp (find_list csize)); auto.
  intros s1 Hsa1 HL1 Hfr1.
  assert (Hfl1 : free_listp s1 = free_listp s)
    by (destruct Hsa1 as (_ & _ & _ & -> & _); reflexivity).
  assert (Hst1 : 0 <= mem_start_brk s1) by (destruct Hsa1 as (-> & _); exact Hst).
  assert (Hval1 : forall k, 0 <= k -> (k + 1) * WSIZE <= csize ->
            valid_addr s1 (bp - WSIZE + k * WSIZE) = true).
  { intros k Hk1 Hk2. rewrite (valid_same s s1) by exact Hsa1. apply Hval; assumption. }
  assert (Hother : forall j y, 0 <= j < 8 -> y ∈ fl_remove (find_list csize) bp L j ->
            y + 2 * DSIZE <= bp \/ bp + csize <= y).
  { intros j y Hj Hy.
    destruct (fl_remove_elem s L _ _ j y HL Hc Hj Hin Hy) as [Hy1 Hy2].
    apply (Hout j y Hj Hy1 Hy2). }
  assert (Hput : forall a, bp - WSIZE <= a < bp + csize - WSIZE ->
            free_listp s + 8 * WSIZE <= a /\
            forall j y, 0 <= j < 8 -> y ∈ fl_remove (find_list csize) bp L j ->
              a <> HDRP y /\ a <> prev_field y /\ a <> next_field y).
  { intros a Ha. split; [unf; lia |]. intros j y Hj Hy.
    destruct (Hother j y Hj Hy); unf; lia. }
  assert (Hh1 : holds s1 (bp - WSIZE) (PACK csize 0)).
  { apply Hfr1; [exact Hh | exact Hn4 |]. intros y Hy Hyn.
    destruct (Hout _ y Hc Hy Hyn); unf; lia. }
  assert (V0 : valid_addr s1 (bp - WSIZE) = true) by apply Hh1.
  rewrite Z.geb_leb. unfold placed.
  destruct (Z.le_gt_cases (2 * DSIZE) (csize - asize)) as [Hsplit | Hwhole].
  - rewrite (wrap_small (csize - asize)) by (unfold DSIZE in *; lia).
    replace (2 * DSIZE <=? csize - asize) with true by (symmetry; apply Z.leb_le; exact Hsplit).
    assert (HWnz : WSIZE <> 0) by lia.
    destruct (Z.mod_divide asize WSIZE HWnz) as [Hdiv _].
    destruct (Hdiv Hma) as [q Hq].
    assert (Hmc : csize mod WSIZE = 0).
    { apply Z.mod_divide in Hs3; [| unfold DSIZE; lia]. destruct Hs3 as [q' ->].
      unfold DSIZE. replace (q' * (2 * WSIZE)) with ((q' * 2) * WSIZE) by lia.
      apply Z.mod_mul. lia. }
    destruct (Z.mod_divide csize WSIZE HWnz) as [Hdivc _].
    destruct (Hdivc Hmc) as [qc Hqc].
    assert (V1 : valid_addr s1 (bp + asize - 2 * WSIZE) = true).
    { replace (bp + asize - 2 * WSIZE) with (bp - WSIZE + (q - 1) * WSIZE) by lia.
      apply Hval1; unf; nia. }
    assert (V2 : valid_addr s1 (bp + asize - WSIZE) = true).
    { replace (bp + asize - WSIZE) with (bp - WSIZE + q * WSIZE) by lia.
      apply Hval1; unf; nia. }
    assert (V3 : valid_addr s1 (bp + asize + (csize - asize) - 2 * WSIZE) = true).
    { replace (bp + asize + (csize - asize) - 2 * WSIZE)
        with (bp - WSIZE + (qc - 1) * WSIZE) by lia.
      apply Hval1; unf; nia. }
    assert (V4 : valid_addr s1 (bp + asize) = true).
    { replace (bp + asize) with (bp - WSIZE + (q + 1) * WSIZE) by lia.
      apply Hval1; unf; nia. }
    assert (V5 : valid_addr s1 (bp + asize + WSIZE) = true).
    { replace (bp + asize + WSIZE) with (bp - WSIZE + (q + 2) * WSIZE) by lia.
      apply Hval1; unf; nia. }
    assert (Hrm : (csize - asize) mod DSIZE = 0).
    { replace (csize - asize) with (csize + (-1) * asize) by lia.
      apply aligned_add; [exact Hs3 |].
      rewrite Z.mul_mod by (unfold DSIZE; lia). rewrite Hs2, Z.mul_0_r.
      apply Z.mod_0_l. unfold DSIZE; lia. }
    assert (Erem : size_bits (PACK (csize - asize) 0) = csize - asize).
    { apply size_bits_PACK; auto; unf; lia. }
    unf.
    wp_put. wp_get (PACK asize 1). rewrite Eas. wp_pure.
    wp_put. wp_get (PACK asize 1). rewrite Eas. wp_pure.
    wp_put. wp_get (PACK (csize - asize) 0). rewrite Erem. wp_pure.
    wp_put.
    eapply wp_mono.
    + apply (insert_merged_frame _ (fl_remove (find_list csize) bp L)
               (bp + asize) (csize - asize)).
      * apply lists_ok_put; [apply lists_ok_put; [apply lists_ok_put;
          [apply lists_ok_put; [rewrite set_cells_same; exact HL1 | |] | |] | |] | |].
        all: try (rewrite ?Hfl1; unf; lia).
        all: intros j y Hj Hy; rewrite ?Hfl1;
          destruct (Hother j y Hj Hy); unf; lia.
      * exact Hst1.
      * apply holds_set. split; [assumption | unf; msimpl; reflexivity].
      * unf; lia.
      * exact Hrm.
      * unf; lia.
      * exact V4.
      * exact V5.
      * change (free_listp (set_cells _ s1)) with (free_listp s1). rewrite Hfl1. unf. lia.
      * intros j y Hj Hy. destruct (Hother j y Hj Hy); unf; lia.
    + intros [] s' (Hsa & HL' & Hfr). cbv beta.
      split; [apply (same_arena_trans s s1); [exact Hsa1 |];
              apply (same_arena_trans _ (set_cells
                (<[bp + asize + (csize - asize) - 2 * WSIZE := PACK (csize - asize) 0]>
                 (<[bp + asize - WSIZE := PACK (csize - asize) 0]>
                  (<[bp + asize - 2 * WSIZE := PACK asize 1]>
                   (<[bp - WSIZE := PACK asize 1]> (cells s1))))) s1));
              [apply same_arena_set_cells | exact Hsa] |].
      assert (Hk : forall a w,
                holds (set_cells
                  (<[bp + asize + (csize - asize) - 2 * WSIZE := PACK (csize - asize) 0]>
                   (<[bp + asize - WSIZE := PACK (csize - asize) 0]>
                    (<[bp + asize - 2 * WSIZE := PACK asize 1]>
                     (<[bp - WSIZE := PACK asize 1]> (cells s1))))) s1) a w ->
                bp - WSIZE <= a < bp + csize - WSIZE ->
                a <> bp + asize -> a <> bp + asize + WSIZE -> holds s' a w).
      { intros a w Hw Ha Ha1 Ha2. apply Hfr; auto.
        - change (free_listp (set_cells _ s1)) with (free_listp s1). rewrite Hfl1. unf. lia.
        - intros j y Hj Hy. destruct (Hother j y Hj Hy); unf; lia. }
      split; [| split; [| split; [| split; [| exact HL']]]].
      * apply Hk; [| unf; lia ..].
        apply holds_set. split; [assumption | msimpl; reflexivity].
      * apply Hk; [| unf; lia ..].
        apply holds_set. split; [assumption | msimpl; reflexivity].
      * apply Hk; [| unf; lia ..].
        apply holds_set. split; [assumption | msimpl; reflexivity].
      * replace (bp + csize - 2 * WSIZE) with (bp + asize + (csize - asize) - 2 * WSIZE) by lia.
        apply Hk; [| unf; lia ..].
        apply holds_set. split; [assumption | msimpl; reflexivity].
  - assert (Hw0 : wrap (csize - asize) = csize - asize) by (apply wrap_small; unfold DSIZE in *; lia).
    rewrite Hw0.
    replace (2 * DSIZE <=? csize - asize) with false by (symmetry; apply Z.leb_gt; exact Hwhole).
    assert (V3 : valid_addr s1 (bp + csize - 2 * WSIZE) = true).
    { rewrite (valid_same s s1) by exact Hsa1. exact Hfv. }
    unf.
    wp_put. wp_get (PACK csize 1). rewrite Ecs1. wp_pure.
    wp_put.
    split; [apply (same_arena_trans s s1); [exact Hsa1 | apply same_arena_set_cells] |].
    split; [| split].
    + apply holds_set. split; [assumption | msimpl; reflexivity].
    + apply holds_set. split; [assumption | msimpl; reflexivity].
    + apply lists_ok_put; [apply lists_ok_put; [rewrite set_cells_same; exact HL1 | |] | |].
      all: try (rewrite ?Hfl1; unf; lia).
      all: intros j y Hj Hy; rewrite ?Hfl1;
        destruct (Hother j y Hj Hy); unf; lia.
Qed.

(** X19.  [place], asked to take a listed block off its list, splits it
    when the remainder is at least a minimum block and takes it whole
    otherwise: see [placed]. *)
Theorem place_splits_or_takes_whole s L bp csize asize :
  placeable s L bp csize asize ->
  exists s',
    place bp asize true s = Ok tt s' /\ same_arena s s' /\
    placed s' L bp csize asize.
Proof.
  intros Hpl. pose proof (place_listed_spec s L bp csize asize Hpl) as Hwp.
  apply wp_Ok in Hwp as ([] & s' & E & Hpost). exists s'. split; [exact E | exact Hpost].
Qed.

Lemma malloc_hit_spec fuel s L size b csize :
  0 < size -> size + 2 * DSIZE - 1 < modulus ->
  adjust_size size <> failedsize s ->
  (forall i, find_list (adjust_size size) <= i < 8 -> (length (L i) < fuel)%nat) ->
  first_fit s (adjust_size size) (classes_from L (find_list (adjust_size size))) = b ->
  placeable s L b csize (adjust_size size) ->
  exists s',
    mm_malloc fuel size s = Ok b s' /\ same_arena s s' /\
    placed s' L b csize (adjust_size size).
Proof.
  intros H0 H1 NE Hfuel Hb Hpl. pose proof WSIZE_pos as HW.
  assert (Hnz : b <> NULL).
  { destruct Hpl as [[Hst _] _ [Hv _] _ _ _ _]. apply valid_addr_spec in Hv. unf. lia. }
  pose proof (place_listed_spec s L b csize _ Hpl) as Hwp.
  apply wp_Ok in Hwp as ([] & s' & E & Hpost). exists s'. split; [| exact Hpost].
  unfold mm_malloc.
  replace (size =? 0) with false by (symmetry; apply Z.eqb_neq; lia).
  cbv zeta. rewrite bind_gets.
  replace (adjust_size size =? failedsize s) with false
    by (symmetry; apply Z.eqb_neq; exact NE).
  rewrite (bind_Ok _ _ _ _ _ (find_fit_spec s L fuel _ (pl_lists _ _ _ _ _ Hpl) Hfuel)).
  rewrite Hb.
  replace (b =? NULL) with false by (symmetry; apply Z.eqb_neq; exact Hnz).
  cbn [negb]. rewrite (bind_Ok _ _ _ _ _ E). reflexivity.
Qed.

(** X20.  A hit: when the first fit for the adjusted size is a block [b],
    [mm_malloc] returns [b], placed as [place] does; the break does not
    move and [failedsize] is not written. *)
Theorem malloc_takes_first_fit fuel s L size b csize :
  0 < size -> size + 2 * DSIZE - 1 < modulus ->
  adjust_size size <> failedsize s ->
  (forall i, find_list (adjust_size size) <= i < 8 -> (length (L i) < fuel)%nat) ->
  first_fit s (adjust_size size) (classes_from L (find_list (adjust_size size))) = b ->
  placeable s L b csize (adjust_size size) ->
  exists s',
    mm_malloc fuel size s = Ok b s' /\ same_arena s s' /\
    placed s' L b csize (adjust_size size).
Proof.
  intros H0 H1 NE Hfuel Hb Hpl.
  destruct (malloc_hit_spec fuel s L size b csize H0 H1 NE Hfuel Hb Hpl)
    as (s' & E & Hsa & Hpd).
  exists s'. split; [exact E |]. split; [exact Hsa | exact Hpd].
Qed.

(** ** Freeing *)

Lemma lists_ok_set_failedsize s L n : lists_ok s L -> lists_ok (set_failedsize n s) L.
Proof.
  intros [H1 H2 H3 H4]. split; auto.
  intros i x Hi Hx. destruct (H2 i x Hi Hx) as [? ? ? ? ?]. split; assumption.
Qed.

Lemma freeable_listed_outside s L bp sz sp pa sn na :
  freeable s L bp sz sp pa sn na ->
  forall j b, 0 <= j < 8 -> b ∈ L j -> b + 2 * DSIZE <= bp \/ bp + sz <= b.
Proof.
  intros [_ _ _ _ [Hz1 Hz2] _ [Hpa Hna] _ _ [Hp1 Hp2] Hpfree _ [Hn1 Hn2] Hnfree Hout] j b Hj Hb.
  pose proof WSIZE_pos as HW.
  unfold merged_start, merged_size in Hout.
  destruct (decide (pa = 0 /\ b = bp - sp)) as [[Hp ->] | Hnp].
  { destruct (Hpfree Hp). left. lia. }
  destruct (decide (na = 0 /\ b = bp + sz)) as [[Hn ->] | Hnn].
  { right. lia. }
  assert (Hx : b + 2 * DSIZE <= (if pa =? 0 then bp - sp else bp)
               \/ (if pa =? 0 then bp - sp else bp)
                  + (sz + (if pa =? 0 then sp else 0) + (if na =? 0 then sn else 0)) <= b).
  { apply (Hout j b Hj Hb); intros ? ?; [apply Hnp | apply Hnn]; auto. }
  destruct Hpa as [-> | ->], Hna as [-> | ->]; cbn [Z.eqb] in Hx; lia.
Qed.

Lemma stamped_coalescible s L bp sz sp pa sn na :
  freeable s L bp sz sp pa sn na ->
  coalescible
    (set_cells (<[bp + sz - DSIZE := PACK sz 0]> (<[HDRP bp := PACK sz 0]> (cells s))) s)
    L bp sz sp pa sn na.
Proof.
  intros Hfr. pose proof (freeable_listed_outside _ _ _ _ _ _ _ _ Hfr) as Hfar.
  destruct Hfr as [Har HL Hh Hfv [Hz1 Hz2] Hab [Hpa Hna] Hpf Hph [Hp1 Hp2] Hpfree
                   Hnh [Hn1 Hn2] Hnfree Hout].
  pose proof WSIZE_pos as HW.
  pose proof (proj1 (valid_addr_spec _ _) (proj1 Hh)) as Vh.
  pose proof (proj1 (valid_addr_spec _ _) Hfv) as Vf.
  constructor; auto.
  - apply lists_ok_put; [apply lists_ok_put; [rewrite set_cells_same; exact HL | |] | |].
    all: try (unf; lia).
    all: intros j y Hj Hy; destruct (Hfar j y Hj Hy); unf; lia.
  - apply holds_set_ne; [unf; lia |]. apply holds_set_eq. apply Hh.
  - apply holds_set_eq. exact Hfv.
  - split.
    + replace (prev_field bp) with (HDRP bp + 1 * WSIZE) by (unf; lia).
      rewrite valid_set_cells.
      apply valid_addr_offset; [apply Hh | lia | unf; lia].
    + replace (next_field bp) with (HDRP bp + 2 * WSIZE) by (unf; lia).
      rewrite valid_set_cells.
      apply valid_addr_offset; [apply Hh | lia | unf; lia].
  - apply holds_set_ne; [unf; lia |]. apply holds_set_ne; [unf; lia |].
    rewrite set_cells_same. exact Hpf.
  - apply holds_set_ne; [unf; lia |]. apply holds_set_ne; [unf; lia |].
    rewrite set_cells_same. exact Hph.
  - apply holds_set_ne; [unf; lia |]. apply holds_set_ne; [unf; lia |].
    rewrite set_cells_same. exact Hnh.
  - intros Hn. destruct (Hnfree Hn) as (Hn3 & Hnf & Hnin).
    split; [exact Hn3 |]. split; [| exact Hnin].
    apply holds_set_ne; [unf; lia |]. apply holds_set_ne; [unf; lia |].
    rewrite set_cells_same. exact Hnf.
Qed.

Lemma freeable_set_failedsize s L bp sz sp pa sn na n :
  freeable s L bp sz sp pa sn na ->
  freeable (set_failedsize n s) L bp sz sp pa sn na.
Proof.
  intros [Har HL Hh Hfv Hz Hab Hb Hpf Hph Hp Hpfree Hnh Hn Hnfree Hout].
  constructor; auto. apply lists_ok_set_failedsize; exact HL.
Qed.

Lemma mm_free_spec s L bp sz sp pa sn na :
  freeable s L bp sz sp pa sn na ->
  exists s',
    mm_free bp s = Ok tt s' /\
    failedsize s' = (if sz =? failedsize s then 0 else failedsize s) /\
    mem_brk s' = mem_brk s /\
    holds s' (HDRP (merged_start bp sp pa)) (PACK (merged_size sz sp pa sn na) 0) /\
    holds s' (merged_start bp sp pa + merged_size sz sp pa sn na - DSIZE)
      (PACK (merged_size sz sp pa sn na) 0) /\
    lists_ok s' (merged_lists L bp sz sp pa sn na).
Proof.
  intros Hfr. pose proof WSIZE_pos as HW.
  set (s0 := if sz =? failedsize s then set_failedsize 0 s else s).
  assert (Hfr0 : freeable s0 L bp sz sp pa sn na).
  { unfold s0. destruct (sz =? failedsize s);
      [apply freeable_set_failedsize |]; exact Hfr. }
  assert (Hfs0 : failedsize s0 = (if sz =? failedsize s then 0 else failedsize s)).
  { unfold s0. destruct (sz =? failedsize s); reflexivity. }
  assert (Hbrk0 : mem_brk s0 = mem_brk s).
  { unfold s0. destruct (sz =? failedsize s); reflexivity. }
  pose proof (stamped_coalescible _ _ _ _ _ _ _ _ Hfr0) as Hco.
  pose proof (coalesce_spec _ _ _ _ _ _ _ _ Hco) as Hwc.
  apply wp_Ok in Hwc as (r & s' & Ec & Hpost). cbv beta in Hpost.
  destruct Hpost as (-> & Hsa & H1 & H2 & H3).
  exists s'. split.
  2: { destruct Hsa as (_ & Hb & _ & _ & _ & Hf). cbn in Hb, Hf.
       rewrite Hf, Hb. auto. }
  destruct Hfr as [[Hst Hmx] HL Hh Hfv [Hz1 Hz2] Hab _ _ _ _ _ _ _ _ _].
  pose proof (proj1 (valid_addr_spec _ _) (proj1 Hh)) as Vh.
  pose proof (proj1 (valid_addr_spec _ _) Hfv) as Vf.
  assert (Hfl : mem_start_brk s <= free_listp s).
  { destruct (lo_heads _ _ HL 0 ltac:(lia)) as (h0 & [Hv0 _] & _).
    apply valid_addr_spec in Hv0. lia. }
  assert (Esz1 : size_bits (PACK sz 1) = sz) by (apply size_bits_PACK; auto; unf; lia).
  assert (Esz0 : size_bits (PACK sz 0) = sz) by (apply size_bits_PACK; auto; unf; lia).
  unfold mm_free.
  replace (bp =? NULL) with false by (symmetry; apply Z.eqb_neq; unf; lia).
  rewrite (bind_Ok _ _ _ _ _ (GET_SIZE_holds s _ _ Hh)). rewrite Esz1.
  rewrite bind_gets.
  assert (E0 : (if sz =? failedsize s then modify (set_failedsize 0) else ret tt) s
               = Ok tt s0).
  { unfold s0. destruct (sz =? failedsize s); reflexivity. }
  rewrite (bind_Ok _ _ _ _ _ E0).
  assert (Hh0 : holds s0 (HDRP bp) (PACK sz 1)) by apply (fr_hdr _ _ _ _ _ _ _ _ Hfr0).
  assert (Hfv0 : valid_addr s0 (bp + sz - DSIZE) = true)
    by apply (fr_ftr _ _ _ _ _ _ _ _ Hfr0).
  assert (E1 : PUT (HDRP bp) (PACK sz 0) s0
               = Ok tt (set_cells (<[HDRP bp := PACK sz 0]> (cells s0)) s0)).
  { unfold PUT. rewrite (proj1 Hh0). reflexivity. }
  rewrite (bind_Ok _ _ _ _ _ E1).
  assert (E2 : FTRP bp (set_cells (<[HDRP bp := PACK sz 0]> (cells s0)) s0)
               = Ok (bp + sz - DSIZE) (set_cells (<[HDRP bp := PACK sz 0]> (cells s0)) s0)).
  { unfold FTRP.
    rewrite (bind_Ok _ _ _ _ _ (GET_SIZE_holds _ _ (PACK sz 0)
               (holds_set_eq s0 _ _ _ (proj1 Hh0)))).
    rewrite Esz0. reflexivity. }
  rewrite (bind_Ok _ _ _ _ _ E2).
  assert (E3 : PUT (bp + sz - DSIZE) (PACK sz 0)
                 (set_cells (<[HDRP bp := PACK sz 0]> (cells s0)) s0)
               = Ok tt (set_cells (<[bp + sz - DSIZE := PACK sz 0]>
                                     (<[HDRP bp := PACK sz 0]> (cells s0))) s0)).
  { unfold PUT. rewrite valid_set_cells, Hfv0. reflexivity. }
  rewrite (bind_Ok _ _ _ _ _ E3).
  rewrite (bind_Ok _ _ _ _ _ Ec). reflexivity.
Qed.

(** X21.  [mm_free] of an allocated block marks its header and footer
    free and coalesces it with its free neighbours after the four-case
    table; the merged block heads the list of its class.  [failedsize] is
    cleared exactly when the size of the freed block, before merging,
    equals it; the break does not move. *)
Theorem free_coalesces s L bp sz sp pa sn na :
  freeable s L bp sz sp pa sn na ->
  exists s',
    mm_free bp s = Ok tt s' /\
    failedsize s' = (if sz =? failedsize s then 0 else failedsize s) /\
    mem_brk s' = mem_brk s /\
    holds s' (HDRP (merged_start bp sp pa)) (PACK (merged_size sz sp pa sn na) 0) /\
    holds s' (merged_start bp sp pa + merged_size sz sp pa sn na - DSIZE)
      (PACK (merged_size sz sp pa sn na) 0) /\
    lists_ok s' (merged_lists L bp sz sp pa sn na).
Proof.
  intros Hfr.
  destruct (mm_free_spec s L bp sz sp pa sn na Hfr) as (s' & E & Hfs & Hbrk & Hrest).
  exists s'. split; [exact E |]. split; [exact Hfs |]. split; [exact Hbrk | exact Hrest].
Qed.

(** ** The consistency checker *)

Lemma size_bits_not_word w : 0 <= w < modulus -> size_bits w <> WSIZE.
Proof.
  intros Hw E. pose proof WSIZE_pos as HW.
  pose proof (size_bits_aligned w Hw) as Ha. rewrite E in Ha.
  unfold DSIZE in Ha. rewrite Z.mod_small in Ha by lia. lia.
Qed.

Lemma checkblock_consistent s bp w :
  holds s (HDRP bp) w -> holds s (bp + size_bits w - DSIZE) w -> bp mod WSIZE = 0 ->
  checkblock bp s = Ok [] s.
Proof.
  intros Hh Hf Hal. unfold checkblock, FTRP, GET_SIZE. rewrite Hal. cbn [Z.eqb negb].
  assert (Eg : GET (HDRP bp) s = Ok w s).
  { unfold GET. destruct Hh as [-> ->]. reflexivity. }
  assert (Ef : GET (bp + size_bits w - DSIZE) s = Ok w s).
  { unfold GET. destruct Hf as [-> ->]. reflexivity. }
  unfold bind, ret. cbv zeta. rewrite Eg. cbv beta iota. rewrite Eg. cbv beta iota.
  rewrite Ef. cbv beta iota. rewrite Z.eqb_refl. reflexivity.
Qed.

Lemma walk_blocks_chain s pb fin we ws :
  holds s (HDRP fin) we -> size_bits we = 0 ->
  forall bp fuel, chain s bp ws fin -> (length ws < fuel)%nat ->
  walk_blocks fuel pb false bp s = Ok ([], fin) s.
Proof.
  intros He He0. induction ws as [| w ws IH]; intros bp fuel Hc Hfuel.
  - simpl in Hc. subst bp. destruct fuel as [| fuel]; [simpl in Hfuel; lia |].
    simpl. rewrite (bind_Ok _ _ _ _ _ (GET_SIZE_holds s _ _ He)). rewrite He0. reflexivity.
  - destruct Hc as (Hh & Hw & Hpos & Hf & Hal & Hc).
    destruct fuel as [| fuel]; [simpl in Hfuel; lia |].
    simpl. rewrite (bind_Ok _ _ _ _ _ (GET_SIZE_holds s _ _ Hh)).
    replace (size_bits w >? 0) with true by (symmetry; apply Z.gtb_lt; exact Hpos).
    unfold ret at 1. unfold bind at 1.
    rewrite (bind_Ok _ _ _ _ _ (checkblock_consistent s bp w Hh Hf Hal)).
    rewrite (bind_Ok _ _ _ _ _ (NEXT_BLKP_holds s bp w Hh)).
    rewrite (bind_Ok _ _ _ _ _ (IH _ fuel Hc ltac:(simpl in Hfuel; lia))).
    reflexivity.
Qed.

(** X22.  The quiet checker on a consistent heap: when the blocks from
    [heap_listp] on have matching headers and footers and aligned payloads
    and end on an epilogue [(0, 1)], [checkheap(false)] reads the heap
    without writing and prints exactly one line, "Bad prologue header": it
    compares the size in the prologue header with [WSIZE], which no size
    field equals. *)
Theorem checkheap_flags_every_prologue s fuel w ws fin we :
  chain s (heap_listp s) (w :: ws) fin ->
  holds s (HDRP fin) we -> size_bits we = 0 -> alloc_bit we = 1 ->
  (length (w :: ws) < fuel)%nat ->
  checkheap fuel false s = Ok [BadPrologue] s.
Proof.
  intros Hc He He0 He1 Hfuel.
  pose proof (walk_blocks_chain s (printblock fuel) fin we _ He He0 _ fuel Hc Hfuel) as Hwalk.
  destruct Hc as (Hh & Hw & Hpos & Hf & Hal & Hc).
  unfold checkheap, checkheap_with. rewrite bind_gets. cbv zeta.
  rewrite (bind_Ok _ _ _ _ _ (GET_SIZE_holds s _ _ Hh)).
  replace (size_bits w =? WSIZE) with false
    by (symmetry; apply Z.eqb_neq, size_bits_not_word; exact Hw).
  cbn [negb]. unfold ret at 1. unfold bind at 1.
  rewrite (bind_Ok _ _ _ _ _ (checkblock_consistent s _ w Hh Hf Hal)).
  rewrite (bind_Ok _ _ _ _ _ Hwalk). cbn [fst snd].
  unfold ret at 1. unfold bind at 1.
  rewrite (bind_Ok _ _ _ _ _ (GET_SIZE_holds s _ _ He)). rewrite He0.
  cbn [Z.eqb negb].
  assert (Ea : GET_ALLOC (HDRP fin) s = Ok (alloc_bit we) s).
  { unfold GET_ALLOC, GET, bind. destruct He as [-> ->]. reflexivity. }
  assert (Eb : (do a <- GET_ALLOC (HDRP fin) ; ret (a =? 0)) s
               = Ok (alloc_bit we =? 0) s).
  { rewrite (bind_Ok _ _ _ _ _ Ea). reflexivity. }
  rewrite (bind_Ok _ _ _ _ _ Eb). rewrite He1. reflexivity.
Qed.

Lemma chainb_sound s ws : forall bp fin, chainb s bp ws fin = true -> chain s bp ws fin.
Proof.
  induction ws as [| w ws IH]; intros bp fin; simpl.
  - apply Z.eqb_eq.
  - rewrite !andb_true_iff.
    intros [[[[[[[[H1 H2] H3] H4] H5] H6] H7] H8] H9].
    apply bool_decide_eq_true in H2. apply bool_decide_eq_true in H7.
    apply Z.leb_le in H3. apply Z.ltb_lt in H4. apply Z.ltb_lt in H5.
    apply Z.eqb_eq in H8.
    repeat split; auto.
Qed.

(** ** Relocation without memory *)

(** X23.  In the relocation case [mm_realloc] does not look at the result
    of the inner [mm_malloc]: when that returns [NULL], the copy that
    follows writes to address 0 and the call faults there; it does not
    return [NULL], and the old block is not freed. *)
Theorem realloc_relocation_without_memory_faults fuel s ptr size w wn s1 :
  holds s (HDRP ptr) w -> size <> 0 -> ptr <> NULL ->
  size_bits w < adjust_size size ->
  holds s (HDRP (ptr + size_bits w)) wn -> size_bits wn <> 0 ->
  mm_malloc fuel size s = Ok NULL s1 ->
  0 < mem_start_brk s1 -> valid_addr s1 ptr = true -> WSIZE <= size_bits w ->
  mm_realloc fuel ptr size s = Err (SegFault NULL).
Proof.
  intros Hh Hsz Hp Hlt Hn Hn0 Hm Hst Hv Hw. pose proof WSIZE_pos as HW.
  unfold mm_realloc.
  rewrite (bind_Ok _ _ _ _ _ (GET_SIZE_holds s _ w Hh)). cbv zeta.
  replace (size =? 0) with false by (symmetry; apply Z.eqb_neq; exact Hsz).
  replace (ptr =? NULL) with false by (symmetry; apply Z.eqb_neq; exact Hp).
  replace (adjust_size size <=? size_bits w) with false
    by (symmetry; apply Z.leb_gt; exact Hlt).
  rewrite (bind_Ok _ _ _ _ _ (NEXT_BLKP_holds s ptr w Hh)).
  rewrite (bind_Ok _ _ _ _ _ (GET_SIZE_holds s _ wn Hn)).
  replace (size_bits wn =? 0) with false by (symmetry; apply Z.eqb_neq; exact Hn0).
  rewrite (bind_Ok _ _ _ _ _ Hm).
  assert (Hk : exists k, Z.to_nat (size_bits w / WSIZE) = S k).
  { assert (1 <= size_bits w / WSIZE) by (apply Z.div_le_lower_bound; lia).
    exists (Z.to_nat (size_bits w / WSIZE - 1)). lia. }
  destruct Hk as [k Hk].
  assert (Hnull : valid_addr s1 NULL = false).
  { unfold valid_addr, NULL.
    replace (mem_start_brk s1 <=? 0) with false by (symmetry; apply Z.leb_gt; exact Hst).
    reflexivity. }
  unfold bind at 1. unfold bind at 1. unfold memcpy. rewrite Hk.
  cbn [memcpy_words]. rewrite Hv, Hnull. reflexivity.
Qed.

(** * The claims about extension, relocation and the list heads *)

(** ** The heap extender, call by call *)

Lemma wrap_aligned x : x mod DSIZE = 0 -> wrap x mod DSIZE = 0.
Proof.
  intros Hx. pose proof WSIZE_pos as HW. unfold wrap.
  assert (HD : 0 < DSIZE) by (unfold DSIZE; lia).
  rewrite Z.mod_mod_divide; [exact Hx |].
  unfold modulus, DSIZE. destruct (WSIZE_cases) as [-> | ->].
  - exists (2 ^ 29). reflexivity.
  - exists (2 ^ 60). reflexivity.
Qed.

Lemma extend_bytes_aligned words :
  extend_bytes words mod DSIZE = 0 /\
  0 <= extend_bytes words /\ extend_bytes words + 1 < modulus.
Proof.
  pose proof WSIZE_pos as HW. pose proof modulus_pos as HM.
  assert (HD : 0 < DSIZE) by (unfold DSIZE; lia).
  assert (Ha : extend_bytes words mod DSIZE = 0).
  { unfold extend_bytes.
    destruct (Z.eqb_spec (words mod 2) 0) as [Hev | Hodd]; cbn [negb].
    - apply wrap_aligned. apply Z.mod_divide in Hev; [| lia]. destruct Hev as [q ->].
      unfold DSIZE. replace (q * 2 * WSIZE) with (q * (2 * WSIZE)) by lia.
      apply Z.mod_mul. lia.
    - apply wrap_aligned.
      assert (Hw : wrap (words + 1) mod 2 = 0).
      { unfold wrap. rewrite Z.mod_mod_divide.
        - pose proof (Z.mod_pos_bound words 2 ltac:(lia)).
          rewrite <- Zplus_mod_idemp_l.
          replace (words mod 2) with 1 by lia. reflexivity.
        - unfold modulus. destruct (WSIZE_cases) as [-> | ->].
          + exists (2 ^ 31). reflexivity.
          + exists (2 ^ 63). reflexivity. }
      apply Z.mod_divide in Hw; [| lia]. destruct Hw as [q ->].
      unfold DSIZE. replace (q * 2 * WSIZE) with (q * (2 * WSIZE)) by lia.
      apply Z.mod_mul. lia. }
  split; [exact Ha |].
  assert (Hr : 0 <= extend_bytes words < modulus).
  { unfold extend_bytes. destruct (negb (words mod 2 =? 0)); apply wrap_range. }
  split; [lia |].
  assert (Hm : modulus mod DSIZE = 0).
  { unfold modulus, DSIZE. destruct (WSIZE_cases) as [-> | ->]; reflexivity. }
  apply Z.mod_divide in Ha; [| lia]. apply Z.mod_divide in Hm; [| lia].
  destruct Ha as [q Hq]. destruct Hm as [m Hm'].
  rewrite Hq, Hm' in *.
  assert (q + 1 <= m) by nia. assert (2 <= DSIZE) by (unfold DSIZE; lia). nia.
Qed.

Lemma extend_heap_success s words bp s' :
  extend_heap words s = Ok bp s' -> bp <> NULL ->
  bp = mem_brk s /\ s' = extended s (extend_bytes words).
Proof.
  intros E Hnz.
  destruct (extend_bytes_aligned words) as (Ha & H0 & H1).
  assert (Esz : size_bits (PACK (extend_bytes words) 0) = extend_bytes words).
  { apply size_bits_PACK; auto. }
  unfold extend_heap in E. fold (extend_bytes words) in E. cbv zeta in E.
  set (size := extend_bytes words) in *.
  unfold bind at 1 in E. unfold mem_sbrk in E.
  destruct ((size <? 0) || (mem_max_addr s <? mem_brk s + size)).
  { cbn in E. inversion E. subst bp. contradiction. }
  unfold bind at 1 in E. unfold PUT at 1 in E.
  destruct (valid_addr (set_brk (mem_brk s + size) s) (HDRP (mem_brk s))) eqn:V1;
    [| discriminate E].
  unfold bind at 1 in E. unfold FTRP, GET_SIZE in E.
  unfold bind at 1 2 in E. unfold GET at 1 in E.
  rewrite valid_set_cells, V1, cells_set_cells, lookup_insert_eq in E.
  unfold ret at 1 2 in E. rewrite Esz in E.
  unfold bind at 1 in E. unfold PUT at 1 in E.
  rewrite valid_set_cells in E.
  destruct (valid_addr (set_brk (mem_brk s + size) s) (mem_brk s + size - DSIZE)) eqn:V2;
    [| discriminate E].
  rewrite set_cells_twice, cells_set_cells in E.
  unfold bind at 1 in E. unfold NEXT_BLKP, GET_SIZE in E.
  unfold bind at 1 2 in E. unfold GET at 1 in E.
  change (mem_brk s - WSIZE) with (HDRP (mem_brk s)) in E.
  rewrite valid_set_cells, V1, cells_set_cells in E.
  destruct (decide (mem_brk s + size - DSIZE = HDRP (mem_brk s))) as [Eq | Ne].
  - rewrite Eq, lookup_insert_eq in E. unfold ret at 1 2 in E. rewrite Esz in E.
    unfold bind at 1 in E. unfold PUT at 1 in E. rewrite valid_set_cells in E.
    destruct (valid_addr (set_brk (mem_brk s + size) s) (HDRP (mem_brk s + size)));
      [| discriminate E].
    cbn in E. inversion E. split; [reflexivity |].
    unfold extended. rewrite Eq. reflexivity.
  - rewrite (lookup_insert_ne _ _ _ _ Ne), lookup_insert_eq in E.
    unfold ret at 1 2 in E. rewrite Esz in E.
    unfold bind at 1 in E. unfold PUT at 1 in E. rewrite valid_set_cells in E.
    destruct (valid_addr (set_brk (mem_brk s + size) s) (HDRP (mem_brk s + size)));
      [| discriminate E].
    cbn in E. inversion E. split; reflexivity.
Qed.

(** C4 (as amended).  Every successful call to [extend_heap] of [mm.c],
    one that returns a non-null pointer, returns the old break and leaves
    the break moved up by the rounded size and exactly three words written,
    in this order: [PACK(size, 0)] at the old epilogue position and at the
    new break minus [DSIZE], then [PACK(0, 1)] at the new break minus
    [WSIZE]; for a size of at least [DSIZE] these are the header and footer
    of the new free block and the new epilogue header, the call does
    succeed in an initialised arena with room, and every word below the
    old epilogue, the tags of the predecessor and the free lists among
    them, is as before: the block is neither coalesced with its
    predecessor nor inserted in a free list.  The older copy of the
    extender, which ends in [return coalesce(bp)], extending by at least a
    minimum block a heap with well formed lists and consistent tags below
    the break, does coalesce the new block with a free predecessor, inserts
    the result in the list of its class and returns the payload of the
    result. *)
Theorem extend_heap_stamps_variant_coalesces :
  (forall s words bp s',
     extend_heap words s = Ok bp s' -> bp <> NULL ->
     bp = mem_brk s /\ s' = extended s (extend_bytes words)) /\
  (forall s words,
     extensible s (extend_bytes words) ->
     extend_heap words s = Ok (mem_brk s) (extended s (extend_bytes words)) /\
     free_listp (extended s (extend_bytes words)) = free_listp s /\
     forall a, a < HDRP (mem_brk s) ->
       cells (extended s (extend_bytes words)) !! a = cells s !! a) /\
  (forall s L words sp pa,
     extensible_after s L (extend_bytes words) sp pa ->
     exists s',
       Part001.extend_heap words s = Ok (merged_start (mem_brk s) sp pa) s' /\
       mem_brk s' = mem_brk s + extend_bytes words /\
       holds s' (HDRP (merged_start (mem_brk s) sp pa))
         (PACK (merged_size (extend_bytes words) sp pa 0 1) 0) /\
       holds s' (merged_start (mem_brk s) sp pa
                 + merged_size (extend_bytes words) sp pa 0 1 - DSIZE)
         (PACK (merged_size (extend_bytes words) sp pa 0 1) 0) /\
       lists_ok s' (merged_lists L (mem_brk s) (extend_bytes words) sp pa 0 1)).
Proof.
  split; [| split].
  - intros s words bp s' E Hnz. apply extend_heap_success; assumption.
  - intros s words Hex. split; [apply extend_heap_spec; [exact Hex | reflexivity] |].
    split; [reflexivity |].
    intros a Ha. destruct Hex as [[Hs1 _] _ _]. pose proof WSIZE_pos as HW.
    unfold extended. cbv zeta. rewrite cells_set_cells. unf.
    rewrite !lookup_insert_ne by lia. reflexivity.
  - intros s L words sp pa Hxa.
    apply variant_extend_heap_spec; [exact Hxa | reflexivity].
Qed.

(** ** Relocation, to the end *)

Lemma freeable_frame s c L bp sz sp pa sn na :
  freeable s L bp sz sp pa sn na ->
  (forall a, tag_or_link s L bp sz sp sn na a -> c !! a = cells s !! a) ->
  freeable (set_cells c s) L bp sz sp pa sn na.
Proof.
  intros [Har HL Hh Hfv Hz Hab Hb Hpf Hph Hp Hpfree Hnh Hn Hnfree Hout] Hc.
  pose proof WSIZE_pos as HW.
  assert (Hk : forall a w, tag_or_link s L bp sz sp sn na a ->
             holds s a w -> holds (set_cells c s) a w).
  { intros a w Ht [Hv Hw]. apply holds_set. split; [exact Hv |].
    rewrite (Hc a Ht). exact Hw. }
  constructor; auto.
  - apply (lists_ok_frame s); auto.
    + apply same_arena_set_cells.
    + intros i Hi. rewrite cells_set_cells. apply Hc. left. nia.
    + intros i b Hi Hbi. rewrite cells_set_cells.
      repeat split; apply Hc; do 6 right; exists i, b; auto.
  - apply Hk; [right; left; reflexivity | exact Hh].
  - apply Hk; [do 2 right; left; reflexivity | exact Hpf].
  - apply Hk; [do 3 right; left; reflexivity | exact Hph].
  - apply Hk; [do 4 right; left; reflexivity | exact Hnh].
  - intros Hna. destruct (Hnfree Hna) as (H1 & H2 & H3).
    split; [exact H1 |]. split; [| exact H3].
    apply Hk; [do 5 right; left; split; [exact Hna | reflexivity] | exact H2].
Qed.

Lemma merged_listed L bp sz sp pa sn na :
  merged_start bp sp pa
  ∈ merged_lists L bp sz sp pa sn na (find_list (merged_size sz sp pa sn na)).
Proof.
  unfold merged_lists. cbv zeta. unfold fl_cons at 1.
  rewrite decide_True by reflexivity. left.
Qed.

Lemma realloc_relocates_frees
    fuel s ptr size w wn newptr s1 L sp pa sn na :
  holds s (HDRP ptr) w -> 0 <= w < modulus ->
  size <> 0 -> ptr <> NULL ->
  size_bits w < adjust_size size ->
  holds s (HDRP (ptr + size_bits w)) wn -> size_bits wn <> 0 ->
  mm_malloc fuel size s = Ok newptr s1 ->
  valid_addr s1 ptr = true -> valid_addr s1 newptr = true ->
  ptr + size_bits w <= mem_max_addr s1 -> newptr + size_bits w <= mem_max_addr s1 ->
  newptr + size_bits w <= ptr \/ ptr + size_bits w <= newptr ->
  freeable s1 L ptr (size_bits w) sp pa sn na ->
  (forall j, 0 <= j < size_bits w / WSIZE ->
     ~ tag_or_link s1 L ptr (size_bits w) sp sn na (newptr + j * WSIZE)) ->
  exists c2 s',
    memcpy newptr ptr (size_bits w) s1 = Ok tt (set_cells c2 s1) /\
    (forall j, 0 <= j < size_bits w / WSIZE ->
       c2 !! (newptr + j * WSIZE) = cells s1 !! (ptr + j * WSIZE)) /\
    (forall a, (forall j, 0 <= j < size_bits w / WSIZE -> a <> newptr + j * WSIZE) ->
       c2 !! a = cells s1 !! a) /\
    mm_free ptr (set_cells c2 s1) = Ok tt s' /\
    mm_realloc fuel ptr size s = Ok newptr s' /\
    holds s' (HDRP (merged_start ptr sp pa))
      (PACK (merged_size (size_bits w) sp pa sn na) 0) /\
    holds s' (merged_start ptr sp pa + merged_size (size_bits w) sp pa sn na - DSIZE)
      (PACK (merged_size (size_bits w) sp pa sn na) 0) /\
    lists_ok s' (merged_lists L ptr (size_bits w) sp pa sn na) /\
    merged_start ptr sp pa
    ∈ merged_lists L ptr (size_bits w) sp pa sn na
        (find_list (merged_size (size_bits w) sp pa sn na)).
Proof.
  intros Hh Hw Hsz Hp Hlt Hn Hn0 Hm Vp Vn Mp Mn Hdis Hfr Hclear.
  destruct (realloc_relocates fuel s ptr size w wn newptr s1
              Hh Hw Hsz Hp Hlt Hn Hn0 Hm Vp Vn Mp Mn Hdis)
    as (c2 & Ecp & Hcopy & Hframe & Ere).
  assert (Hfr2 : freeable (set_cells c2 s1) L ptr (size_bits w) sp pa sn na).
  { apply freeable_frame; [exact Hfr |]. intros a Ha. apply Hframe.
    intros j Hj ->. exact (Hclear j Hj Ha). }
  destruct (mm_free_spec _ _ _ _ _ _ _ _ Hfr2) as (s' & Efree & _ & _ & H1 & H2 & HL).
  exists c2, s'.
  split; [exact Ecp |]. split; [exact Hcopy |]. split; [exact Hframe |].
  split; [exact Efree |]. split.
  { rewrite Ere. rewrite (bind_Ok _ _ _ _ _ Efree). reflexivity. }
  split; [exact H1 |]. split; [exact H2 |]. split; [exact HL |].
  apply merged_listed.
Qed.

(** C5 (as amended).  In the relocation case of [mm_realloc] (non-null
    [ptr], adjusted size larger than the old block, next block not the
    epilogue), after a successful inner [mm_malloc] exactly [oldsize] bytes,
    the size of the whole old block, are copied from the old payload to the
    new one (the old payload, the old footer and the header of the next
    block); the old block is then freed, that is marked free, merged with
    its free neighbours and put at the head of the list of its class, and
    the call returns the new payload. *)
Theorem realloc_relocation_copies_block_size
    fuel s ptr size w wn newptr s1 L sp pa sn na :
  holds s (HDRP ptr) w -> 0 <= w < modulus ->
  size <> 0 -> ptr <> NULL ->
  size_bits w < adjust_size size ->
  holds s (HDRP (ptr + size_bits w)) wn -> size_bits wn <> 0 ->
  mm_malloc fuel size s = Ok newptr s1 ->
  valid_addr s1 ptr = true -> valid_addr s1 newptr = true ->
  ptr + size_bits w <= mem_max_addr s1 -> newptr + size_bits w <= mem_max_addr s1 ->
  newptr + size_bits w <= ptr \/ ptr + size_bits w <= newptr ->
  freeable s1 L ptr (size_bits w) sp pa sn na ->
  (forall j, 0 <= j < size_bits w / WSIZE ->
     ~ tag_or_link s1 L ptr (size_bits w) sp sn na (newptr + j * WSIZE)) ->
  exists c2 s',
    memcpy newptr ptr (size_bits w) s1 = Ok tt (set_cells c2 s1) /\
    (forall j, 0 <= j < size_bits w / WSIZE ->
       c2 !! (newptr + j * WSIZE) = cells s1 !! (ptr + j * WSIZE)) /\
    (forall a, (forall j, 0 <= j < size_bits w / WSIZE -> a <> newptr + j * WSIZE) ->
       c2 !! a = cells s1 !! a) /\
    mm_free ptr (set_cells c2 s1) = Ok tt s' /\
    mm_realloc fuel ptr size s = Ok newptr s' /\
    holds s' (HDRP (merged_start ptr sp pa))
      (PACK (merged_size (size_bits w) sp pa sn na) 0) /\
    holds s' (merged_start ptr sp pa + merged_size (size_bits w) sp pa sn na - DSIZE)
      (PACK (merged_size (size_bits w) sp pa sn na) 0) /\
    lists_ok s' (merged_lists L ptr (size_bits w) sp pa sn na) /\
    merged_start ptr sp pa
    ∈ merged_lists L ptr (size_bits w) sp pa sn na
        (find_list (merged_size (size_bits w) sp pa sn na)).
Proof.
  intros Hh Hw Hsz Hp Hlt Hn Hn0 Hm Vp Vn Mp Mn Hdis Hfr Hclear.
  apply (realloc_relocates_frees fuel s ptr size w wn newptr s1 L sp pa sn na);
    assumption.
Qed.



(** ** The head invariant along the interface *)











End Properties.

(** * The claims on the example heaps *)

#[local] Existing Instance w64.

Ltac closed := repeat (apply conj); vm_compute; first [reflexivity | discriminate | lia].
Ltac closed_holds := split; vm_compute; reflexivity.
Ltac listed := vm_compute; repeat first [apply list_elem_of_here | apply list_elem_of_further].

Lemma lists_pf_ok : lists_ok heap_pf lists_pf.
Proof. apply lists_okb_sound. vm_compute. reflexivity. Qed.

Lemma lists_acd_ok : lists_ok heap_acd lists_acd.
Proof. apply lists_okb_sound. vm_compute. reflexivity. Qed.

Lemma lists_acd_b_ok : lists_ok heap_acd_b lists_acd.
Proof. apply lists_okb_sound. vm_compute. reflexivity. Qed.

(** C1.  On the initialised heap [mm_realloc(NULL, 1)] reads the word below
    address 0, the header position of the null pointer, before it looks at
    [ptr], and faults there; [mm_malloc(1)] returns the block at 4208. *)
Theorem realloc_null_reads_header_first :
  mm_realloc 8 NULL 1 heap_init = Err (SegFault (HDRP NULL)) /\
  exists s', mm_malloc 8 1 heap_init = Ok 4208 s'.
Proof.
  apply conj; [vm_compute; reflexivity | eexists; vm_compute; reflexivity].
Qed.

(** C2.  [mm_realloc] grows the last block of the heap without looking at
    the result of [extend_heap].  With 144 bytes of arena, [p = mm_malloc(1)]
    uses all of them; [mm_realloc(p, 100)] cannot extend, writes the header
    of a block of 128 bytes all the same and faults on the footer, beyond
    the arena.  With 232 bytes the extension fails as well, and the call
    returns [p], not null, with header and footer of 128 bytes stamped
    around a break that has not moved.  [mm_malloc(100)], in the same
    state, returns null and leaves every word as it was. *)
Theorem realloc_tail_growth_ignores_failed_extension :
  extend_heap 12 (heap_p_in 144) = Ok NULL (heap_p_in 144) /\
  mm_realloc 8 4208 100 (heap_p_in 144) = Err (SegFault 4320) /\
  extend_heap 12 (heap_p_in 232) = Ok NULL (heap_p_in 232) /\
  (exists s', mm_realloc 8 4208 100 (heap_p_in 232) = Ok 4208 s' /\
     mem_brk s' = mem_brk (heap_p_in 232) /\ mem_brk s' = 4240 /\
     cells (heap_p_in 232) !! 4200 = Some (PACK 32 1) /\
     cells s' !! 4200 = Some (PACK 128 1) /\
     cells (heap_p_in 232) !! 4320 = None /\
     cells s' !! 4320 = Some (PACK 128 1)) /\
  (exists s', mm_malloc 8 100 (heap_p_in 232) = Ok NULL s' /\
     cells s' = cells (heap_p_in 232)).
Proof.
  repeat (apply conj); try (vm_compute; reflexivity);
    eexists; repeat (apply conj); vm_compute; reflexivity.
Qed.

(** C3.  [mm_init] succeeds on a fresh arena and leaves the prologue header
    and footer encoding [(DSIZE, 1)] and the block of list heads, 10 words
    with header at word 3 and footer at word 12; the word after it, word 13,
    the header position of the next block, has never been written, and the
    epilogue word [(0, 1)] sits one word further, at the payload position of
    that block and at the break. *)
Theorem init_epilogue_one_word_late :
  mm_init (fresh_arena 4096 4896) = Ok 0 heap_init /\
  mem_brk heap_init = 4096 + 14 * WSIZE /\
  cells heap_init !! (4096 + 1 * WSIZE) = Some (PACK DSIZE 1) /\
  cells heap_init !! (4096 + 2 * WSIZE) = Some (PACK DSIZE 1) /\
  cells heap_init !! (4096 + 3 * WSIZE) = Some (PACK (10 * WSIZE) 1) /\
  cells heap_init !! (4096 + 12 * WSIZE) = Some (PACK (10 * WSIZE) 1) /\
  cells heap_init !! (4096 + 13 * WSIZE) = None /\
  GET (4096 + 13 * WSIZE) heap_init = Err (Uninit (4096 + 13 * WSIZE)) /\
  cells heap_init !! (4096 + 14 * WSIZE) = Some (PACK 0 1).
Proof. repeat (apply conj); vm_compute; reflexivity. Qed.

(** C4, the claim as stated fails: after [p = mm_malloc(1); mm_free(p)] the
    block below the break, of 32 bytes, is free and on the list of class 0,
    yet [extend_heap(4)] returns the old break 4240, not the payload 4208
    of a merged block, leaves the header of the block at 4208 at 32 bytes
    and the list of class 0 headed by 4208, with nothing behind it. *)
Lemma extend_heap_does_not_coalesce :
  holds heap_pf (mem_brk heap_pf - DSIZE) (PACK 32 0) /\
  (exists s', extend_heap 4 heap_pf = Ok 4240 s' /\
     cells s' !! HDRP 4208 = Some (PACK 32 0) /\
     cells s' !! HDRP 4240 = Some (PACK 32 0) /\
     cells s' !! free_listp s' = Some 4208 /\
     cells s' !! next_field 4208 = Some NULL) /\
  ~ extend_heap_coalesces heap_pf 4.
Proof.
  apply conj; [closed_holds |]. apply conj.
  - eexists. repeat (apply conj); vm_compute; reflexivity.
  - intros H. destruct (H 32) as (s' & E); [closed_holds |].
    vm_compute in E. discriminate E.
Qed.

Lemma extensible_after_pf : extensible_after heap_pf lists_pf 32 32 0.
Proof.
  constructor.
  - constructor; repeat (apply conj); closed.
  - closed.
  - exact lists_pf_ok.
  - closed.
  - left; reflexivity.
  - closed_holds.
  - closed_holds.
  - apply conj; closed.
  - intros _. apply conj; [closed | listed].
  - intros j b Hj Hb Hne. unfold lists_pf in Hb.
    destruct (j =? 0); [| inversion Hb].
    apply list_elem_of_singleton in Hb. subst b. exfalso. apply Hne; reflexivity.
Qed.

Lemma extensible_p_word_pair : extensible heap_p (extend_bytes 2).
Proof. constructor; closed. Qed.

Lemma extend_heap_stamps_variant_coalesces_witness :
  (extend_heap 2 heap_p = Ok (mem_brk heap_p) (extended heap_p (extend_bytes 2)) /\
   extend_bytes 2 = DSIZE) /\
  (extend_heap 4 heap_pf = Ok (mem_brk heap_pf) (extended heap_pf (extend_bytes 4)) /\
   cells (extended heap_pf (extend_bytes 4)) !! HDRP 4208 = cells heap_pf !! HDRP 4208 /\
   cells (extended heap_pf (extend_bytes 4)) !! free_listp heap_pf = Some 4208) /\
  exists s',
    Part001.extend_heap 4 heap_pf = Ok (merged_start (mem_brk heap_pf) 32 0) s' /\
    mem_brk s' = mem_brk heap_pf + extend_bytes 4 /\
    holds s' (HDRP (merged_start (mem_brk heap_pf) 32 0))
      (PACK (merged_size (extend_bytes 4) 32 0 0 1) 0) /\
    holds s' (merged_start (mem_brk heap_pf) 32 0
              + merged_size (extend_bytes 4) 32 0 0 1 - DSIZE)
      (PACK (merged_size (extend_bytes 4) 32 0 0 1) 0) /\
    lists_ok s' (merged_lists lists_pf (mem_brk heap_pf) (extend_bytes 4) 32 0 0 1).
Proof.
  destruct extend_heap_stamps_variant_coalesces as (Hany & Hroom & Hvariant).
  apply conj; [| apply conj].
  - apply conj; [apply (Hroom heap_p 2), extensible_p_word_pair | vm_compute; reflexivity].
  - destruct (Hroom heap_pf 4) as (E & _ & Hframe).
    + apply (xa_room _ _ _ _ _ extensible_after_pf).
    + apply conj; [exact E |]. apply conj; [apply Hframe; closed | vm_compute; reflexivity].
  - apply (Hvariant heap_pf lists_pf 4 32 0). exact extensible_after_pf.
Defined.

(** C5, the claim as stated fails: with [p] and [q] two blocks of 64 bytes,
    [mm_realloc(p, 100)] relocates to 4336 and writes the words 6 and 7 of
    the new payload, copies of the footer of [p] and of the header of [q];
    a copy of [oldsize - DSIZE] bytes leaves them unwritten. *)
Lemma realloc_copies_footer_and_next_header :
  exists s1 s2,
    mm_realloc 8 4208 100 heap_pq = Ok 4336 s1 /\
    relocate_by_spec 8 4208 100 heap_pq = Ok 4336 s2 /\
    cells heap_pq !! (4208 + 64 - DSIZE) = Some (PACK 64 1) /\
    cells s1 !! (4336 + 64 - DSIZE) = Some (PACK 64 1) /\
    cells s1 !! (4336 + 64 - WSIZE) = Some (PACK 64 1) /\
    cells s2 !! (4336 + 64 - DSIZE) = None /\
    cells s2 !! (4336 + 64 - WSIZE) = None.
Proof.
  do 2 eexists. repeat (apply conj); vm_compute; reflexivity.
Qed.

Lemma lists_pq_r_ok : lists_ok (exec (mm_malloc 8 100) heap_pq) no_lists.
Proof. apply lists_okb_sound. vm_compute. reflexivity. Qed.

Lemma freeable_pq_r :
  freeable (exec (mm_malloc 8 100) heap_pq) no_lists 4208 (size_bits 65) 80 1 64 1.
Proof.
  constructor.
  - closed.
  - exact lists_pq_r_ok.
  - closed_holds.
  - closed.
  - closed.
  - closed.
  - apply conj; right; reflexivity.
  - closed_holds.
  - closed_holds.
  - closed.
  - intros H. discriminate H.
  - closed_holds.
  - closed.
  - intros H. discriminate H.
  - intros j b _ Hb. inversion Hb.
Qed.

Lemma copy_clear_pq_r :
  forall j, 0 <= j < size_bits 65 / WSIZE ->
    ~ tag_or_link (exec (mm_malloc 8 100) heap_pq) no_lists 4208 (size_bits 65) 80 64 1
        (4336 + j * WSIZE).
Proof.
  intros j Hj Ht.
  assert (Hj' : 0 <= j < 8) by exact Hj.
  assert (Hw : WSIZE = 8) by reflexivity.
  assert (Esb : size_bits 65 = 64) by (vm_compute; reflexivity).
  assert (Efl : free_listp (exec (mm_malloc 8 100) heap_pq) = 4128)
    by (vm_compute; reflexivity).
  unfold tag_or_link, HDRP, DSIZE in Ht. rewrite Efl, Esb, !Hw in Ht.
  destruct Ht as [H | [H | [H | [H | [H | [[H _] | (i & b & _ & Hb & _)]]]]]];
    [lia | lia | lia | lia | lia | discriminate H | inversion Hb].
Qed.

Lemma realloc_relocation_copies_block_size_witness :
  exists c2 s',
    memcpy 4336 4208 (size_bits 65) (exec (mm_malloc 8 100) heap_pq)
    = Ok tt (set_cells c2 (exec (mm_malloc 8 100) heap_pq)) /\
    (forall j, 0 <= j < size_bits 65 / WSIZE ->
       c2 !! (4336 + j * WSIZE)
       = cells (exec (mm_malloc 8 100) heap_pq) !! (4208 + j * WSIZE)) /\
    (forall a, (forall j, 0 <= j < size_bits 65 / WSIZE -> a <> 4336 + j * WSIZE) ->
       c2 !! a = cells (exec (mm_malloc 8 100) heap_pq) !! a) /\
    mm_free 4208 (set_cells c2 (exec (mm_malloc 8 100) heap_pq)) = Ok tt s' /\
    mm_realloc 8 4208 100 heap_pq = Ok 4336 s' /\
    holds s' (HDRP (merged_start 4208 80 1))
      (PACK (merged_size (size_bits 65) 80 1 64 1) 0) /\
    holds s' (merged_start 4208 80 1 + merged_size (size_bits 65) 80 1 64 1 - DSIZE)
      (PACK (merged_size (size_bits 65) 80 1 64 1) 0) /\
    lists_ok s' (merged_lists no_lists 4208 (size_bits 65) 80 1 64 1) /\
    merged_start 4208 80 1
    ∈ merged_lists no_lists 4208 (size_bits 65) 80 1 64 1
        (find_list (merged_size (size_bits 65) 80 1 64 1)).
Proof.
  apply (realloc_relocation_copies_block_size 8 heap_pq 4208 100 65 65 4336
           (exec (mm_malloc 8 100) heap_pq) no_lists 80 1 64 1).
  - closed_holds.
  - closed.
  - closed.
  - closed.
  - closed.
  - closed_holds.
  - closed.
  - vm_compute. reflexivity.
  - vm_compute. reflexivity.
  - vm_compute. reflexivity.
  - closed.
  - closed.
  - right. closed.
  - exact freeable_pq_r.
  - exact copy_clear_pq_r.
Defined.

Lemma coalescible_acd_b : coalescible heap_acd_b lists_acd 4272 64 64 0 64 0.
Proof.
  constructor.
  - apply conj; closed.
  - exact lists_acd_b_ok.
  - closed_holds.
  - closed_holds.
  - apply conj; closed.
  - apply conj; closed.
  - closed.
  - apply conj; left; reflexivity.
  - closed_holds.
  - closed_holds.
  - apply conj; closed.
  - intros _. apply conj; [closed | listed].
  - closed_holds.
  - apply conj; closed.
  - intros _. apply conj; [closed |]. apply conj; [closed_holds | listed].
  - intros j b Hj Hb Hp Hn. unfold lists_acd in Hb.
    destruct (j =? 0); [| inversion Hb].
    apply elem_of_cons in Hb as [-> | Hb]; [exfalso; apply Hn; reflexivity |].
    apply list_elem_of_singleton in Hb. subst b. exfalso. apply Hp; reflexivity.
Qed.

Lemma coalesce_four_cases_witness :
  exists s',
    coalesce 4272 heap_acd_b = Ok (merged_start 4272 64 0) s' /\
    holds s' (HDRP (merged_start 4272 64 0)) (PACK (merged_size 64 64 0 64 0) 0) /\
    holds s' (merged_start 4272 64 0 + merged_size 64 64 0 64 0 - DSIZE)
      (PACK (merged_size 64 64 0 64 0) 0) /\
    lists_ok s' (merged_lists lists_acd 4272 64 64 0 64 0).
Proof.
  apply (coalesce_four_cases heap_acd_b lists_acd 4272 64 64 0 64 0).
  exact coalescible_acd_b.
Defined.

Lemma find_fit_first_fit_witness :
  find_fit 8 48 heap_acd
  = Ok (first_fit heap_acd 48 (classes_from lists_acd (find_list 48))) heap_acd /\
  (first_fit heap_acd 48 (classes_from lists_acd (find_list 48)) = NULL <->
   forall b, b ∈ classes_from lists_acd (find_list 48) -> blk_size heap_acd b < 48).
Proof.
  apply (find_fit_first_fit heap_acd lists_acd 8 48).
  - exact lists_acd_ok.
  - intros i Hi. unfold lists_acd. destruct (i =? 0); simpl; lia.
Defined.

(** C8, the claim as stated fails for the largest request: the sum
    [size + DSIZE + (DSIZE - 1)] wraps around and the adjusted size is 16
    bytes, less than the minimum block of 32 and not [DSIZE] times the
    ceiling of [(size + DSIZE) / DSIZE]. *)
Lemma adjust_size_wraps_at_size_max :
  adjust_size (2 ^ 64 - 1) = 16 /\
  adjust_by_spec (2 ^ 64 - 1) = 2 ^ 64 + 16 /\
  adjust_size (2 ^ 64 - 1) < 2 * DSIZE.
Proof. repeat (apply conj); vm_compute; reflexivity. Qed.

Lemma adjust_size_in_range_witness :
  adjust_size 100 = adjust_by_spec 100 /\
  2 * DSIZE <= adjust_size 100 /\
  adjust_size 100 mod DSIZE = 0.
Proof. apply (adjust_size_in_range 100); closed. Defined.

Lemma extensible_p : extensible heap_p (adjust_size 1).
Proof. split; repeat (apply conj); closed. Qed.

Lemma malloc_repeated_miss_extends_witness :
  adjust_size 1 = failedsize heap_p /\
  mm_malloc 0 1 heap_p
  = Ok (mem_brk heap_p)
       (allocated_whole (extended heap_p (adjust_size 1)) (mem_brk heap_p) (adjust_size 1)).
Proof.
  apply conj; [vm_compute; reflexivity |].
  apply (malloc_repeated_miss_extends 0 heap_p 1).
  - closed.
  - closed.
  - vm_compute. reflexivity.
  - exact extensible_p.
Defined.

(** * The further properties on the example heaps *)

Lemma lists_init_ok : lists_ok heap_init no_lists.
Proof. apply lists_okb_sound. vm_compute. reflexivity. Qed.

Lemma lists_tight_ok : lists_ok (heap_p_in 232) no_lists.
Proof. apply lists_okb_sound. vm_compute. reflexivity. Qed.

Lemma no_lists_fuel (idx : Z) (fuel : nat) :
  (0 < fuel)%nat -> forall i, idx <= i < 8 -> (length (no_lists i) < fuel)%nat.
Proof. intros H i _. exact H. Qed.

Lemma lists_acd_fuel (idx : Z) :
  forall i, idx <= i < 8 -> (length (lists_acd i) < 8)%nat.
Proof. intros i _. unfold lists_acd. destruct (i =? 0); simpl; lia. Qed.

Lemma lists_acd_far_4272 :
  forall j b', 0 <= j < 8 -> b' ∈ lists_acd j -> far 4272 b'.
Proof.
  intros j b' _ Hb. unfold lists_acd in Hb. destruct (j =? 0); [| inversion Hb].
  apply elem_of_cons in Hb as [-> | Hb]; [left; closed |].
  apply list_elem_of_singleton in Hb. subst b'. right; closed.
Qed.

Lemma node_ok_4272 : node_ok heap_acd_b (find_list 64) 4272.
Proof.
  constructor.
  - closed.
  - closed.
  - closed.
  - closed.
  - exists 64. apply conj; vm_compute; reflexivity.
Qed.

Lemma PACK_fields_round_trip_witness :
  size_bits (PACK 64 1) = 64 /\ alloc_bit (PACK 64 1) = 1.
Proof. apply (PACK_fields_round_trip 64 1); [closed | closed | closed | right; reflexivity]. Defined.

Lemma size_field_rounds_down_witness :
  size_bits 77 mod DSIZE = 0 /\ size_bits 77 <= 77 < size_bits 77 + DSIZE.
Proof. apply (size_field_rounds_down 77). closed. Defined.

Lemma adjusted_block_holds_payload_witness :
  100 + DSIZE <= adjust_size 100 < 100 + 3 * DSIZE.
Proof. apply (adjusted_block_holds_payload 100); closed. Defined.

Lemma adjust_size_monotone_witness : adjust_size 40 <= adjust_size 100.
Proof. apply (adjust_size_monotone 40 100); closed. Defined.

Lemma next_then_prev_block_witness :
  (do n <- NEXT_BLKP 4208 ; PREV_BLKP n) heap_pq = Ok 4208 heap_pq.
Proof. apply (next_then_prev_block heap_pq 4208 65); closed_holds. Defined.

Lemma extend_heap_rounds_odd_up_witness :
  extend_heap 3 heap_p = extend_heap 4 heap_p.
Proof. apply (extend_heap_rounds_odd_up 3 heap_p); closed. Defined.

Lemma extend_heap_out_of_memory_witness :
  extend_heap 12 (heap_p_in 144) = Ok NULL (heap_p_in 144).
Proof. apply (extend_heap_out_of_memory 12 (heap_p_in 144)); closed. Defined.

Lemma insert_free_pushes_front_witness :
  exists s',
    insert_free 64 4272 heap_acd_b = Ok tt s' /\
    lists_ok s' (fl_cons (find_list 64) 4272 lists_acd).
Proof.
  destruct (insert_free_pushes_front heap_acd_b lists_acd 64 4272)
    as (s' & E & _ & HL & _).
  - exact lists_acd_b_ok.
  - exact node_ok_4272.
  - closed.
  - exact lists_acd_far_4272.
  - exists s'. apply conj; assumption.
Defined.

Lemma remove_free_unlinks_witness :
  exists s',
    remove_free 4208 heap_acd = Ok tt s' /\
    lists_ok s' (fl_remove 0 4208 lists_acd).
Proof.
  destruct (remove_free_unlinks heap_acd lists_acd 4208 0) as (s' & E & _ & HL & _).
  - exact lists_acd_ok.
  - lia.
  - listed.
  - exists s'. apply conj; assumption.
Defined.

Lemma insert_then_remove_restores_lists_witness :
  exists s',
    (insert_free 64 4272 ;; remove_free 4272) heap_acd_b = Ok tt s' /\
    same_arena heap_acd_b s' /\ lists_ok s' lists_acd.
Proof.
  apply (insert_then_remove_restores_lists heap_acd_b lists_acd 64 4272).
  - exact lists_acd_b_ok.
  - exact node_ok_4272.
  - closed.
  - exact lists_acd_far_4272.
Defined.

Lemma mm_init_layout_witness :
  exists s', mm_init (fresh_arena 4096 4896) = Ok 0 s' /\ lists_ok s' no_lists.
Proof.
  destruct (mm_init_layout (fresh_arena 4096 4896))
    as (s' & E & _ & _ & _ & _ & _ & _ & _ & _ & HL).
  - closed.
  - closed.
  - closed.
  - closed.
  - exists s'. apply conj; assumption.
Defined.

Lemma mm_init_no_room_witness :
  mm_init (fresh_arena 4096 4120)
  = Ok (-1) (set_heap_listp (wrap (-1)) (fresh_arena 4096 4120)).
Proof. apply (mm_init_no_room (fresh_arena 4096 4120)). closed. Defined.

Lemma mm_init_second_request_fails_witness :
  exists s',
    mm_init (fresh_arena 4096 4160) = Ok (-1) s' /\
    mem_brk s' = 4096 + 4 * WSIZE.
Proof.
  destruct (mm_init_second_request_fails (fresh_arena 4096 4160))
    as (s' & E & Hb & _).
  - closed.
  - closed.
  - closed.
  - exists s'. apply conj; assumption.
Defined.

Lemma malloc_out_of_memory_witness :
  mm_malloc 8 100 (heap_p_in 232)
  = Ok NULL (set_failedsize (adjust_size 100) (heap_p_in 232)).
Proof.
  apply (malloc_out_of_memory 8 (heap_p_in 232) no_lists 100).
  - closed.
  - closed.
  - exact lists_tight_ok.
  - apply no_lists_fuel. lia.
  - intros b Hb. vm_compute in Hb. inversion Hb.
  - closed.
Defined.

Lemma extensible_init : extensible heap_init (adjust_size 1).
Proof. constructor; closed. Qed.

Lemma malloc_miss_extends_witness :
  mm_malloc 8 1 heap_init
  = Ok (mem_brk heap_init)
       (allocated_whole (extended (set_failedsize (adjust_size 1) heap_init) (adjust_size 1))
          (mem_brk heap_init) (adjust_size 1)).
Proof.
  apply (malloc_miss_extends 8 heap_init no_lists 1).
  - closed.
  - closed.
  - exact lists_init_ok.
  - apply no_lists_fuel. lia.
  - intros b Hb. vm_compute in Hb. inversion Hb.
  - closed.
  - exact extensible_init.
Defined.

Lemma realloc_keeps_large_enough_block_witness :
  mm_realloc 8 4208 10 heap_pq = Ok 4208 heap_pq.
Proof.
  apply (realloc_keeps_large_enough_block 8 heap_pq 4208 10 65);
    [closed_holds | closed | closed | closed].
Defined.

Lemma extensible_p_grow : extensible heap_p (adjust_size 100 - size_bits 33).
Proof. constructor; closed. Qed.

Lemma realloc_grows_last_block_witness :
  mm_realloc 8 4208 100 heap_p
  = Ok 4208 (allocated_whole (extended heap_p (adjust_size 100 - size_bits 33))
               4208 (adjust_size 100)).
Proof.
  apply (realloc_grows_last_block 8 heap_p 4208 100 33 1).
  - closed.
  - closed.
  - closed.
  - closed_holds.
  - closed.
  - closed.
  - closed.
  - closed_holds.
  - closed.
  - exact extensible_p_grow.
Defined.

Lemma lists_acd_others (bp csize : Z) :
  bp = 4336 -> csize = 64 ->
  forall j b, 0 <= j < 8 -> b ∈ lists_acd j -> b <> bp ->
    b + 2 * DSIZE <= bp \/ bp + csize <= b.
Proof.
  intros -> -> j b _ Hb Hne. unfold lists_acd in Hb. destruct (j =? 0); [| inversion Hb].
  apply elem_of_cons in Hb as [-> | Hb]; [exfalso; apply Hne; reflexivity |].
  apply list_elem_of_singleton in Hb. subst b. left; closed.
Qed.

Lemma placeable_acd (asize : Z) :
  asize = 32 \/ asize = 48 -> placeable heap_acd lists_acd 4336 64 asize.
Proof.
  intros Ha. constructor.
  - closed.
  - exact lists_acd_ok.
  - closed_holds.
  - closed.
  - listed.
  - destruct Ha as [-> | ->]; closed.
  - apply lists_acd_others; reflexivity.
Qed.

Lemma place_splits_or_takes_whole_witness :
  (exists s', place 4336 32 true heap_acd = Ok tt s' /\ placed s' lists_acd 4336 64 32) /\
  (exists s', place 4336 48 true heap_acd = Ok tt s' /\ placed s' lists_acd 4336 64 48).
Proof.
  apply conj.
  - destruct (place_splits_or_takes_whole heap_acd lists_acd 4336 64 32)
      as (s' & E & _ & H); [apply placeable_acd; left; reflexivity |].
    exists s'. apply conj; assumption.
  - destruct (place_splits_or_takes_whole heap_acd lists_acd 4336 64 48)
      as (s' & E & _ & H); [apply placeable_acd; right; reflexivity |].
    exists s'. apply conj; assumption.
Defined.

Lemma malloc_takes_first_fit_witness :
  exists s',
    mm_malloc 8 1 heap_acd = Ok 4336 s' /\ same_arena heap_acd s' /\
    placed s' lists_acd 4336 64 (adjust_size 1).
Proof.
  apply (malloc_takes_first_fit 8 heap_acd lists_acd 1 4336 64).
  - closed.
  - closed.
  - closed.
  - apply lists_acd_fuel.
  - vm_compute. reflexivity.
  - apply placeable_acd. left. vm_compute. reflexivity.
Defined.

Lemma freeable_acd : freeable heap_acd lists_acd 4272 64 64 0 64 0.
Proof.
  constructor.
  - closed.
  - exact lists_acd_ok.
  - closed_holds.
  - closed.
  - closed.
  - closed.
  - apply conj; left; reflexivity.
  - closed_holds.
  - closed_holds.
  - closed.
  - intros _. apply conj; [closed | listed].
  - closed_holds.
  - closed.
  - intros _. apply conj; [closed |]. apply conj; [closed_holds | listed].
  - intros j b Hj Hb Hp Hn. unfold lists_acd in Hb.
    destruct (j =? 0); [| inversion Hb].
    apply elem_of_cons in Hb as [-> | Hb]; [exfalso; apply Hn; reflexivity |].
    apply list_elem_of_singleton in Hb. subst b. exfalso. apply Hp; reflexivity.
Qed.

Lemma free_coalesces_witness :
  exists s',
    mm_free 4272 heap_acd = Ok tt s' /\
    failedsize s' = (if 64 =? failedsize heap_acd then 0 else failedsize heap_acd) /\
    mem_brk s' = mem_brk heap_acd /\
    holds s' (HDRP (merged_start 4272 64 0)) (PACK (merged_size 64 64 0 64 0) 0) /\
    holds s' (merged_start 4272 64 0 + merged_size 64 64 0 64 0 - DSIZE)
      (PACK (merged_size 64 64 0 64 0) 0) /\
    lists_ok s' (merged_lists lists_acd 4272 64 64 0 64 0).
Proof. apply (free_coalesces heap_acd lists_acd 4272 64 64 0 64 0). exact freeable_acd. Defined.

Lemma checkheap_flags_every_prologue_witness :
  checkheap 8 false heap_p = Ok [BadPrologue] heap_p.
Proof.
  apply (checkheap_flags_every_prologue heap_p 8 17 [81; 33] 4240 1).
  - apply chainb_sound. vm_compute. reflexivity.
  - closed_holds.
  - closed.
  - closed.
  - simpl. lia.
Defined.

Lemma realloc_relocation_without_memory_faults_witness :
  mm_malloc 8 100 (heap_pq_in 240) = Ok NULL (exec (mm_malloc 8 100) (heap_pq_in 240)) /\
  mm_realloc 8 4208 100 (heap_pq_in 240) = Err (SegFault NULL).
Proof.
  apply conj; [vm_compute; reflexivity |].
  apply (realloc_relocation_without_memory_faults 8 (heap_pq_in 240) 4208 100 65 65
           (exec (mm_malloc 8 100) (heap_pq_in 240))).
  - closed_holds.
  - closed.
  - closed.
  - closed.
  - closed_holds.
  - closed.
  - vm_compute. reflexivity.
  - closed.
  - vm_compute. reflexivity.
  - closed.
Defined.

(** * The list heads on the example heaps *)




